(** * ArchiveBox: the command layer of [archivebox/main.py]

    A shallow embedding of the commands [init], [add], [remove], [update],
    [list_links] and [list_folders] of [archivebox/main.py], together with
    the properties of the index reconciliation and link-lifecycle engine
    that are decided by that file.

    Conventions of the embedding.
    - A Python [str] is the [string] of the bytes of its UTF-8 encoding;
      [Optional[T]] is [option T]; a Python [float] is a [Float]: a finite
      number (the rational it denotes), an infinity or NaN, with the
      comparisons of IEEE 754.
    - A command is a function on the state of the collection (the main
      index, the snapshot folders, everything else) that also records the
      calls it makes to the index reader, the index writer, the extractors
      and [shutil.rmtree]; it ends by returning, by [SystemExit] or by an
      exception.
    - Functions imported from other modules of the package are the fields
      of the class [Collaborators]; nothing is assumed about them beyond
      their types unless a definition says so.
    - [check_data_folder], [check_dependencies] and the [assert]s of
      [init] are taken to pass; the [print] calls, the progress timers and
      the [log_*] calls other than [log_removal_started] have no effect on
      the collection and are left out; the decorator [@enforce_types] of
      [archivebox.util] appears only through the flag [enforce_types]. *)

From Stdlib Require Import Ascii String QArith.
From stdpp Require Import gmap strings list.

Open Scope string_scope.
Open Scope list_scope.

(** ** Data model *)

(** One attempt of one extractor method on one link. *)
Record ArchiveResult := {
  start_ts : string;
  duration : Z;
  output : string;
  status : string;
}.

(** [archivebox.index.schema.Link], with the fields that the data model
    lists. *)
Record Link := {
  url : string;
  timestamp : string;
  title : option string;
  tags : option string;
  sources : list string;
  history : list (string * list ArchiveResult);
}.

(** Python exceptions that reach the commands. *)
Inductive exn :=
| KeyboardInterrupt
| ValueError (msg : string)
| TypeError (msg : string)
| OtherError (name : string).

(** How a call ends: [return a], [raise SystemExit(code)], or another
    exception. *)
Inductive Result (A : Type) :=
| Returned (a : A)
| SystemExit (code : Z)
| Raised (e : exn).
Arguments Returned {A} a.
Arguments SystemExit {A} code.
Arguments Raised {A} e.

(** The status with which the interpreter leaves when a command ends this
    way at top level: 0 after a normal return, the code of a [SystemExit],
    1 after an uncaught exception; after an uncaught [KeyboardInterrupt]
    the status depends on the version of the interpreter. *)
Definition exit_status {A} (r : Result A) : option Z :=
  match r with
  | Returned _ => Some 0%Z
  | SystemExit code => Some code
  | Raised KeyboardInterrupt => None
  | Raised _ => Some 1%Z
  end.

(** The ten folder states that [list_folders] recognises. *)
Inductive FolderStatus :=
| indexed | archived | unarchived
| present | valid | invalid
| duplicate | orphaned | corrupted | unrecognized.

(** ** Python values *)

(** [x < y] on rationals. *)
Definition Qltb (x y : Q) : bool :=
  match (x ?= y)%Q with Lt => true | _ => false end.

(** A Python [float]. *)
Inductive Float :=
| Finite (q : Q)
| Infinity (negative : bool)
| NaN.

(** [x < y] on floats: false as soon as one of them is NaN. *)
Definition float_lt (x y : Float) : bool :=
  match x, y with
  | Finite p, Finite q => Qltb p q
  | Finite _, Infinity negative => negb negative
  | Infinity negative, Finite _ => negative
  | Infinity negative, Infinity negative' => negative && negb negative'
  | _, _ => false
  end.

(** [x > y] on floats. *)
Definition float_gt (x y : Float) : bool := float_lt y x.

(** Truth value of an [Optional[str]]: [None] and [''] are false. *)
Definition truthy_str (s : option string) : bool :=
  match s with
  | None => false
  | Some EmptyString => false
  | Some (String _ _) => true
  end.

(** Truth value of an [Optional[List[str]]]: [None] and [[]] are false. *)
Definition truthy_list {A} (l : option (list A)) : bool :=
  match l with
  | None => false
  | Some [] => false
  | Some (_ :: _) => true
  end.

(** The list held by an [Optional[List[str]]] that was tested to be true. *)
Definition the_list {A} (l : option (list A)) : list A :=
  match l with
  | None => []
  | Some xs => xs
  end.

(** [s.split('\n')]: the pieces between newlines; always at least one. *)
Fixpoint split_newline (s : string) : list string :=
  match s with
  | EmptyString => [EmptyString]
  | String c rest =>
      if Ascii.eqb c "010"%char then EmptyString :: split_newline rest
      else match split_newline rest with
           | [] => [String c EmptyString]
           | piece :: pieces => String c piece :: pieces
           end
  end.

(** The text whose UTF-8 encoding is [bytes]. *)
Definition utf8 (bytes : list nat) : string :=
  string_of_list_ascii (map ascii_of_nat bytes).

(** A byte that goes on with a character: [10xxxxxx]. *)
Definition is_continuation (b : ascii) : bool :=
  let n := nat_of_ascii b in Nat.leb 128 n && Nat.leb n 191.

(** The characters of a [str], one text for each, in order. *)
Fixpoint chars (s : string) : list string :=
  match s with
  | EmptyString => []
  | String b rest =>
      match chars rest with
      | String b' more :: later =>
          if is_continuation b' then String b (String b' more) :: later
          else String b EmptyString :: String b' more :: later
      | later => String b EmptyString :: later
      end
  end.

(** The characters for which [str.isspace] holds: U+0009 to U+000D, U+001C
    to U+001F, U+0020, U+0085, U+00A0, U+1680, U+2000 to U+200A, U+2028,
    U+2029, U+202F, U+205F and U+3000. *)
Definition whitespace : list string :=
  map utf8
      [[9]; [10]; [11]; [12]; [13]; [28]; [29]; [30]; [31]; [32];
       [194; 133]; [194; 160]; [225; 154; 128];
       [226; 128; 128]; [226; 128; 129]; [226; 128; 130]; [226; 128; 131];
       [226; 128; 132]; [226; 128; 133]; [226; 128; 134]; [226; 128; 135];
       [226; 128; 136]; [226; 128; 137]; [226; 128; 138];
       [226; 128; 168]; [226; 128; 169]; [226; 128; 175];
       [226; 129; 159]; [227; 128; 128]].

(** [c.isspace()] for one character. *)
Definition isspace (c : string) : bool := existsb (String.eqb c) whitespace.

(** The list without its first elements that satisfy [p]. *)
Fixpoint drop_while {A} (p : A -> bool) (l : list A) : list A :=
  match l with
  | [] => []
  | x :: rest => if p x then drop_while p rest else l
  end.

(** [s.lstrip()] *)
Definition lstrip (s : string) : string :=
  String.concat "" (drop_while isspace (chars s)).

(** [s.rstrip()] *)
Definition rstrip (s : string) : string :=
  String.concat "" (rev (drop_while isspace (rev (chars s)))).

(** [s.strip()]. *)
Definition strip (s : string) : string := rstrip (lstrip s).

(** The text held by an [Optional[str]] that was tested to be true. *)
Definition the_str (s : option string) : string :=
  match s with
  | None => EmptyString
  | Some t => t
  end.

(** [o == s] for an [Optional[str]] and a string literal. *)
Definition str_eq (o : option string) (s : string) : bool :=
  match o with
  | None => false
  | Some t => String.eqb t s
  end.

(** A [Dict[str, Link]]: keys in insertion order. *)
Definition Dict := list (string * Link).

(** [k in d]. *)
Definition dict_has (k : string) (d : Dict) : bool :=
  existsb (fun kv => String.eqb (fst kv) k) d.

(** [d[k] = v]: an existing key keeps its place and takes the new value, a
    new key goes last. *)
Fixpoint dict_set (k : string) (v : Link) (d : Dict) : Dict :=
  match d with
  | [] => [(k, v)]
  | (k', v') :: rest =>
      if String.eqb k' k then (k', v) :: rest
      else (k', v') :: dict_set k v rest
  end.

(** [{link.url: link for link in links if link.url not in seen}]. *)
Definition dict_of_links (links : list Link) (seen : Dict) : Dict :=
  fold_left
    (fun d link => if dict_has (url link) seen then d
                   else dict_set (url link) link d)
    links [].

(** [d.update(more)]. *)
Definition dict_update (d more : Dict) : Dict :=
  fold_left (fun acc kv => dict_set (fst kv) (snd kv) acc) more d.

(** [list(d.values())]. *)
Definition dict_values (d : Dict) : list Link := map snd d.

(** ** State of the collection and collaborators *)

(** What lies outside the main index: the snapshot folders that exist under
    the archive root, named by their path, and the rest of the machine
    (file contents, network, clock, keyboard). *)
Record Tree (O : Type) := {
  folders : gset string;
  outside : O;
}.
Arguments folders {O} _.
Arguments outside {O} _.

(** The collection: the links that the main index holds, in order, and the
    tree. *)
Record World (O : Type) := {
  main_index : list Link;
  tree : Tree O;
}.
Arguments main_index {O} _.
Arguments tree {O} _.

(** What the commands import from the rest of the package.  A function
    that works on the tree gets the tree and gives the new tree and the way
    its call ended; by its type it cannot touch the main index.  The
    extractors get the whole collection. *)
Class Collaborators := {
  Outside : Type;
  (** [config.ARCHIVE_DIR] *)
  ARCHIVE_DIR : string;
  (** whether [@enforce_types] rejects [None] for a parameter annotated
      [str] *)
  enforce_types : bool;
  (** Python's [float] on a [str]: the number, or the way the call ends
      when the text is no number (a [ValueError]) *)
  float : string -> Result Float;
  (** [index.link_matches_filter(link, filter_patterns, filter_type)]: the
      answer, or the way the call ends (the configuration error of a filter
      type that is not known) *)
  link_matches_filter :
    Link -> list string -> option string -> Result bool;
  (** [shutil.rmtree(dir, ignore_errors=True)]: whether the folder is
      gone afterwards (an error is ignored and may leave it there), and
      the rest of the machine after the call *)
  rmtree_outcome : string -> Tree Outside -> bool * Outside;
  (** [util.save_stdin_to_sources], [util.save_file_to_sources] *)
  save_stdin_to_sources :
    string -> Tree Outside -> Tree Outside * Result string;
  save_file_to_sources :
    option string -> Tree Outside -> Tree Outside * Result string;
  (** [index.import_new_links(all_links, import_path)] *)
  import_new_links :
    list Link -> string -> Tree Outside ->
    Tree Outside * Result (list Link * list Link);
  (** [extractors.archive_link(link, overwrite, out_dir)] *)
  archive_link :
    Link -> bool -> World Outside -> World Outside * Result unit;
  (** [cli.logging.log_removal_started(links, yes, delete)]: it shows what
      is about to be removed and is told whether the user has already said
      yes; it works on the outside only *)
  log_removal_started :
    list Link -> bool -> bool -> Outside -> Outside * Result unit;
  (** [index.get_indexed_folders] ... [index.get_unrecognized_folders],
      indexed by the state they select: the folders of that state with
      their links, or the way the call ends when the scan of the folders
      fails; the call changes nothing *)
  get_folders :
    FolderStatus -> list Link -> Tree Outside ->
    Result (list (string * option Link));
  (** [index.fix_invalid_folder_locations] *)
  fix_invalid_folder_locations : Tree Outside -> Tree Outside;
  (** the first steps of [init]: what it sees in the output folder, and the
      folders, config file and SQL database that it creates *)
  output_dir_is_empty : World Outside -> bool;
  json_index_exists : World Outside -> bool;
  build_folder_structure : Tree Outside -> Tree Outside;
  (** [index.json.parse_json_main_index], [index.sql.parse_sql_main_index],
      [index.json.parse_json_links_details] *)
  parse_json_main_index : World Outside -> list Link;
  parse_sql_main_index : World Outside -> list Link;
  parse_json_links_details : World Outside -> list Link;
}.

(** Calls that a command makes and that a property may speak about. *)
Inductive Event :=
| EvLoadMainIndex
| EvWriteMainIndex (links : list Link) (finished : bool)
| EvArchiveLink (link : Link) (overwrite : bool) (ended : Result unit)
| EvGetFolders (state : FolderStatus) (links : list Link)
| EvRmtree (dir : string).

Section Commands.
Context `{Collaborators}.

(** A run: the collection and the calls made so far, oldest first. *)
Record Run := {
  world : World Outside;
  calls : list Event;
}.

(** A command or a step of one. *)
Definition M (A : Type) : Type := Run -> Run * Result A.

Definition ret {A} (a : A) : M A := fun r => (r, Returned a).

Definition bind {A B} (m : M A) (k : A -> M B) : M B :=
  fun r =>
    match m r with
    | (r', Returned a) => k a r'
    | (r', SystemExit code) => (r', SystemExit code)
    | (r', Raised e) => (r', Raised e)
    end.

(** A step that ends the way [res] says. *)
Definition of_result {A} (res : Result A) : M A := fun r => (r, res).

(** [raise SystemExit(code)] *)
Definition exit {A} (code : Z) : M A := fun r => (r, SystemExit code).

(** [raise e] *)
Definition raise {A} (e : exn) : M A := fun r => (r, Raised e).

Definition emit (e : Event) : M unit :=
  fun r => ({| world := world r; calls := calls r ++ [e] |}, Returned tt).

(** The collection as it is now. *)
Definition look : M (World Outside) := fun r => (r, Returned (world r)).

(** A call of a collaborator that works on the tree. *)
Definition on_tree {A} (f : Tree Outside -> Tree Outside * Result A) : M A :=
  fun r =>
    let '(t, res) := f (tree (world r)) in
    ({| world := {| main_index := main_index (world r); tree := t |};
        calls := calls r |}, res).

(** A call of a collaborator that works on the outside only. *)
Definition on_outside {A} (f : Outside -> Outside * Result A) : M A :=
  fun r =>
    let '(o, res) := f (outside (tree (world r))) in
    ({| world := {| main_index := main_index (world r);
                    tree := {| folders := folders (tree (world r));
                               outside := o |} |};
        calls := calls r |}, res).

(** [try: body / except KeyboardInterrupt: handler / except: raise] *)
Definition except_KeyboardInterrupt {A} (body handler : M A) : M A :=
  fun r =>
    match body r with
    | (r', Raised KeyboardInterrupt) => handler r'
    | ended => ended
    end.

End Commands.

#[export] Instance M_ret `{Collaborators} : MRet M := @ret _.
#[export] Instance M_bind `{Collaborators} : MBind M :=
  fun A B k m => bind m k.

Section Main.
Context `{Collaborators}.

(** ** Index reader, index writer, folders *)

(** [check_data_folder(out_dir)] and [check_dependencies()]: taken to
    pass. *)
Definition check_data_folder : M unit := mret tt.
Definition check_dependencies : M unit := mret tt.

(** Modelled from the spec: [index.load_main_index] is missing from the
    sources; it reads the canonical index and gives its links in order. *)
Definition load_main_index : M (list Link) :=
  emit EvLoadMainIndex ;;
  w ← look ;
  mret (main_index w).

(** Modelled from the spec: [index.write_main_index] is missing from the
    sources; it replaces the canonical index by the given sequence of
    links, and it never deletes a [link_dir]. *)
Definition write_main_index (links : list Link) (finished : bool) : M unit :=
  fun r =>
    ({| world := {| main_index := links; tree := tree (world r) |};
        calls := calls r ++ [EvWriteMainIndex links finished] |},
     Returned tt).

(** Modelled from the spec: the property [Link.link_dir] is missing from
    the sources; it is [<archive_root>/<timestamp>]. *)
Definition link_dir (link : Link) : string :=
  ARCHIVE_DIR +:+ "/" +:+ timestamp link.

(** [shutil.rmtree(dir, ignore_errors=True)]: it never raises an error
    of the file system; no other folder goes. *)
Definition rmtree (dir : string) : M unit :=
  fun r =>
    let '(gone, o) := rmtree_outcome dir (tree (world r)) in
    ({| world :=
          {| main_index := main_index (world r);
             tree := {| folders := if gone
                                   then folders (tree (world r)) ∖ {[dir]}
                                   else folders (tree (world r));
                        outside := o |} |};
        calls := calls r ++ [EvRmtree dir] |},
     Returned tt).

(** One call [archive_link(link, overwrite=..., out_dir=link.link_dir)]. *)
Definition call_archive_link (link : Link) (overwrite : bool) : M unit :=
  fun r =>
    let '(w, ended) := archive_link link overwrite (world r) in
    ({| world := w;
        calls := calls r ++ [EvArchiveLink link overwrite ended] |},
     ended).

(** [for idx, link in enumerate(links): archive_link(link, ...)] *)
Fixpoint archive_each (overwrite : bool) (links : list Link) : M unit :=
  match links with
  | [] => mret tt
  | link :: rest =>
      call_archive_link link overwrite ;;
      archive_each overwrite rest
  end.

(** Modelled from the spec: [index.links_after_timestamp] is missing from
    the sources; with a [resume] value it skips every link whose timestamp
    is less than that value, and without one it gives every link. *)
Definition links_after_timestamp
    (links : list Link) (resume : option Float) : list Link :=
  match resume with
  | None => links
  | Some r =>
      List.filter
        (fun link => match float (timestamp link) with
                     | Returned t => negb (float_lt t r)
                     | _ => true
                     end)
        links
  end.

(** ** [list_links] *)

(** A call that ends as [res] does, for the caller of a call that did not
    return. *)
Definition ended_as {A B} (res : Result A) (otherwise : B) : Result B :=
  match res with
  | Returned _ => Returned otherwise
  | SystemExit code => SystemExit code
  | Raised e => Raised e
  end.

(** [after is not None and float(link.timestamp) < after] *)
Definition before_lower_bound (after : option Float) (link : Link)
    : Result bool :=
  match after with
  | None => Returned false
  | Some a =>
      match float (timestamp link) with
      | Returned t => Returned (float_lt t a)
      | ended => ended_as ended false
      end
  end.

(** [before is not None and float(link.timestamp) > before] *)
Definition beyond_upper_bound (before : option Float) (link : Link)
    : Result bool :=
  match before with
  | None => Returned false
  | Some b =>
      match float (timestamp link) with
      | Returned t => Returned (float_gt t b)
      | ended => ended_as ended false
      end
  end.

(** The rest of a generator after a test: [go_on] with the answer of the
    test, or the end of the iteration when the test did not return. *)
Definition and_then {A} (test : Result A)
    (go_on : A -> list Link * Result unit) : list Link * Result unit :=
  match test with
  | Returned a => go_on a
  | ended => ([], ended_as ended tt)
  end.

(** [yield link], then [more]. *)
Definition yield (link : Link) (more : list Link * Result unit)
    : list Link * Result unit :=
  (link :: more.1, more.2).

(** The loop of the generator [list_links]: the links it yields, in order,
    and how the iteration ends: at the end of the index, or with the
    exception of a test. *)
Fixpoint list_links_loop
    (filter_patterns : option (list string)) (filter_type : option string)
    (after before : option Float) (all_links : list Link)
    : list Link * Result unit :=
  match all_links with
  | [] => ([], Returned tt)
  | link :: rest =>
      let more :=
        list_links_loop filter_patterns filter_type after before rest in
      and_then (before_lower_bound after link) (fun below =>
        if below then more
        else
          and_then (beyond_upper_bound before link) (fun beyond =>
            if beyond then more
            else if truthy_list filter_patterns then
              and_then
                (link_matches_filter link (the_list filter_patterns)
                                     filter_type)
                (fun matches => if matches then yield link more else more)
            else yield link more))
  end.

(** [list(generator)]: the links, unless the iteration ends with an
    exception. *)
Definition list_of (generator : list Link * Result unit)
    : Result (list Link) :=
  ended_as generator.2 generator.1.

(** The check of [@enforce_types] on an argument for a parameter annotated
    [str]. *)
Definition enforce_str (param : string) (arg : option string) : M unit :=
  match arg with
  | None =>
      if enforce_types then raise (TypeError param) else mret tt
  | Some _ => mret tt
  end.

(** [list(list_links(...))]: every caller of the generator goes through
    it at once, with [list] or [sorted]. *)
Definition list_links
    (filter_patterns : option (list string)) (filter_type : option string)
    (after before : option Float) : M (list Link) :=
  enforce_str "filter_type" filter_type ;;
  check_data_folder ;;
  all_links ← load_main_index ;
  of_result
    (list_of (list_links_loop filter_patterns filter_type after before
                              all_links)).

(** ** [list_folders] *)

(** The chain of comparisons of [list_folders]. *)
Definition recognized_status (status : option string) : option FolderStatus :=
  if str_eq status "indexed" then Some indexed
  else if str_eq status "archived" then Some archived
  else if str_eq status "unarchived" then Some unarchived
  else if str_eq status "present" then Some present
  else if str_eq status "valid" then Some valid
  else if str_eq status "invalid" then Some invalid
  else if str_eq status "duplicate" then Some duplicate
  else if str_eq status "orphaned" then Some orphaned
  else if str_eq status "corrupted" then Some corrupted
  else if str_eq status "unrecognized" then Some unrecognized
  else None.

Definition list_folders
    (links : list Link) (status : option string)
    : M (list (string * option Link)) :=
  enforce_str "status" status ;;
  check_data_folder ;;
  match recognized_status status with
  | Some state =>
      emit (EvGetFolders state links) ;;
      w ← look ;
      of_result (get_folders state links (tree w))
  | None => raise (ValueError "Status not recognized.")
  end.

(** ** [add] *)

Definition add
    (import_str import_path : option string) (update_all index_only : bool)
    : M (list Link) :=
  check_data_folder ;;
  import_path ←
    (if truthy_str import_str && truthy_str import_path then exit 2
     else if truthy_str import_str
          then on_tree (save_stdin_to_sources (the_str import_str))
          else on_tree (save_file_to_sources import_path)) ;
  check_dependencies ;;
  (* Step 1 *)
  all_links ← load_main_index ;
  merged ←
    (if truthy_str (Some import_path)
     then on_tree (import_new_links all_links import_path)
     else mret (all_links, [])) ;
  let all_links := fst merged in
  let new_links := snd merged in
  (* Step 2 *)
  write_main_index all_links false ;;
  if index_only then mret all_links
  else
    (* Step 3 *)
    let links := if update_all then all_links else new_links in
    except_KeyboardInterrupt (archive_each false links) (exit 0) ;;
    (* Step 4 *)
    all_links ← load_main_index ;
    write_main_index all_links true ;;
    mret all_links.

(** ** [remove] *)

(** [a or b] *)
Definition or_else (a b : Result bool) : Result bool :=
  match a with
  | Returned false => b
  | answered => answered
  end.

(** The value [should_remove] that the loop of [remove] computes for a
    link. *)
Definition should_remove
    (filter_patterns : option (list string)) (filter_type : string)
    (after before : option Float) (link : Link) : Result bool :=
  or_else (before_lower_bound after link)
    (or_else (beyond_upper_bound before link)
       (link_matches_filter link (the_list filter_patterns)
                            (Some filter_type))).

(** The loop of [remove] over the links of the index; [to_keep] is the list
    built so far. *)
Fixpoint remove_loop
    (filter_patterns : option (list string)) (filter_type : string)
    (after before : option Float) (delete : bool)
    (all_links to_keep : list Link) : M (list Link) :=
  match all_links with
  | [] => mret to_keep
  | link :: rest =>
      gone ←
        of_result
          (should_remove filter_patterns filter_type after before link) ;
      if negb gone then
        remove_loop filter_patterns filter_type after before delete
                    rest (to_keep ++ [link])
      else if gone && delete then
        rmtree (link_dir link) ;;
        remove_loop filter_patterns filter_type after before delete
                    rest to_keep
      else
        remove_loop filter_patterns filter_type after before delete
                    rest to_keep
  end.

(** The first lines of [remove]: the patterns it goes on with, or exit
    status 2. *)
Definition remove_patterns
    (filter_str : option string) (filter_patterns : option (list string))
    : Result (option (list string)) :=
  if truthy_str filter_str && truthy_list filter_patterns then SystemExit 2
  else if negb (truthy_str filter_str || truthy_list filter_patterns)
  then SystemExit 2
  else if truthy_str filter_str
  then Returned (Some (map strip (split_newline (the_str filter_str))))
  else Returned filter_patterns.

Definition remove
    (filter_str : option string) (filter_patterns : option (list string))
    (filter_type : string) (after before : option Float) (yes delete : bool)
    : M (list Link) :=
  check_data_folder ;;
  filter_patterns ← of_result (remove_patterns filter_str filter_patterns) ;
  links ← list_links filter_patterns (Some filter_type) after before ;
  if Nat.eqb (length links) 0 then exit 1
  else
    on_outside (log_removal_started links yes delete) ;;
    all_links ← load_main_index ;
    to_keep ←
      remove_loop filter_patterns filter_type after before delete
                  all_links [] ;
    write_main_index to_keep true ;;
    mret to_keep.

(** ** [update]

    [after] and [before] are passed on to [list_links], which compares
    them with floats; they are floats here. *)

(** [[link for link in matching_folders.values() if link]] *)
Definition folder_links (matching_folders : list (string * option Link))
    : list Link :=
  omap snd matching_folders.

Definition update
    (resume : option Float) (only_new index_only overwrite : bool)
    (filter_patterns_str : option string)
    (filter_patterns : option (list string)) (filter_type : option string)
    (status : option string) (after before : option Float)
    : M (list Link) :=
  check_dependencies ;;
  check_data_folder ;;
  (* Step 1 *)
  let new_links : list Link := [] in
  all_links ← load_main_index ;
  (* Step 2 *)
  write_main_index all_links false ;;
  (* Step 3 *)
  matching_links ← list_links filter_patterns filter_type after before ;
  matching_folders ← list_folders matching_links status ;
  let all_links := folder_links matching_folders in
  if index_only then mret all_links
  else
    (* Step 3 *)
    let links := if only_new then new_links else all_links in
    except_KeyboardInterrupt
      (archive_each overwrite (links_after_timestamp links resume))
      (exit 0) ;;
    (* Step 4 *)
    all_links ← load_main_index ;
    write_main_index all_links true ;;
    mret all_links.

(** ** [init]

    The tests [if orphaned_json_links:] and the like are not written out:
    [dict_update] with an empty dictionary changes nothing.  The folders
    that [get_invalid_folders] gives are only printed. *)

Definition init : M unit :=
  w ← look ;
  let is_empty := output_dir_is_empty w in
  let existing_index := json_index_exists w in
  (if is_empty && negb existing_index then mret tt
   else if existing_index then mret tt
   else exit 1) ;;
  on_tree (fun t => (build_folder_structure t, Returned tt)) ;;
  all_links ←
    (if existing_index
     then links ← load_main_index ; mret (dict_of_links links [])
     else mret []) ;
  (* Links in data folders that dont match their timestamp *)
  on_tree (fun t => (fix_invalid_folder_locations t, Returned tt)) ;;
  (* Links in JSON index but not in main index *)
  w ← look ;
  let orphaned_json_links :=
    dict_of_links (parse_json_main_index w) all_links in
  let all_links := dict_update all_links orphaned_json_links in
  (* Links in SQL index but not in main index *)
  let orphaned_sql_links :=
    dict_of_links (parse_sql_main_index w) all_links in
  let all_links := dict_update all_links orphaned_sql_links in
  (* Links in data dir indexes but not in main index *)
  let orphaned_data_dir_links :=
    dict_of_links (parse_json_links_details w) all_links in
  let all_links := dict_update all_links orphaned_data_dir_links in
  (* Links in invalid/duplicate data dirs *)
  emit (EvGetFolders invalid (dict_values all_links)) ;;
  w ← look ;
  invalid_folders ←
    of_result (get_folders invalid (dict_values all_links) (tree w)) ;
  write_main_index (dict_values all_links) false.

End Main.

(** ** Reading a run *)

Section Reading.
Context `{Collaborators}.

(** A command started on the collection [w]. *)
Definition start (w : World Outside) : Run := {| world := w; calls := [] |}.

(** The links that a call of [list_links] yields when it is consumed. *)
Definition yielded (ended : Run * Result (list Link)) : list Link :=
  match ended.2 with
  | Returned links => links
  | _ => []
  end.

Definition is_write (e : Event) : bool :=
  match e with EvWriteMainIndex _ _ => true | _ => false end.

Definition is_archive_call (e : Event) : bool :=
  match e with EvArchiveLink _ _ _ => true | _ => false end.

(** The calls of the index writer among the calls of a run. *)
Definition writes (evs : list Event) : list Event := List.filter is_write evs.

(** The calls of the extractors among the calls of a run. *)
Definition archive_calls (evs : list Event) : list Event :=
  List.filter is_archive_call evs.

(** The folders that the run asked [shutil.rmtree] to delete. *)
Definition rmtree_calls (evs : list Event) : list string :=
  omap (fun e => match e with EvRmtree dir => Some dir | _ => None end) evs.

(** The run was stopped by the user during the archiving of some link. *)
Definition interrupted (evs : list Event) : Prop :=
  ∃ link overwrite,
    EvArchiveLink link overwrite (Raised KeyboardInterrupt) ∈ evs.

(** The archiving of some link failed with the exception [e]. *)
Definition failed_with (e : exn) (evs : list Event) : Prop :=
  ∃ link overwrite, EvArchiveLink link overwrite (Raised e) ∈ evs.

(** [x] is less than [y] in the order of IEEE 754: NaN is less than no
    number and no number is less than NaN. *)
Definition Float_less (x y : Float) : Prop :=
  match x, y with
  | Finite p, Finite q => (p < q)%Q
  | Finite _, Infinity negative => negative = false
  | Infinity negative, Finite _ => negative = true
  | Infinity negative, Infinity negative' =>
      negative = true ∧ negative' = false
  | _, _ => False
  end.

(** [x ≤ y] in the order of IEEE 754: false as soon as one of them is
    NaN. *)
Definition Float_le (x y : Float) : Prop :=
  match x, y with
  | Finite p, Finite q => (p <= q)%Q
  | Finite _, Infinity negative => negative = false
  | Infinity negative, Finite _ => negative = true
  | Infinity negative, Infinity negative' =>
      negative = true ∨ negative' = false
  | _, _ => False
  end.

(** The call [res] did not return, and [res'] ends in the same way. *)
Definition same_end {A B} (res : Result A) (res' : Result B) : Prop :=
  match res, res' with
  | SystemExit code, SystemExit code' => code = code'
  | Raised e, Raised e' => e = e'
  | _, _ => False
  end.

(** The lower bound as the filter engine states it: [after ≤ timestamp]. *)
Definition after_ok (after : option Float) (link : Link) : Prop :=
  match after with
  | None => True
  | Some a => ∃ t, float (timestamp link) = Returned t ∧ Float_le a t
  end.

(** The upper bound as the filter engine states it: [timestamp ≤ before]. *)
Definition before_ok (before : option Float) (link : Link) : Prop :=
  match before with
  | None => True
  | Some b => ∃ t, float (timestamp link) = Returned t ∧ Float_le t b
  end.

(** The folder [dir] was there before the run and is not there after. *)
Definition deleted (dir : string) (w w' : World Outside) : Prop :=
  dir ∈ folders (tree w) ∧ dir ∉ folders (tree w').

(** What the merge contract asks of the record [w] written for a URL that
    the existing record [e] and the incoming record [inc] share. *)
Definition merged_record (e inc w : Link) : Prop :=
  timestamp w = timestamp e
  ∧ sources w = sources e ++ sources inc
  ∧ title w = (if truthy_str (title e) then title e else title inc)
  ∧ tags w = (if truthy_str (tags e) then tags e else tags inc).

End Reading.

Section Filter.
Context `{Collaborators}.

(** No pattern was given: the argument is [None] or an empty list. *)
Definition no_patterns (filter_patterns : option (list string)) : Prop :=
  filter_patterns = None ∨ filter_patterns = Some [].

(** The lower bound as [list_links] tests it: there is none, or the
    timestamp is a number that is not less than it. *)
Definition in_after (after : option Float) (link : Link) : Prop :=
  match after with
  | None => True
  | Some a => ∃ t, float (timestamp link) = Returned t ∧ ¬ Float_less t a
  end.

(** The upper bound as [list_links] tests it: there is none, or the
    timestamp is a number that is not greater than it. *)
Definition in_before (before : option Float) (link : Link) : Prop :=
  match before with
  | None => True
  | Some b => ∃ t, float (timestamp link) = Returned t ∧ ¬ Float_less b t
  end.

(** No pattern was given, or [link_matches_filter] says that the link
    matches the patterns. *)
Definition matched
    (filter_patterns : option (list string)) (filter_type : option string)
    (link : Link) : Prop :=
  match filter_patterns with
  | Some (pattern :: patterns) =>
      link_matches_filter link (pattern :: patterns) filter_type
      = Returned true
  | _ => True
  end.

(** The link is inside both bounds and matches. *)
Definition selected
    (filter_patterns : option (list string)) (filter_type : option string)
    (after before : option Float) (link : Link) : Prop :=
  in_after after link ∧ in_before before link
  ∧ matched filter_patterns filter_type link.

(** The iteration ends at the link, as [ended]: a bound is given and
    [float] does not return on the timestamp, or the link is inside both
    bounds, patterns are given and [link_matches_filter] does not return on
    it. *)
Definition stops_at
    (filter_patterns : option (list string)) (filter_type : option string)
    (after before : option Float) (link : Link) (ended : Result unit)
    : Prop :=
  ((after ≠ None ∨ before ≠ None)
   ∧ same_end (float (timestamp link)) ended)
  ∨ (in_after after link ∧ in_before before link
     ∧ ∃ pattern patterns,
         filter_patterns = Some (pattern :: patterns)
         ∧ same_end (link_matches_filter link (pattern :: patterns)
                                         filter_type)
                    ended).

End Filter.

(** [chosen] holds, in their order, the elements of [all] that satisfy
    [P]. *)
Inductive filtered_by {A} (P : A -> Prop) : list A -> list A -> Prop :=
| filtered_nil : filtered_by P [] []
| filtered_keep x all chosen :
    P x -> filtered_by P all chosen -> filtered_by P (x :: all) (x :: chosen)
| filtered_skip x all chosen :
    ¬ P x -> filtered_by P all chosen -> filtered_by P (x :: all) chosen.

(** ** The phases of the commands *)

Section Phases.
Context `{Collaborators}.

(** The run of [add] after its Step 2, when it has written [links] and the
    tree is [t]. *)
Definition written (links : list Link) (t : Tree Outside) : Run :=
  {| world := {| main_index := links; tree := t |};
     calls := [EvLoadMainIndex; EvWriteMainIndex links false] |}.

(** The run of [update] after its filter step, when [list_links] has given
    [matching] and the status is [st]. *)
Definition filtered (w : World Outside) (st : FolderStatus)
    (matching : list Link) : Run :=
  {| world := w;
     calls := [EvLoadMainIndex; EvWriteMainIndex (main_index w) false;
               EvLoadMainIndex; EvGetFolders st matching] |}.

(** What [add] and [update] do once the loop of Step 3 has ended the way
    [batch] says: the two [except] clauses, then Step 4. *)
Definition after_batch (batch : Run * Result unit)
    : Run * Result (list Link) :=
  match batch with
  | (r, Returned _) =>
      ({| world := {| main_index := main_index (world r);
                      tree := tree (world r) |};
          calls := (calls r ++ [EvLoadMainIndex])
                   ++ [EvWriteMainIndex (main_index (world r)) true] |},
       Returned (main_index (world r)))
  | (r, Raised KeyboardInterrupt) => (r, SystemExit 0)
  | (r, SystemExit code) => (r, SystemExit code)
  | (r, Raised e) => (r, Raised e)
  end.

(** [out] is what some call of [add] or of [update] leaves. *)
Definition archiving_run (out : Run * Result (list Link)) : Prop :=
  (∃ import_str import_path update_all index_only w,
     out = add import_str import_path update_all index_only (start w))
  ∨ (∃ resume only_new index_only overwrite filter_patterns_str
       filter_patterns filter_type status after before w,
       out = update resume only_new index_only overwrite filter_patterns_str
                    filter_patterns filter_type status after before
                    (start w)).

(** The collection after the extractors have been called on the links of
    [links], one after the other, up to the first call that does not
    return. *)
Fixpoint after_archiving (overwrite : bool) (links : list Link)
    (w : World Outside) : World Outside :=
  match links with
  | [] => w
  | link :: rest =>
      match archive_link link overwrite w with
      | (w', Returned _) => after_archiving overwrite rest w'
      | (w', _) => w'
      end
  end.

(** The first steps of [add]: the tree after [save_stdin_to_sources] or
    [save_file_to_sources] and after [import_new_links], with the merged
    links and the new links, or the way in which one of them ended. *)
Definition merged_links (import_str import_path : option string)
    (w : World Outside) : Tree Outside * Result (list Link * list Link) :=
  match (if truthy_str import_str
         then save_stdin_to_sources (the_str import_str) (tree w)
         else save_file_to_sources import_path (tree w)) with
  | (t, Returned path) =>
      match path with
      | EmptyString => (t, Returned (main_index w, []))
      | String _ _ => import_new_links (main_index w) path t
      end
  | (t, SystemExit code) => (t, SystemExit code)
  | (t, Raised e) => (t, Raised e)
  end.

(** The extractors do not write the main index. *)
Definition extractors_keep_index : Prop :=
  ∀ link overwrite w,
    main_index (archive_link link overwrite w).1 = main_index w.

(** A read of the index, a write of the index, or a look at the folders. *)
Definition reads_or_writes_index (e : Event) : Prop :=
  match e with
  | EvLoadMainIndex | EvWriteMainIndex _ _ | EvGetFolders _ _ => True
  | EvArchiveLink _ _ _ | EvRmtree _ => False
  end.

(** The links of [links] for which [remove] computes [should_remove]. *)
Definition dropped pats ft after before (links : list Link) : list Link :=
  List.filter
    (fun l => match should_remove pats ft after before l with
              | Returned true => true
              | _ => false
              end)
    links.

(** The links of [links] that the loop of [remove] keeps. *)
Definition kept pats ft after before (links : list Link) : list Link :=
  List.filter
    (fun l => match should_remove pats ft after before l with
              | Returned false => true
              | _ => false
              end)
    links.

(** The tree after [shutil.rmtree(dir, ignore_errors=True)] for each
    folder of [dirs], in order. *)
Definition after_rmtree (dirs : list string) (t : Tree Outside)
    : Tree Outside :=
  fold_left
    (fun t dir =>
       let '(gone, o) := rmtree_outcome dir t in
       {| folders := if gone then folders t ∖ {[dir]} else folders t;
          outside := o |})
    dirs t.

(** The folders that the loop of [remove] deletes. *)
Definition dropped_dirs pats ft after before (delete : bool)
    (links : list Link) : list string :=
  if delete then map link_dir (dropped pats ft after before links) else [].

(** The run in which [remove] has stopped at [log_removal_started], which
    left the outside as [o]. *)
Definition not_removed (w : World Outside) (o : Outside) : Run :=
  {| world := {| main_index := main_index w;
                 tree := {| folders := folders (tree w); outside := o |} |};
     calls := [EvLoadMainIndex] |}.

(** The run in which [remove] has rewritten the index, after
    [log_removal_started] left the outside as [o]. *)
Definition removed pats ft after before (delete : bool) (w : World Outside)
    (o : Outside) : Run :=
  {| world :=
       {| main_index := kept pats ft after before (main_index w);
          tree :=
            after_rmtree
              (dropped_dirs pats ft after before delete (main_index w))
              {| folders := folders (tree w); outside := o |} |};
     calls :=
       [EvLoadMainIndex; EvLoadMainIndex]
       ++ map EvRmtree
              (dropped_dirs pats ft after before delete (main_index w))
       ++ [EvWriteMainIndex (kept pats ft after before (main_index w)) true]
  |}.

(** Whether [init] goes on past its first check. *)
Definition init_proceeds (w : World Outside) : bool :=
  (output_dir_is_empty w && negb (json_index_exists w))
  || json_index_exists w.

(** The links that [init] loads from the existing main index. *)
Definition existing_links (w : World Outside) : list Link :=
  if json_index_exists w then main_index w else [].

(** The collection as the later readers of [init] see it. *)
Definition seen_by_init (w : World Outside) : World Outside :=
  {| main_index := main_index w;
     tree := fix_invalid_folder_locations (build_folder_structure (tree w)) |}.

(** The dictionary [all_links] of [init] after each of its sources. *)
Definition collected_main (w : World Outside) : Dict :=
  dict_of_links (existing_links w) [].

Definition orphaned_json (w : World Outside) : Dict :=
  dict_of_links (parse_json_main_index (seen_by_init w)) (collected_main w).

Definition collected_json (w : World Outside) : Dict :=
  dict_update (collected_main w) (orphaned_json w).

Definition orphaned_sql (w : World Outside) : Dict :=
  dict_of_links (parse_sql_main_index (seen_by_init w)) (collected_json w).

Definition collected_sql (w : World Outside) : Dict :=
  dict_update (collected_json w) (orphaned_sql w).

Definition orphaned_data_dir (w : World Outside) : Dict :=
  dict_of_links (parse_json_links_details (seen_by_init w)) (collected_sql w).

Definition collected (w : World Outside) : Dict :=
  dict_update (collected_sql w) (orphaned_data_dir w).

End Phases.

(** ** A small collection to run the commands on *)

Module Demo.

(** The value of a timestamp written in whole seconds, if all its
    characters are digits. *)
Fixpoint whole_seconds (s : string) (acc : Z) : option Z :=
  match s with
  | EmptyString => Some acc
  | String c rest =>
      let n := nat_of_ascii c in
      if Nat.leb 48 n && Nat.leb n 57
      then whole_seconds rest (acc * 10 + Z.of_nat (n - 48))
      else None
  end.

(** [float] on the texts that the examples use: digits, or [nan]. *)
Definition whole_number (s : string) : Result Float :=
  if String.eqb s "nan" then Returned NaN
  else match s, whole_seconds s 0 with
       | String _ _, Some n => Returned (Finite (inject_Z n))
       | _, _ =>
           Raised (ValueError "could not convert string to float")
       end.

Definition mk_link (u ts : string) (t : option string) (src : list string)
    : Link :=
  {| url := u; timestamp := ts; title := t; tags := None;
     sources := src; history := [] |}.

(** Collaborators of a collection in which patterns are matched exactly
    and no other filter type is known, [rmtree] removes every folder it is
    asked to, imports bring [incoming], the JSON index, the SQL index and the folders
    hold [json], [sql] and [details], and the outside is the list of the
    ways in which the next runs of the extractors end (a run past the end
    of the list succeeds); [log_removal_started] stops the run unless it is
    told that the user has said yes. *)
Definition collab (incoming json sql details : list Link) : Collaborators :=
  {| Outside := list (Result unit);
     ARCHIVE_DIR := "archive";
     enforce_types := true;
     float := whole_number;
     link_matches_filter := fun link patterns filter_type =>
       if str_eq filter_type "exact"
       then Returned (existsb (String.eqb (url link)) patterns)
       else Raised (OtherError "KeyError");
     rmtree_outcome := fun _ t => (true, outside t);
     save_stdin_to_sources := fun _ t => (t, Returned "sources/stdin.txt");
     save_file_to_sources := fun path t => (t, Returned (the_str path));
     import_new_links := fun all_links _ t =>
       let new_links :=
         List.filter
           (fun l => negb (existsb (fun e => String.eqb (url e) (url l))
                                   all_links))
           incoming in
       (t, Returned (all_links ++ new_links, new_links));
     archive_link := fun link _ w =>
       let made := {[ "archive/" +:+ timestamp link ]} ∪ folders (tree w) in
       match outside (tree w) with
       | [] =>
           ({| main_index := main_index w;
               tree := {| folders := made; outside := [] |} |},
            Returned tt)
       | Returned _ :: later =>
           ({| main_index := main_index w;
               tree := {| folders := made; outside := later |} |},
            Returned tt)
       | ended :: later =>
           ({| main_index := main_index w;
               tree := {| folders := folders (tree w); outside := later |} |},
            ended)
       end;
     log_removal_started := fun _ yes _ o =>
       (o, if yes then Returned tt else SystemExit 0);
     get_folders := fun _ links _ =>
       Returned (map (fun l => ("archive/" +:+ timestamp l, Some l)) links);
     fix_invalid_folder_locations := fun t => t;
     output_dir_is_empty := fun _ => false;
     json_index_exists := fun _ => true;
     build_folder_structure := fun t => t;
     parse_json_main_index := fun _ => json;
     parse_sql_main_index := fun _ => sql;
     parse_json_links_details := fun _ => details |}.

Definition link_a : Link :=
  mk_link "https://a.example" "100" None ["bookmarks.html"].
Definition link_b : Link :=
  mk_link "https://b.example" "200" None ["bookmarks.html"].
Definition link_c : Link :=
  mk_link "https://c.example" "300" None ["cli"].

(** The record of [link_a]'s URL that another index holds. *)
Definition link_a_again : Link :=
  mk_link "https://a.example" "250" (Some "A") ["cli"].

(** The collaborators of the runs below. *)
Definition site : Collaborators :=
  collab [link_c] [link_a_again] [] [].

(** A collection with two indexed links whose folders exist; [script] says
    how the next runs of the extractors end. *)
Definition two_links (script : list (Result unit))
    : World (Outside (Collaborators := site)) :=
  {| main_index := [link_a; link_b];
     tree := {| folders := {[ "archive/100"; "archive/200" ]};
                outside := script |} |}.

Definition pattern_b : option (list string) := Some ["https://b.example"].
Definition pattern_nowhere : option (list string) :=
  Some ["https://nowhere.example"].

(** [list_links] and [remove] with the pattern of [link_b] and the lower
    bound 150. *)
Definition selection_b : Run * Result (list Link) :=
  list_links (H := site) pattern_b (Some "exact")
             (Some (Finite (150 # 1))) None
             (start (H := site) (two_links [])).

Definition remove_b : Run * Result (list Link) :=
  remove (H := site) None pattern_b "exact" (Some (Finite (150 # 1)))
         None true false (start (H := site) (two_links [])).

(** [remove --delete] with a pattern that matches no link and the lower
    bound 150. *)
Definition remove_nowhere : Run * Result (list Link) :=
  remove (H := site) None pattern_nowhere "exact"
         (Some (Finite (150 # 1))) None
         true true (start (H := site) (two_links [])).

(** [list_links] without patterns and with NaN as the lower bound. *)
Definition selection_nan : Run * Result (list Link) :=
  list_links (H := site) None (Some "exact") (Some NaN) None
             (start (H := site) (two_links [])).

(** [list_links] with a filter type that is not known: with the lower
    bound 250, which leaves no link, and with the lower bound 150, which
    leaves [link_b]. *)
Definition selection_unknown_type (after : Q) : Run * Result (list Link) :=
  list_links (H := site) pattern_b (Some "regexp") (Some (Finite after))
             None (start (H := site) (two_links [])).

(** [remove --delete] of [link_b]. *)
Definition remove_b_delete : Run * Result (list Link) :=
  remove (H := site) None pattern_b "exact" None None
         true true (start (H := site) (two_links [])).

(** [add] of a file that brings [link_c]; the user stops the run during the
    second link. *)
Definition add_interrupted : Run * Result (list Link) :=
  add (H := site) None (Some "urls.txt") true false
      (start (H := site)
             (two_links [Returned tt; Raised KeyboardInterrupt])).

(** The same [add], left to finish. *)
Definition add_finished : Run * Result (list Link) :=
  add (H := site) None (Some "urls.txt") true false
      (start (H := site) (two_links [])).

(** [update] in which the extractor fails on the first link. *)
Definition update_failed : Run * Result (list Link) :=
  update (H := site) None false false false None None (Some "exact")
         (Some "indexed") None None
         (start (H := site) (two_links [Raised (OtherError "OSError")])).

(** [update] with a status that [list_folders] does not know. *)
Definition update_bogus : Run * Result (list Link) :=
  update (H := site) None false false false None None (Some "exact")
         (Some "bogus") None None (start (H := site) (two_links [])).

(** [init] on a collection whose JSON index holds another record of
    [link_a]'s URL. *)
Definition init_again : Run * Result unit :=
  init (H := site) (start (H := site) (two_links [])).

End Demo.

(** ** A collection whose extractors resolve titles *)

Module Titles.

(** The link with the title that its snapshot gives it. *)
Definition resolved (link : Link) : Link :=
  {| url := url link; timestamp := timestamp link;
     title := Some "resolved"; tags := tags link;
     sources := sources link; history := history link |}.

(** The collaborators of [Demo.site], with extractors that, when they
    return, have put the title of their link into the main index. *)
Definition site : Collaborators :=
  {| Outside := @Outside Demo.site;
     ARCHIVE_DIR := @ARCHIVE_DIR Demo.site;
     enforce_types := @enforce_types Demo.site;
     float := @float Demo.site;
     link_matches_filter := @link_matches_filter Demo.site;
     rmtree_outcome := @rmtree_outcome Demo.site;
     save_stdin_to_sources := @save_stdin_to_sources Demo.site;
     save_file_to_sources := @save_file_to_sources Demo.site;
     import_new_links := @import_new_links Demo.site;
     archive_link := fun link overwrite w =>
       match @archive_link Demo.site link overwrite w with
       | (w', Returned _) =>
           ({| main_index :=
                 map (fun l => if String.eqb (url l) (url link)
                               then resolved l else l)
                     (main_index w');
               tree := tree w' |},
            Returned tt)
       | ended => ended
       end;
     log_removal_started := @log_removal_started Demo.site;
     get_folders := @get_folders Demo.site;
     fix_invalid_folder_locations := @fix_invalid_folder_locations Demo.site;
     output_dir_is_empty := @output_dir_is_empty Demo.site;
     json_index_exists := @json_index_exists Demo.site;
     build_folder_structure := @build_folder_structure Demo.site;
     parse_json_main_index := @parse_json_main_index Demo.site;
     parse_sql_main_index := @parse_sql_main_index Demo.site;
     parse_json_links_details := @parse_json_links_details Demo.site |}.

(** [add] of a file that brings [Demo.link_c]; the user stops the run
    during the second link. *)
Definition add_interrupted : Run * Result (list Link) :=
  add (H := site) None (Some "urls.txt") true false
      (start (H := site)
             (Demo.two_links [Returned tt; Raised KeyboardInterrupt])).

(** The same [add], left to finish. *)
Definition add_finished : Run * Result (list Link) :=
  add (H := site) None (Some "urls.txt") true false
      (start (H := site) (Demo.two_links [])).

(** [update] of the indexed links. *)
Definition update_finished : Run * Result (list Link) :=
  update (H := site) None false false false None None (Some "exact")
         (Some "indexed") None None
         (start (H := site) (Demo.two_links [])).

End Titles.

(** * The other commands of [archivebox/main.py] *)

From Stdlib Require Import Sorting.Sorted DecimalString.

(** ** More of Python

    The characters below are ASCII characters: each is one byte in UTF-8,
    and that byte is part of the encoding of no other character. *)

(** [c in s] for a character [c]. *)
Fixpoint contains_char (c : ascii) (s : string) : bool :=
  match s with
  | EmptyString => false
  | String c' rest => Ascii.eqb c' c || contains_char c rest
  end.

(** [s.split(c)] for a character [c]: the pieces between its occurrences;
    always at least one. *)
Fixpoint split_char (c : ascii) (s : string) : list string :=
  match s with
  | EmptyString => [EmptyString]
  | String c' rest =>
      if Ascii.eqb c' c then EmptyString :: split_char c rest
      else match split_char c rest with
           | [] => [String c' EmptyString]
           | piece :: pieces => String c' piece :: pieces
           end
  end.

(** [s.startswith(c)] for a character [c]. *)
Definition startswith_char (c : ascii) (s : string) : bool :=
  match s with
  | EmptyString => false
  | String c' _ => Ascii.eqb c' c
  end.

(** [not s] for a string. *)
Definition str_is_empty (s : string) : bool :=
  match s with
  | EmptyString => true
  | String _ _ => false
  end.

(** [not l] for a list. *)
Definition list_is_empty {A} (l : list A) : bool :=
  match l with
  | [] => true
  | _ :: _ => false
  end.

(** The text of one double quote. *)
Definition dquote : string := String "034"%char EmptyString.

(** The f-string that puts [s] between double quotes. *)
Definition in_quotes (s : string) : string := dquote +:+ s +:+ dquote.

(** [os.path.join(a, b)] on POSIX for a relative [b]. *)
Definition path_join (a b : string) : string :=
  if str_is_empty a then b
  else if String.eqb (String.substring (String.length a - 1) 1 a) "/"
       then a +:+ b
       else a +:+ "/" +:+ b.

(** A [dict] with string keys, keys in insertion order. *)
Fixpoint adict_get {V} (k : string) (d : list (string * V)) : option V :=
  match d with
  | [] => None
  | (k', v) :: rest => if String.eqb k' k then Some v else adict_get k rest
  end.

(** [k in d] *)
Definition adict_has {V} (k : string) (d : list (string * V)) : bool :=
  match adict_get k d with
  | Some _ => true
  | None => false
  end.

(** [d[k] = v] *)
Fixpoint adict_set {V} (k : string) (v : V) (d : list (string * V))
    : list (string * V) :=
  match d with
  | [] => [(k, v)]
  | (k', v') :: rest =>
      if String.eqb k' k then (k', v) :: rest
      else (k', v') :: adict_set k v rest
  end.

(** A step of a command that works on a state [S]. *)
Definition ST (S A : Type) : Type := S -> S * Result A.

#[export] Instance ST_ret {S} : MRet (ST S) := fun A a s => (s, Returned a).
#[export] Instance ST_bind {S} : MBind (ST S) :=
  fun A B k m s =>
    match m s with
    | (s', Returned a) => k a s'
    | (s', SystemExit code) => (s', SystemExit code)
    | (s', Raised e) => (s', Raised e)
    end.

(** A step that ends the way [res] says. *)
Definition st_result {S A} (res : Result A) : ST S A := fun s => (s, res).

(** ** [list_all] *)

(** [sorted(links, key=lambda link: getattr(link, sort))] for an attribute
    other than [url] and [timestamp]: the sorted list, or the exception of
    the attribute access or of a comparison. *)
Class Sorting := {
  sorted_by_attr : string -> list Link -> Result (list Link);
}.

Section ListAll.
Context `{Collaborators} `{Sorting}.

(** The place of [link] in a list sorted by [key]: before the first link
    whose key is not less.  Strings compare as Python compares [str]. *)
Fixpoint insert_by (key : Link -> string) (link : Link) (sorted : list Link)
    : list Link :=
  match sorted with
  | [] => [link]
  | next :: rest =>
      if String.leb (key link) (key next) then link :: next :: rest
      else next :: insert_by key link rest
  end.

(** [sorted(links, key=key)] for a key that is a string: links with equal
    keys keep their order. *)
Definition sorted_by (key : Link -> string) (links : list Link) : list Link :=
  foldr (insert_by key) [] links.

(** [a] may come before [b] in a list sorted by [key]. *)
Definition key_le (key : Link -> string) (a b : Link) : Prop :=
  String.leb (key a) (key b) = true.

(** [sorted(links, key=lambda link: getattr(link, sort))] *)
Definition sorted (sort : string) (links : list Link) : M (list Link) :=
  if String.eqb sort "url" then mret (sorted_by url links)
  else if String.eqb sort "timestamp" then mret (sorted_by timestamp links)
  else of_result (sorted_by_attr sort links).

(** [list_all]; [SystemExit(not folders)] is status 1 when there is no
    folder and status 0 otherwise. *)
Definition list_all
    (filter_patterns_str : option string)
    (filter_patterns : option (list string)) (filter_type : string)
    (status : option string) (after before : option Float)
    (sort csv json : option string) : M (list Link) :=
  check_data_folder ;;
  filter_patterns ←
    (if truthy_list filter_patterns && truthy_str filter_patterns_str
     then exit 2
     else if truthy_str filter_patterns_str
          then mret (Some (split_newline (the_str filter_patterns_str)))
          else mret filter_patterns) ;
  links ← list_links filter_patterns (Some filter_type) after before ;
  links ← (if truthy_str sort then sorted (the_str sort) links
           else mret links) ;
  folders ← list_folders links status ;
  exit (if list_is_empty folders then 1 else 0).

(** The sorting step of [list_all] on the links that the filter gave. *)
Definition sorted_links (sort : option string) (links : list Link)
    : Result (list Link) :=
  if truthy_str sort then
    if String.eqb (the_str sort) "url" then Returned (sorted_by url links)
    else if String.eqb (the_str sort) "timestamp"
         then Returned (sorted_by timestamp links)
         else sorted_by_attr (the_str sort) links
  else Returned links.

(** The patterns that [list_all] goes on with when they do not conflict. *)
Definition list_all_patterns
    (filter_patterns_str : option string)
    (filter_patterns : option (list string)) : option (list string) :=
  if truthy_str filter_patterns_str
  then Some (split_newline (the_str filter_patterns_str))
  else filter_patterns.

(** The links that a run handed to the folder classification. *)
Definition classified (evs : list Event) : list (list Link) :=
  omap (fun e => match e with
                 | EvGetFolders _ links => Some links
                 | _ => None
                 end) evs.

(** The links on which a run called the extractors, in order. *)
Definition archived_links (evs : list Event) : list Link :=
  omap (fun e => match e with
                 | EvArchiveLink link _ _ => Some link
                 | _ => None
                 end) evs.

End ListAll.

(** ** A folder with files and no index *)

Module Strangers.

(** The collaborators of [Demo.site] in an output folder that holds files
    but no JSON index. *)
Definition site : Collaborators :=
  {| Outside := @Outside Demo.site;
     ARCHIVE_DIR := @ARCHIVE_DIR Demo.site;
     enforce_types := @enforce_types Demo.site;
     float := @float Demo.site;
     link_matches_filter := @link_matches_filter Demo.site;
     rmtree_outcome := @rmtree_outcome Demo.site;
     save_stdin_to_sources := @save_stdin_to_sources Demo.site;
     save_file_to_sources := @save_file_to_sources Demo.site;
     import_new_links := @import_new_links Demo.site;
     archive_link := @archive_link Demo.site;
     log_removal_started := @log_removal_started Demo.site;
     get_folders := @get_folders Demo.site;
     fix_invalid_folder_locations := @fix_invalid_folder_locations Demo.site;
     output_dir_is_empty := fun _ => false;
     json_index_exists := fun _ => false;
     build_folder_structure := @build_folder_structure Demo.site;
     parse_json_main_index := @parse_json_main_index Demo.site;
     parse_sql_main_index := @parse_sql_main_index Demo.site;
     parse_json_links_details := @parse_json_links_details Demo.site |}.

Definition files_only : World (Outside (Collaborators := site)) :=
  {| main_index := [];
     tree := {| folders := ∅; outside := [] |} |}.

End Strangers.

(** ** A collection whose indexes agree *)

Module Agreed.

(** The collaborators of a collection whose JSON index, SQL index and
    folders hold the two links of the main index. *)
Definition site : Collaborators :=
  Demo.collab [] [Demo.link_a; Demo.link_b] [Demo.link_b; Demo.link_a]
              [Demo.link_a].

Definition two_links : World (Outside (Collaborators := site)) :=
  {| main_index := [Demo.link_a; Demo.link_b];
     tree := {| folders := {[ "archive/100"; "archive/200" ]};
                outside := [] |} |}.

(** The same collection with an older record of [link_a]'s URL ahead of
    the two links in the main index. *)
Definition duplicated : World (Outside (Collaborators := site)) :=
  {| main_index := [Demo.link_a_again; Demo.link_b; Demo.link_a];
     tree := {| folders := {[ "archive/100"; "archive/200" ]};
                outside := [] |} |}.

End Agreed.

(** ** A collection whose timestamps differ in length *)

Module Listing.

(** No attribute other than [url] and [timestamp] can be sorted by. *)
Definition sorting : Sorting :=
  {| sorted_by_attr := fun _ _ => Raised (OtherError "AttributeError") |}.

Definition link_old : Link :=
  Demo.mk_link "https://old.example" "999" None ["bookmarks.html"].
Definition link_new : Link :=
  Demo.mk_link "https://new.example" "1000" None ["bookmarks.html"].

Definition two_links : World (Outside (Collaborators := Demo.site)) :=
  {| main_index := [link_old; link_new];
     tree := {| folders := {[ "archive/999"; "archive/1000" ]};
                outside := [] |} |}.

(** [list_all] of the indexed folders, sorted by timestamp. *)
Definition by_timestamp : Run * Result (list Link) :=
  list_all (H := Demo.site) (H0 := sorting) None None "exact"
           (Some "indexed") None None (Some "timestamp") None None
           (start (H := Demo.site) two_links).

End Listing.

(** ** [config] and [printable_config] *)

(** What [config] imports from [archivebox.config], and Python's
    [str.upper].  [Value] is the type of the values of the options. *)
Class Configuration := {
  Value : Type;
  (** the state of the config file *)
  ConfigFile : Type;
  (** [isinstance(val, dict) or callable(val)] *)
  is_dict_or_callable : Value -> bool;
  (** the text of [val] in an f-string *)
  format_value : Value -> string;
  (** [a != b] *)
  value_ne : Value -> Value -> bool;
  (** [config.CONFIG], and the keys of [config.USER_CONFIG] *)
  CONFIG : list (string * Value);
  USER_CONFIG : list string;
  (** [config.get_real_name] *)
  get_real_name : string -> string;
  (** [str.upper] *)
  upper : string -> string;
  (** [config.write_config_file(new_config)] and
      [config.load_all_config()] *)
  write_config_file :
    list (string * string) -> ConfigFile ->
    ConfigFile * Result (list (string * Value));
  load_all_config : ConfigFile -> ConfigFile * Result (list (string * Value));
}.

Section Config.
Context `{Configuration}.

(** What a run of [config] leaves: the config file, the texts it has
    printed on the standard output, and the dictionaries with which it has
    called [write_config_file], oldest first. *)
Record ConfigRun := {
  config_file : ConfigFile;
  printed : list string;
  config_writes : list (list (string * string));
}.

(** [print(text)] *)
Definition print (text : string) : ST ConfigRun unit :=
  fun r =>
    ({| config_file := config_file r;
        printed := printed r ++ [text];
        config_writes := config_writes r |}, Returned tt).

Definition call_write_config_file (new_config : list (string * string))
    : ST ConfigRun (list (string * Value)) :=
  fun r =>
    let '(f, res) := write_config_file new_config (config_file r) in
    ({| config_file := f;
        printed := printed r;
        config_writes := config_writes r ++ [new_config] |}, res).

Definition call_load_all_config : ST ConfigRun (list (string * Value)) :=
  fun r =>
    let '(f, res) := load_all_config (config_file r) in
    ({| config_file := f;
        printed := printed r;
        config_writes := config_writes r |}, res).

(** One line [key=val] of [printable_config]. *)
Definition config_line (kv : string * Value) : string :=
  kv.1 +:+ "=" +:+ format_value kv.2.

Definition printable_config (config : list (string * Value))
    (prefix : string) : string :=
  String.concat
    (String "010" prefix)
    (map config_line
         (List.filter (fun kv => negb (is_dict_or_callable kv.2)) config)).

(** [{key: CONFIG[key] for key in config_options if key in CONFIG}] *)
Definition matching_options (config_options : list string)
    : list (string * Value) :=
  fold_left
    (fun d key => match adict_get key CONFIG with
                  | Some val => adict_set key val d
                  | None => d
                  end)
    config_options [].

(** The loop of [config --set] over the lines: the new options and the
    lines that name no option, or the way the loop ends early. *)
Fixpoint config_set_lines
    (lines : list string) (new_config : list (string * string))
    (failed_options : list string)
    : Result (list (string * string) * list string) :=
  match lines with
  | [] => Returned (new_config, failed_options)
  | line :: rest =>
      if startswith_char "#" line || str_is_empty (strip line)
      then config_set_lines rest new_config failed_options
      else if negb (contains_char "=" line) then SystemExit 2
      else
        match split_char "=" line with
        | [raw_key; val] =>
            let raw_key := strip (upper raw_key) in
            let key := get_real_name raw_key in
            if adict_has key CONFIG
            then config_set_lines rest (adict_set key (strip val) new_config)
                                  failed_options
            else config_set_lines rest new_config (failed_options ++ [line])
        | _ => Raised (ValueError "too many values to unpack (expected 2)")
        end
  end.

(** A line of [config --set] that the loop does not skip. *)
Definition effective (line : string) : Prop :=
  startswith_char "#" line = false /\ str_is_empty (strip line) = false.

(** The loop of [config --set] over the options after the write. *)
Fixpoint side_effect_changes
    (after matching_config side_effects : list (string * Value))
    : Result (list (string * Value)) :=
  match after with
  | [] => Returned side_effects
  | (key, val) :: rest =>
      if existsb (String.eqb key) USER_CONFIG then
        match adict_get key CONFIG with
        | None => Raised (OtherError "KeyError")
        | Some old =>
            if value_ne old val && negb (adict_has key matching_config)
            then side_effect_changes rest matching_config
                                     (adict_set key val side_effects)
            else side_effect_changes rest matching_config side_effects
        end
      else side_effect_changes rest matching_config side_effects
  end.

(** [config]; [check_data_folder] is taken to pass, [SystemExit(True)] is
    status 1 and [SystemExit(False)] is status 0.  The name
    [stdin_raw_text] is not defined anywhere in the module. *)
Definition config
    (config_options_str : option string)
    (config_options : option (list string)) (get set reset : bool)
    : ST ConfigRun unit :=
  config_options ←
    (if truthy_list config_options && truthy_str config_options_str
     then st_result (SystemExit 2)
     else if truthy_str config_options_str
          then st_result (Raised (OtherError "NameError"))
          else mret config_options) ;
  let config_options :=
    if truthy_list config_options then the_list config_options else [] in
  let no_args :=
    negb (get || set || reset || negb (list_is_empty config_options)) in
  if get || no_args then
    matching_config ←
      (if negb (list_is_empty config_options) then
         let config_options := map get_real_name config_options in
         let matching_config := matching_options config_options in
         let failed_config :=
           List.filter (fun key => negb (adict_has key CONFIG))
                       config_options in
         if negb (list_is_empty failed_config)
         then st_result (SystemExit 1)
         else mret matching_config
       else mret CONFIG) ;
    print (printable_config matching_config "") ;;
    st_result (SystemExit (if list_is_empty matching_config then 1 else 0))
  else if set then
    parsed ← st_result (config_set_lines config_options [] []) ;
    let new_config := parsed.1 in
    let failed_options := parsed.2 in
    (if negb (list_is_empty new_config) then
       matching_config ← call_write_config_file new_config ;
       after ← call_load_all_config ;
       print (printable_config matching_config "") ;;
       changes ← st_result (side_effect_changes after matching_config []) ;
       if negb (list_is_empty changes)
       then print ("    " +:+ printable_config changes "    ")
       else mret tt
     else mret tt) ;;
    st_result (SystemExit (if list_is_empty failed_options then 0 else 1))
  else if reset then st_result (SystemExit 2)
  else st_result (SystemExit 2).

(** A run of [config] that starts with the config file [f]. *)
Definition config_start (f : ConfigFile) : ConfigRun :=
  {| config_file := f; printed := []; config_writes := [] |}.

End Config.

(** The number of occurrences of the character [c] in [s]. *)
Fixpoint count_char (c : ascii) (s : string) : nat :=
  match s with
  | EmptyString => 0
  | String c' rest =>
      if Ascii.eqb c' c then S (count_char c rest) else count_char c rest
  end.

(** What the loop of [config --set] reads in a line: whether it goes on
    with the line, the name of the option, the value, and whether
    [CONFIG] has the option. *)
Section ConfigLine.
Context `{Configuration}.

Definition is_effective (line : string) : bool :=
  negb (startswith_char "#" line || str_is_empty (strip line)).

Definition option_key (line : string) : string :=
  get_real_name (strip (upper (hd "" (split_char "=" line)))).

Definition option_value (line : string) : string :=
  strip (nth 1 (split_char "=" line) "").

Definition names_option (line : string) : bool :=
  is_effective line && adict_has (option_key line) CONFIG.

Definition names_no_option (line : string) : bool :=
  is_effective line && negb (adict_has (option_key line) CONFIG).

End ConfigLine.

(** ** A small configuration *)

Module Settings.

Inductive value :=
| Text (text : string)
| Table.

(** [str.upper] on ASCII letters. *)
Definition ascii_upper (c : ascii) : ascii :=
  let n := nat_of_ascii c in
  if Nat.leb 97 n && Nat.leb n 122 then ascii_of_nat (n - 32) else c.

Fixpoint upper_ascii (s : string) : string :=
  match s with
  | EmptyString => EmptyString
  | String c rest => String (ascii_upper c) (upper_ascii rest)
  end.

(** A configuration with two plain options and a table; the config file is
    the list of the options written to it. *)
Definition configuration : Configuration :=
  {| Value := value;
     ConfigFile := list (string * string);
     is_dict_or_callable := fun v =>
       match v with Text _ => false | Table => true end;
     format_value := fun v =>
       match v with Text t => t | Table => "{}" end;
     value_ne := fun a b =>
       match a, b with
       | Text s, Text t => negb (String.eqb s t)
       | Table, Table => false
       | _, _ => true
       end;
     CONFIG := [("TIMEOUT", Text "60"); ("ANSI", Table);
                ("ONLY_NEW", Text "False")];
     USER_CONFIG := ["TIMEOUT"; "ONLY_NEW"];
     get_real_name := fun key => key;
     upper := upper_ascii;
     write_config_file := fun new_config f =>
       (f ++ new_config,
        Returned (map (fun kv => (kv.1, Text kv.2)) new_config));
     load_all_config := fun f =>
       (f, Returned
             (fold_left (fun d kv => adict_set kv.1 (Text kv.2) d) f
                        [("TIMEOUT", Text "60"); ("ANSI", Table);
                         ("ONLY_NEW", Text "False")])) |}.

(** [config --set] of a known option and an unknown one. *)
Definition set_two : ConfigRun (H := configuration) * Result unit :=
  config (H := configuration) None
         (Some ["timeout = 90"; "# a comment"; "COLOR=blue"])
         false true false (config_start (H := configuration) []).

(** [config --set] of a value that holds an equals sign. *)
Definition set_url : ConfigRun (H := configuration) * Result unit :=
  config (H := configuration) None
         (Some ["TIMEOUT=60"; "ONLY_NEW=a=b"])
         false true false (config_start (H := configuration) []).

End Settings.

(** ** [schedule] and [dedupe_jobs] *)

(** A job of a crontab, as far as [main.py] reads and sets it:
    [str(job.slices)], [job.command], [job.comment] and whether the job is
    enabled. *)
Record Job := {
  slices : string;
  command : string;
  comment : string;
  enabled : bool;
}.

#[export] Instance Job_eq_dec : EqDecision Job.
Proof. solve_decision. Defined.

Definition CRON_COMMENT : string := "archivebox_schedule".

(** What [schedule] and [dedupe_jobs] take from the [crontab] library, from
    [archivebox.config] and from Python's [set]. *)
Class Cron := {
  (** the order in which a [for] loop goes through a [set] with these
      elements: each element once *)
  set_order : list (string * string) -> list (string * string);
  set_order_perm : forall s, set_order s ≡ₚ s;
  (** [CronSlices.is_valid(text)] *)
  is_valid : string -> bool;
  (** [str(job.slices)] after [getattr(job.every(), name)()], or the
      exception that this raises *)
  every_named : string -> Result string;
  (** [str(job.slices)] after [job.setall(text)]; [main.py] calls [setall]
      with a text that [is_valid] accepts or with the text of the slices of
      a job of the table *)
  setall : string -> string;
  (** [job.run()], after the jobs that have run before *)
  job_run : list Job -> Job -> Result unit;
  (** the loop over [cron.run_scheduler()], for the jobs of the table *)
  run_scheduler : list Job -> Result unit;
  (** [job.frequency_per_year()] *)
  frequency_per_year : Job -> Result Z;
  ARCHIVEBOX_BINARY : string;
  LOGS_DIR : string;
}.

Section Schedule.
Context `{Cron}.

(** [cron.remove(job)]: the table without this job. *)
Fixpoint cron_remove (job : Job) (jobs : list Job) : list Job :=
  match jobs with
  | [] => []
  | job' :: rest =>
      if decide (job' = job) then rest else job' :: cron_remove job rest
  end.

(** The first loop of [dedupe_jobs], over [todo = list(cron)]: the table
    and the set [deduped] after it; the set is kept in the order in which
    its elements were added. *)
Fixpoint dedupe_loop (todo : list Job) (jobs : list Job)
    (deduped : list (string * string))
    : list Job * list (string * string) :=
  match todo with
  | [] => (jobs, deduped)
  | job :: todo =>
      let unique_tuple := (slices job, command job) in
      let deduped :=
        if decide (unique_tuple ∈ deduped) then deduped
        else deduped ++ [unique_tuple] in
      dedupe_loop todo (cron_remove job jobs) deduped
  end.

(** [cron.new(command=command, comment=comment)]: a new job at the end of
    the table, enabled and due every minute. *)
Definition cron_new (command comment : string) (jobs : list Job)
    : list Job :=
  jobs ++ [{| slices := "* * * * *"; command := command;
              comment := comment; enabled := true |}].

(** A change of the job that [cron.new] has just put into the table. *)
Definition on_new_job (f : Job -> Job) (jobs : list Job) : list Job :=
  match reverse jobs with
  | [] => []
  | job :: before => reverse before ++ [f job]
  end.

Definition set_slices (text : string) (job : Job) : Job :=
  {| slices := text; command := command job;
     comment := comment job; enabled := enabled job |}.

(** [job.enable()] *)
Definition enable (job : Job) : Job :=
  {| slices := slices job; command := command job;
     comment := comment job; enabled := true |}.

Definition dedupe_jobs (jobs : list Job) : list Job :=
  let '(jobs, deduped) := dedupe_loop jobs jobs [] in
  fold_left
    (fun jobs '(schedule, command) =>
       let jobs := cron_new command CRON_COMMENT jobs in
       let jobs := on_new_job (set_slices (setall schedule)) jobs in
       on_new_job enable jobs)
    (set_order deduped) jobs.

(** What a run of [schedule] leaves: the table [cron] in memory, the
    tables that [cron.write()] has written to the crontab of the user, and
    the jobs that it has run, oldest first. *)
Record CronRun := {
  cron : list Job;
  cron_writes : list (list Job);
  jobs_run : list Job;
}.

(** A step that changes the table in memory. *)
Definition on_cron (f : list Job -> list Job) : ST CronRun unit :=
  fun r =>
    ({| cron := f (cron r); cron_writes := cron_writes r;
        jobs_run := jobs_run r |}, Returned tt).

(** [list(cron.find_comment(comment))] *)
Definition find_comment (text : string) : ST CronRun (list Job) :=
  fun r =>
    (r, Returned (List.filter (fun job => String.eqb (comment job) text)
                              (cron r))).

(** [cron.remove_all(comment=comment)] *)
Definition remove_all (text : string) (jobs : list Job) : list Job :=
  List.filter (fun job => negb (String.eqb (comment job) text)) jobs.

(** [cron.write()] *)
Definition cron_write : ST CronRun unit :=
  fun r =>
    ({| cron := cron r; cron_writes := cron_writes r ++ [cron r];
        jobs_run := jobs_run r |}, Returned tt).

Definition call_job_run (job : Job) : ST CronRun unit :=
  fun r =>
    ({| cron := cron r; cron_writes := cron_writes r;
        jobs_run := jobs_run r ++ [job] |}, job_run (jobs_run r) job).

Definition call_run_scheduler : ST CronRun unit :=
  fun r => (r, run_scheduler (cron r)).

(** [try: body  except KeyboardInterrupt: handler] *)
Definition st_except_KeyboardInterrupt {S A} (body handler : ST S A)
    : ST S A :=
  fun s =>
    match body s with
    | (s', Raised KeyboardInterrupt) => handler s'
    | ended => ended
    end.

(** [for job in jobs: job.run()] *)
Fixpoint run_each (jobs : list Job) : ST CronRun unit :=
  match jobs with
  | [] => mret tt
  | job :: rest => call_job_run job ;; run_each rest
  end.

(** [sum(j.frequency_per_year() for j in jobs)] *)
Fixpoint total_frequency (jobs : list Job) : Result Z :=
  match jobs with
  | [] => Returned 0%Z
  | job :: rest =>
      match frequency_per_year job with
      | Returned n =>
          match total_frequency rest with
          | Returned total => Returned (n + total)%Z
          | ended => ended
          end
      | SystemExit code => SystemExit code
      | Raised e => Raised e
      end
  end.

(** The [lambda] named [quoted] in [schedule]. *)
Definition quoted (s : string) : string :=
  if negb (str_is_empty s) && contains_char " " s then in_quotes s else s.

(** The command of the job that [schedule --every] adds. *)
Definition schedule_command (import_path : option string)
    (out_dir : string) : string :=
  String.concat " "
    (["cd"; quoted out_dir; "&&"; quoted ARCHIVEBOX_BINARY]
     ++ (if truthy_str import_path
         then ["add"; in_quotes (the_str import_path)]
         else ["update"])
     ++ ["2>&1"; ">"; quoted (path_join LOGS_DIR "archivebox.log")]).

(** The names of a period that [schedule] passes to [job.every()]. *)
Definition period_names : list string :=
  ["minute"; "hour"; "day"; "week"; "month"; "year"].

(** [schedule]; [check_data_folder] and [os.makedirs] are taken to pass,
    and what the command prints is left out.  The run starts with the
    table that [CronTab(user=True)] has read. *)
Definition schedule
    (add show clear foreground run_all quiet : bool)
    (every import_path : option string) (out_dir : string)
    : ST CronRun unit :=
  on_cron dedupe_jobs ;;
  existing_jobs ← find_comment CRON_COMMENT ;
  if foreground || run_all then
    if truthy_str import_path || list_is_empty existing_jobs
    then st_result (SystemExit 1)
    else
      (if run_all
       then st_except_KeyboardInterrupt (run_each existing_jobs)
                                        (st_result (SystemExit 1))
       else mret tt) ;;
      (if foreground
       then st_except_KeyboardInterrupt call_run_scheduler
                                        (st_result (SystemExit 1))
       else mret tt)
  else if show then st_result (SystemExit 0)
  else if clear then
    on_cron (remove_all CRON_COMMENT) ;;
    cron_write ;;
    st_result (SystemExit 0)
  else if truthy_str every then
    let every := the_str every in
    on_cron (cron_new (schedule_command import_path out_dir) CRON_COMMENT) ;;
    (if decide (every ∈ period_names) then
       text ← st_result (every_named every) ;
       on_cron (on_new_job (set_slices text))
     else if is_valid every then
       on_cron (on_new_job (set_slices (setall every)))
     else st_result (SystemExit 1)) ;;
    on_cron dedupe_jobs ;;
    cron_write ;;
    jobs ← (fun r => (r, Returned (cron r))) ;
    total_runs ← st_result (total_frequency jobs) ;
    st_result (SystemExit 0)
  else mret tt.

(** A run of [schedule] that starts with the crontab [jobs] of the user. *)
Definition schedule_start (jobs : list Job) : CronRun :=
  {| cron := jobs; cron_writes := []; jobs_run := [] |}.

(** The job that [dedupe_jobs] makes of a pair of its set. *)
Definition deduped_job (pair : string * string) : Job :=
  {| slices := setall pair.1; command := pair.2;
     comment := CRON_COMMENT; enabled := true |}.

(** The pair that [dedupe_jobs] takes of a job. *)
Definition unique_tuple (job : Job) : string * string :=
  (slices job, command job).

End Schedule.

(** A crontab library for the examples: a [for] loop goes through a set
    from its newest element to its oldest, a text of five fields is a valid
    schedule, and the scheduler runs until it is interrupted. *)
Module Crontab.

Definition library : Cron :=
  {| set_order := @rev (string * string);
     set_order_perm := fun s => Permutation_sym (Permutation_rev s);
     is_valid := fun text => Nat.eqb (count_char " " text) 4;
     every_named := fun name =>
       if String.eqb name "minute" then Returned "* * * * *"
       else if String.eqb name "hour" then Returned "@hourly"
       else if String.eqb name "day" then Returned "@daily"
       else if String.eqb name "month" then Returned "@monthly"
       else if String.eqb name "year" then Returned "@yearly"
       else Raised (OtherError "AttributeError");
     setall := fun text => text;
     job_run := fun _ _ => Returned tt;
     run_scheduler := fun _ => Raised KeyboardInterrupt;
     frequency_per_year := fun _ => Returned 365%Z;
     ARCHIVEBOX_BINARY := "archivebox";
     LOGS_DIR := "/data/logs" |}.

(** A job of the user that is disabled, and a job of [schedule]. *)
Definition backup : Job :=
  {| slices := "0 3 * * *"; command := "backup.sh";
     comment := ""; enabled := false |}.
Definition feed : Job :=
  {| slices := "@daily";
     command := "cd /data && archivebox update 2>&1 > /data/logs/archivebox.log";
     comment := CRON_COMMENT; enabled := true |}.

Definition crontab : list Job := [backup; feed; feed].

End Crontab.

(** The text of the slices that [schedule --every] gives its new job, or
    the way in which the command ends before it has one. *)
Definition new_job_slices `{Cron} (every : string) : Result string :=
  if decide (every ∈ period_names) then every_named every
  else if is_valid every then Returned (setall every)
  else SystemExit 1.

(** ** [print_folder_status] and [print_dependency_version] *)

(** [s.ljust(width)]; the length of a text is the number of its
    characters. *)
Definition ljust (s : string) (width : nat) : string :=
  s +:+ String.concat "" (replicate (width - List.length (chars s)) " ").

(** [f'{n}'] for a natural number. *)
Definition nat_text (n : nat) : string :=
  NilEmpty.string_of_uint (Nat.to_uint n).

(** What the two functions take from the file system and from
    [archivebox.config] and [archivebox.util]. *)
Class Files := {
  ANSI : string -> string;
  os_path_exists : string -> bool;
  os_path_isdir : string -> bool;
  (** [len(os.listdir(path))] *)
  os_listdir : string -> Result nat;
  os_path_getsize : string -> Result Z;
  human_readable_size : Z -> string;
  (** [re.search(pattern, text)]: the text of the first match, which is
      [match[0]], or [None]. *)
  re_search : string -> string -> option string;
}.

Module Status.

(** The dictionary [folder], with the keys that [print_folder_status]
    reads. *)
Record Folder := {
  enabled : bool;
  is_valid : bool;
  path : option string;
}.

(** The dictionary [dependency], with the keys that
    [print_dependency_version] reads. *)
Record Dependency := {
  dependency_enabled : bool;
  dependency_is_valid : bool;
  version : option string;
  dependency_path : option string;
}.

Section Printing.
Context `{Files}.

(** [print] with several arguments: the state is what has been printed, one list of
    arguments for each call, oldest first. *)
Definition print_args (args : list string) : ST (list (list string)) unit :=
  fun printed => (printed ++ [args], Returned tt).

(** [print_folder_status]; it gives the dictionary [folder] as it has left
    it.  A local variable that is not bound is [None]. *)
Definition print_folder_status (name : string) (folder : Folder)
    : ST (list (list string)) Folder :=
  let '(color, symbol, note, num_files) :=
    if enabled folder then
      if is_valid folder then ("green", "√", "valid", None)
      else ("red", "X", "invalid", Some "?")
    else ("lightyellow", "-", "disabled", Some "-") in
  found ←
    (if truthy_str (path folder) then
       let p := the_str (path folder) in
       num_files ←
         (if os_path_exists p then
            if os_path_isdir p then
              n ← st_result (os_listdir p) ;
              mret (Some (nat_text n +:+ " files"))
            else
              size ← st_result (os_path_getsize p) ;
              mret (Some (human_readable_size size))
          else mret (Some "missing")) ;
       mret (num_files,
             if contains_char " " p
             then {| enabled := enabled folder; is_valid := is_valid folder;
                     path := Some (in_quotes p) |}
             else folder)
     else mret (num_files, folder)) ;
  let num_files : option string := found.1 in
  let folder : Folder := found.2 in
  match num_files with
  | None => st_result (Raised (OtherError "UnboundLocalError"))
  | Some num_files =>
      print_args [ANSI color; symbol; ANSI "reset"; ljust name 22;
                  ljust (if truthy_str (path folder)
                         then the_str (path folder) else "") 76;
                  ljust num_files 14; ANSI color; note; ANSI "reset"] ;;
      mret folder
  end.

(** [print_dependency_version]; it gives the dictionary [dependency] as it
    has left it. *)
Definition print_dependency_version (name : string) (dependency : Dependency)
    : ST (list (list string)) Dependency :=
  found ←
    (if dependency_enabled dependency then
       if dependency_is_valid dependency then
         match version dependency with
         | None =>
             st_result
               (Raised (TypeError "expected string or bytes-like object"))
         | Some text =>
             match re_search "[\d\.]+" text with
             | None =>
                 st_result
                   (Raised (TypeError
                              "'NoneType' object is not subscriptable"))
             | Some number => mret ("green", "√", "valid", "v" +:+ number)
             end
         end
       else mret ("red", "X", "invalid", "?")
     else mret ("lightyellow", "-", "disabled", "-")) ;
  let '(color, symbol, note, version) := found in
  match dependency_path dependency with
  | None =>
      st_result
        (Raised (TypeError "argument of type 'NoneType' is not iterable"))
  | Some p =>
      let dependency :=
        if contains_char " " p
        then {| dependency_enabled := dependency_enabled dependency;
                dependency_is_valid := dependency_is_valid dependency;
                version := Status.version dependency;
                dependency_path := Some (in_quotes p) |}
        else dependency in
      print_args [ANSI color; symbol; ANSI "reset"; ljust name 22;
                  ljust (if truthy_str (dependency_path dependency)
                         then the_str (dependency_path dependency) else "")
                        76;
                  ljust version 14; ANSI color; note; ANSI "reset"] ;;
      mret dependency
  end.

End Printing.

(** For the examples: [[\d\.]] on a character of an ASCII text. *)
Definition ascii_digit_or_dot (c : ascii) : bool :=
  let n := nat_of_ascii c in
  Ascii.eqb c "." || (Nat.leb 48 n && Nat.leb n 57).

Fixpoint ascii_number (s : string) : string :=
  match s with
  | EmptyString => EmptyString
  | String c rest =>
      if ascii_digit_or_dot c then String c (ascii_number rest)
      else EmptyString
  end.

(** For the examples: [re.search(r'[\d\.]+', s)] on an ASCII text. *)
Fixpoint first_ascii_number (s : string) : option string :=
  match s with
  | EmptyString => None
  | String c rest =>
      if ascii_digit_or_dot c then Some (String c (ascii_number rest))
      else first_ascii_number rest
  end.

(** A file system for the examples: one directory with three entries; the
    texts of the examples are ASCII texts. *)
Definition files : Files :=
  {| ANSI := fun _ => "";
     os_path_exists := fun p => String.eqb p "/data/my archive";
     os_path_isdir := fun p => String.eqb p "/data/my archive";
     os_listdir := fun _ => Returned 3;
     os_path_getsize := fun _ => Returned 0%Z;
     human_readable_size := fun _ => "0 Bytes";
     re_search := fun _ text => first_ascii_number text |}.

End Status.
(** * Properties *)

(** ** Comparisons *)

Lemma Qltb_true (x y : Q) : Qltb x y = true ↔ (x < y)%Q.
Proof.
  unfold Qltb. rewrite Qlt_alt.
  destruct (x ?= y)%Q; split; congruence.
Qed.

Lemma Qltb_false (x y : Q) : Qltb x y = false ↔ (y <= x)%Q.
Proof.
  split.
  - intros Hf. apply Qnot_lt_le. intros Hlt.
    apply Qltb_true in Hlt. congruence.
  - intros Hle. destruct (Qltb x y) eqn:E; [|reflexivity].
    apply Qltb_true in E. exfalso. exact (Qle_not_lt _ _ Hle E).
Qed.

Lemma float_lt_less (x y : Float) : float_lt x y = true ↔ Float_less x y.
Proof.
  destruct x as [p|n|], y as [q|m|]; cbn; try (split; [discriminate|done]).
  - apply Qltb_true.
  - by destruct m.
  - done.
  - destruct n, m; cbn; split; try done; by intros [? ?].
Qed.

(** Between floats that are numbers, not being less is being at least. *)
Lemma not_less_le (x y : Float) :
  x ≠ NaN → y ≠ NaN → ¬ Float_less x y ↔ Float_le y x.
Proof.
  intros Hx Hy. destruct x as [p|n|], y as [q|m|]; cbn; try done.
  - split; [apply Qnot_lt_le|]. intros Hle Hlt.
    exact (Qle_not_lt _ _ Hle Hlt).
  - destruct m; intuition congruence.
  - destruct n; intuition congruence.
  - destruct n, m; intuition congruence.
Qed.

Lemma truthy_list_false {A} (l : option (list A)) :
  truthy_list l = false ↔ l = None ∨ l = Some [].
Proof.
  destruct l as [[|x xs]|]; simpl; split; intros Hl;
    try reflexivity; try discriminate; auto.
  - destruct Hl as [Hl|Hl]; discriminate.
Qed.

Lemma truthy_list_true {A} (l : option (list A)) :
  truthy_list l = true ↔ ∃ x xs, l = Some (x :: xs).
Proof.
  destruct l as [[|x xs]|]; cbn; split; try discriminate; try done.
  - by intros (? & ? & ?).
  - intros _. by eexists _, _.
  - by intros (? & ? & ?).
Qed.

Section FilterFacts.
Context `{Collaborators}.

(** What the first test of the loop says about the lower bound. *)
Lemma before_lower_bound_spec after link :
  match before_lower_bound after link with
  | Returned false => in_after after link
  | Returned true =>
      ¬ in_after after link ∧ ∃ t, float (timestamp link) = Returned t
  | ended =>
      after ≠ None ∧ same_end (float (timestamp link)) ended
      ∧ ¬ in_after after link
  end.
Proof.
  unfold before_lower_bound, in_after. destruct after as [a|]; [|done].
  destruct (float (timestamp link)) as [t|code|e] eqn:Ef; cbn.
  - destruct (float_lt t a) eqn:Elt.
    + apply float_lt_less in Elt. split; [|by exists t].
      intros (t' & [= <-] & Hnot). by apply Hnot.
    + exists t. split; [done|]. intros Hless.
      apply float_lt_less in Hless. congruence.
  - split; [done|]. split; [done|]. by intros (t & ? & _).
  - split; [done|]. split; [done|]. by intros (t & ? & _).
Qed.

(** What the second test of the loop says about the upper bound. *)
Lemma beyond_upper_bound_spec before link :
  match beyond_upper_bound before link with
  | Returned false => in_before before link
  | Returned true =>
      ¬ in_before before link ∧ ∃ t, float (timestamp link) = Returned t
  | ended =>
      before ≠ None ∧ same_end (float (timestamp link)) ended
      ∧ ¬ in_before before link
  end.
Proof.
  unfold beyond_upper_bound, in_before, float_gt.
  destruct before as [b|]; [|done].
  destruct (float (timestamp link)) as [t|code|e] eqn:Ef; cbn.
  - destruct (float_lt b t) eqn:Elt.
    + apply float_lt_less in Elt. split; [|by exists t].
      intros (t' & [= <-] & Hnot). by apply Hnot.
    + exists t. split; [done|]. intros Hless.
      apply float_lt_less in Hless. congruence.
  - split; [done|]. split; [done|]. by intros (t & ? & _).
  - split; [done|]. split; [done|]. by intros (t & ? & _).
Qed.

(** The iteration does not end at a link on whose timestamp [float]
    returns, unless it is inside the bounds and the patterns are tested. *)
Lemma float_returned_no_stop pats ft after before link t ended :
  float (timestamp link) = Returned t →
  stops_at pats ft after before link ended →
  in_after after link ∧ in_before before link
  ∧ ∃ pattern patterns,
      pats = Some (pattern :: patterns)
      ∧ same_end (link_matches_filter link (pattern :: patterns) ft) ended.
Proof.
  intros Ht [[_ Hend]|Hstop]; [|done]. by rewrite Ht in Hend.
Qed.

(** The loop of [list_links], link by link: the links up to the one at
    which the iteration ends, if there is one, are the ones it has gone
    through, and it has yielded those of them that are selected. *)
Lemma list_links_loop_spec pats ft after before all_links :
  ∃ reached rest,
    all_links = reached ++ rest
    ∧ filtered_by (selected pats ft after before) reached
                  (list_links_loop pats ft after before all_links).1
    ∧ Forall (fun link => ∀ ended,
                ¬ stops_at pats ft after before link ended) reached
    ∧ match rest with
      | [] => (list_links_loop pats ft after before all_links).2
              = Returned tt
      | link :: _ =>
          stops_at pats ft after before link
                   (list_links_loop pats ft after before all_links).2
      end.
Proof.
  induction all_links as [|link rest0 (reached & rest & -> & Hys & Hgo & Hend)].
  { exists [], []. split; [done|]. split; [constructor|]. by split. }
  cbn [list_links_loop].
  set (more := list_links_loop pats ft after before (reached ++ rest)) in *.
  assert (Hskip : ¬ selected pats ft after before link →
                  (∀ ended, ¬ stops_at pats ft after before link ended) →
                  ∃ reached' rest',
                    link :: reached ++ rest = reached' ++ rest'
                    ∧ filtered_by (selected pats ft after before) reached'
                                  more.1
                    ∧ Forall (fun link => ∀ ended,
                                ¬ stops_at pats ft after before link ended)
                             reached'
                    ∧ match rest' with
                      | [] => more.2 = Returned tt
                      | bad :: _ =>
                          stops_at pats ft after before bad more.2
                      end).
  { intros Hno Hnostop. exists (link :: reached), rest.
    split; [done|]. split; [by constructor|]. split; [by constructor|done]. }
  assert (Hstop : ∀ ended : Result unit,
                  stops_at pats ft after before link ended →
                  ∃ reached' rest',
                    link :: reached ++ rest = reached' ++ rest'
                    ∧ filtered_by (selected pats ft after before) reached'
                                  ([], ended).1
                    ∧ Forall (fun link => ∀ ended,
                                ¬ stops_at pats ft after before link ended)
                             reached'
                    ∧ match rest' with
                      | [] => ([] : list Link, ended).2 = Returned tt
                      | bad :: _ =>
                          stops_at pats ft after before bad
                                   ([] : list Link, ended).2
                      end).
  { intros ended Hst. exists [], (link :: reached ++ rest).
    split; [done|]. split; [constructor|]. by split. }
  pose proof (before_lower_bound_spec after link) as Hlow.
  pose proof (beyond_upper_bound_spec before link) as Hup.
  destruct (before_lower_bound after link) as [[|]|code|e] eqn:Elow;
    cbn [and_then ended_as].
  - (* below the lower bound *)
    destruct Hlow as [Hout (t & Ht)]. apply Hskip.
    + by intros (? & _).
    + intros ended Hst.
      by destruct (float_returned_no_stop _ _ _ _ _ _ _ Ht Hst) as (? & _).
  - destruct (beyond_upper_bound before link) as [[|]|code|e] eqn:Eup;
      cbn [and_then ended_as].
    + (* beyond the upper bound *)
      destruct Hup as [Hout (t & Ht)]. apply Hskip.
      * by intros (_ & ? & _).
      * intros ended Hst.
        by destruct (float_returned_no_stop _ _ _ _ _ _ _ Ht Hst)
          as (_ & ? & _).
    + (* inside the bounds *)
      assert (Hfloat : ∀ ended : Result unit,
                (after ≠ None ∨ before ≠ None)
                ∧ same_end (float (timestamp link)) ended → False).
      { intros ended [[Ha|Hb] Hsame].
        - destruct after as [a|]; [|done].
          destruct Hlow as (t & Ht & _). by rewrite Ht in Hsame.
        - destruct before as [b|]; [|done].
          destruct Hup as (t & Ht & _). by rewrite Ht in Hsame. }
      destruct (truthy_list pats) eqn:Etruthy.
      * apply truthy_list_true in Etruthy as (p & ps & ->).
        cbn [the_list].
        destruct (link_matches_filter link (p :: ps) ft)
          as [[|]|code|e] eqn:Ematch; cbn [and_then ended_as].
        -- exists (link :: reached), rest. split; [done|].
           split; [by constructor|]. split; [|done].
           constructor; [|done]. intros ended [Hst|Hst]; [by eapply Hfloat|].
           destruct Hst as (_ & _ & p' & ps' & [= <- <-] & Hsame).
           by rewrite Ematch in Hsame.
        -- apply Hskip.
           ++ intros (_ & _ & Hm). cbn in Hm. congruence.
           ++ intros ended [Hst|Hst]; [by eapply Hfloat|].
              destruct Hst as (_ & _ & p' & ps' & [= <- <-] & Hsame).
              by rewrite Ematch in Hsame.
        -- apply Hstop. right. split; [done|]. split; [done|].
           exists p, ps. split; [done|]. by rewrite Ematch.
        -- apply Hstop. right. split; [done|]. split; [done|].
           exists p, ps. split; [done|]. by rewrite Ematch.
      * apply truthy_list_false in Etruthy.
        exists (link :: reached), rest. split; [done|].
        split; [|split; [|done]].
        -- constructor; [|done]. split; [done|]. split; [done|].
           by destruct Etruthy as [-> | ->].
        -- constructor; [|done]. intros ended [Hst|Hst]; [by eapply Hfloat|].
           destruct Hst as (_ & _ & p' & ps' & Hp & _).
           by destruct Etruthy as [-> | ->].
    + destruct Hup as (Hb & Hsame & _). apply Hstop. left. by split; [right|].
    + destruct Hup as (Hb & Hsame & _). apply Hstop. left. by split; [right|].
  - destruct Hlow as (Ha & Hsame & _). apply Hstop. left. by split; [left|].
  - destruct Hlow as (Ha & Hsame & _). apply Hstop. left. by split; [left|].
Qed.

Lemma list_links_returns pats ft after before r :
  list_links pats (Some ft) after before r =
  ({| world := world r; calls := calls r ++ [EvLoadMainIndex] |},
   list_of (list_links_loop pats (Some ft) after before
                            (main_index (world r)))).
Proof. reflexivity. Qed.

(** What the loop has yielded is selected, and is a link of the index. *)
Lemma filtered_by_elem_of {A} (P : A → Prop) (all chosen : list A) x :
  filtered_by P all chosen → x ∈ chosen ↔ x ∈ all ∧ P x.
Proof.
  induction 1 as [|y all chosen Hy _ IH|y all chosen Hy _ IH].
  - split; [intros Hx|intros [Hx _]]; by apply elem_of_nil in Hx.
  - rewrite !elem_of_cons, IH. split.
    + intros [->|[? ?]]; [split; [by left|done]|split; [by right|done]].
    + intros [[->|?] ?]; [by left|by right].
  - rewrite elem_of_cons, IH. split.
    + intros [? ?]. split; [by right|done].
    + intros [[->|?] ?]; [done|done].
Qed.

End FilterFacts.

(** C4 fails as stated: with NaN as the lower bound, [list_links] yields
    [link_a], whose timestamp 100 does not satisfy [after ≤ timestamp]. *)
Lemma list_links_nan_bound_yields :
  yielded Demo.selection_nan = [Demo.link_a; Demo.link_b]
  ∧ ¬ after_ok (H := Demo.site) (Some NaN) Demo.link_a.
Proof.
  split; [vm_compute; reflexivity|].
  intros (t & _ & Hle). by destruct t.
Qed.

(** C4, amended: [list_links] goes through the index in order; a link is
    skipped when its timestamp is less than [after] or greater than
    [before] as floats compare, so that between numbers the bounds are
    inclusive ([after ≤ timestamp ≤ before]) and a bound that is NaN skips
    nothing; only a link inside the bounds is matched against the patterns,
    and it is yielded when no pattern is given or it matches.  The
    iteration ends before the end of the index at the first link on which
    [float] does not return although a bound is given, or which is inside
    the bounds and on which [link_matches_filter] does not return; the
    links yielded are the selected ones among the links before it, and
    [list] of the generator ends as the iteration did. *)
Theorem list_links_yields_iff `{Collaborators}
    (filter_patterns : option (list string)) (filter_type : string)
    (after before : option Float) (w : World Outside) :
  let generator :=
    list_links_loop filter_patterns (Some filter_type) after before
                    (main_index w) in
  let out :=
    list_links filter_patterns (Some filter_type) after before (start w) in
  (∃ reached rest,
     main_index w = reached ++ rest
     ∧ filtered_by
         (selected filter_patterns (Some filter_type) after before)
         reached generator.1
     ∧ Forall (fun link => ∀ ended,
                 ¬ stops_at filter_patterns (Some filter_type) after before
                            link ended)
              reached
     ∧ match rest with
       | [] => generator.2 = Returned tt
       | link :: _ =>
           stops_at filter_patterns (Some filter_type) after before link
                    generator.2
       end)
  ∧ (∀ link, link ∈ generator.1 →
       link ∈ main_index w
       ∧ selected filter_patterns (Some filter_type) after before link)
  ∧ (∀ a t : Float, a ≠ NaN → t ≠ NaN →
       (¬ Float_less t a ↔ Float_le a t)
       ∧ (¬ Float_less a t ↔ Float_le t a))
  ∧ world out.1 = w
  ∧ calls out.1 = [EvLoadMainIndex]
  ∧ match generator.2 with
    | Returned _ => out.2 = Returned generator.1
    | ended => same_end ended out.2
    end.
Proof.
  intros generator out.
  destruct (list_links_loop_spec filter_patterns (Some filter_type) after
                                 before (main_index w))
    as (reached & rest & Hsplit & Hys & Hgo & Hend).
  fold generator in Hys, Hend.
  split; [by exists reached, rest|]. split.
  { intros link Hlink.
    apply (filtered_by_elem_of _ _ _ link Hys) in Hlink as [Hin Hsel].
    split; [|done]. rewrite Hsplit. apply elem_of_app. by left. }
  split.
  { intros a t Ha Ht. split; by apply not_less_le. }
  subst out. rewrite list_links_returns.
  split; [by destruct w|]. split; [done|].
  subst generator. unfold list_of. cbn [fst snd start world].
  by destruct (list_links_loop _ _ _ _ _) as [ys [[]|code|e]].
Qed.

(** With a filter type that is not known and the lower bound 250, no link
    of the index is inside the bounds: no pattern is tested and the
    iteration comes to its end. *)
Lemma list_links_yields_iff_witness :
  (Demo.selection_unknown_type (250 # 1)).2 = Returned [].
Proof.
  exact (proj2 (proj2 (proj2 (proj2 (proj2
           (list_links_yields_iff (H := Demo.site) Demo.pattern_b "regexp"
              (Some (Finite (250 # 1))) None (Demo.two_links []))))))).
Defined.

(** ** The archiving loop *)

Section RunFacts.
Context `{Collaborators}.

Lemma writes_app evs evs' : writes (evs ++ evs') = writes evs ++ writes evs'.
Proof. apply List.filter_app. Qed.

(** What one pass of the loop over [links] leaves behind: the calls it
    adds are extractor calls, every one of them but possibly the last has
    returned, and the loop ends the way the last one did. *)
Lemma archive_each_spec overwrite links : ∀ r,
  ∃ evs,
    calls (archive_each overwrite links r).1 = calls r ++ evs
    ∧ (∀ e, e ∈ evs →
         ∃ link ended, e = EvArchiveLink link overwrite ended
                       ∧ (ended = Returned tt
                          ∨ ended = (archive_each overwrite links r).2))
    ∧ ((archive_each overwrite links r).2 = Returned tt →
         evs = map (fun l => EvArchiveLink l overwrite (Returned tt)) links).
Proof.
  induction links as [|link rest IH]; intros r.
  - exists []. simpl. rewrite app_nil_r. split; [done|]. split; [|done].
    intros e He. by apply elem_of_nil in He.
  - cbn [archive_each]. unfold mbind, M_bind, bind, call_archive_link.
    destruct (archive_link link overwrite (world r)) as [w1 ended] eqn:Ecall.
    destruct ended as [[]|code|e].
    + specialize (IH {| world := w1;
                        calls := calls r ++
                                 [EvArchiveLink link overwrite (Returned tt)] |}).
      destruct IH as (evs & Hcalls & Hevs & Hret).
      exists (EvArchiveLink link overwrite (Returned tt) :: evs).
      split; [|split].
      * rewrite Hcalls. simpl. by rewrite <- app_assoc.
      * intros e He. apply elem_of_cons in He as [->|He]; [|by apply Hevs].
        eexists _, _. split; [reflexivity|]. by left.
      * intros Hr. simpl. f_equal. by apply Hret.
    + exists [EvArchiveLink link overwrite (SystemExit code)].
      split; [done|]. split; [|done].
      intros e He. apply list_elem_of_singleton in He as ->.
      eexists _, _. split; [reflexivity|]. by right.
    + exists [EvArchiveLink link overwrite (Raised e)].
      split; [done|]. split; [|done].
      intros e' He. apply list_elem_of_singleton in He as ->.
      eexists _, _. split; [reflexivity|]. by right.
Qed.

(** While the extractors leave the main index alone, so does the loop. *)
Lemma archive_each_main_index overwrite links :
  (∀ link ow w, main_index (archive_link link ow w).1 = main_index w) →
  ∀ r, main_index (world (archive_each overwrite links r).1)
       = main_index (world r).
Proof.
  intros Hframe. induction links as [|link rest IH]; intros r; [done|].
  cbn [archive_each]. unfold mbind, M_bind, bind, call_archive_link.
  specialize (Hframe link overwrite (world r)).
  destruct (archive_link link overwrite (world r)) as [w1 ended].
  simpl in Hframe.
  destruct ended as [[]|code|e]; simpl; [|done..].
  by rewrite IH.
Qed.

(** An extractor call that did not return is the call that ended the
    loop. *)
Lemma archive_each_stopped overwrite links r evs link ow ended :
  calls (archive_each overwrite links r).1 = calls r ++ evs →
  EvArchiveLink link ow ended ∈ evs →
  ended ≠ Returned tt →
  (archive_each overwrite links r).2 = ended.
Proof.
  intros Hcalls Hin Hne.
  destruct (archive_each_spec overwrite links r) as (evs' & Hcalls' & Hevs & _).
  rewrite Hcalls in Hcalls'. apply app_inv_head in Hcalls'. subst evs'.
  destruct (Hevs _ Hin) as (l & res & Heq & [Hres|Hres]).
  - inversion Heq; subst. done.
  - inversion Heq; subst. done.
Qed.

(** The collection after the loop is the collection as the extractor
    calls have left it. *)
Lemma archive_each_world overwrite links :
  ∀ r, world (archive_each overwrite links r).1
       = after_archiving overwrite links (world r).
Proof.
  induction links as [|link rest IH]; intros r; [done|].
  cbn [archive_each after_archiving].
  unfold mbind, M_bind, bind, call_archive_link.
  destruct (archive_link link overwrite (world r)) as [w1 [[]|code|e]];
    [|done..].
  by rewrite IH.
Qed.

(** The calls of the loop: one returning call for each link up to the
    first link on which the call does not return, then that call, which
    ends the loop; or one returning call for every link. *)
Lemma archive_each_shape overwrite links :
  ∀ r,
    match (archive_each overwrite links r).2 with
    | Returned _ =>
        calls (archive_each overwrite links r).1
        = calls r
          ++ map (fun l => EvArchiveLink l overwrite (Returned tt)) links
    | ended =>
        ∃ done link rest,
          links = done ++ link :: rest
          ∧ calls (archive_each overwrite links r).1
            = calls r
              ++ map (fun l => EvArchiveLink l overwrite (Returned tt)) done
              ++ [EvArchiveLink link overwrite ended]
    end.
Proof.
  induction links as [|link rest IH]; intros r.
  { cbn. by rewrite app_nil_r. }
  cbn [archive_each]. unfold mbind, M_bind, bind, call_archive_link.
  destruct (archive_link link overwrite (world r)) as [w1 [[]|code|e]];
    cbn [fst snd calls].
  - specialize (IH {| world := w1;
                      calls := calls r ++
                               [EvArchiveLink link overwrite (Returned tt)] |}).
    destruct (archive_each overwrite rest _) as [rb [[]|code|e]];
      cbn [fst snd calls] in IH |- *.
    + rewrite IH. cbn. by rewrite <- app_assoc.
    + destruct IH as (done & bad & rest' & -> & ->).
      exists (link :: done), bad, rest'. split; [done|].
      cbn. by rewrite <- !app_assoc.
    + destruct IH as (done & bad & rest' & -> & ->).
      exists (link :: done), bad, rest'. split; [done|].
      cbn. by rewrite <- !app_assoc.
  - by exists [], link, rest.
  - by exists [], link, rest.
Qed.

End RunFacts.

(** ** The phases of [add], [update], [remove] and [init] *)

Ltac unfold_steps :=
  unfold list_links, list_folders, enforce_str, load_main_index,
    write_main_index, check_data_folder, check_dependencies, on_tree,
    on_outside, of_result, exit, raise, emit, look, except_KeyboardInterrupt;
  unfold mbind, M_bind, bind, mret, M_ret, ret.

Ltac stopped_early :=
  left; cbn; repeat split; first [reflexivity | intros; discriminate].


Section AddFacts.
Context `{Collaborators}.

Lemma add_run import_str import_path update_all index_only w :
  let out := add import_str import_path update_all index_only (start w) in
  (writes (calls out.1) = [] ∧ archive_calls (calls out.1) = []
   ∧ main_index (world out.1) = main_index w
   ∧ ∀ links, out.2 ≠ Returned links)
  ∨ ∃ merged new_links t,
      ((merged, new_links) = (main_index w, [])
       ∨ ∃ path t0, (import_new_links (main_index w) path t0).2
                    = Returned (merged, new_links))
      ∧ if index_only then out = (written merged t, Returned merged)
        else out = after_batch
                     (archive_each false
                        (if update_all then merged else new_links)
                        (written merged t)).
Proof.
  unfold add, after_batch, written, start.
  unfold_steps. cbn.
  destruct (truthy_str import_str && truthy_str import_path);
    [stopped_early|].
  destruct (truthy_str import_str); cbn.
  - destruct (save_stdin_to_sources (the_str import_str) (tree w))
      as [t [path|code|e]]; cbn; [|stopped_early..].
    destruct path as [|c path]; cbn.
    + right. exists (main_index w), [], t. split; [by left|].
      destruct index_only; [done|].
      by destruct (archive_each _ _ _) as [rb [[]|code|[]]].
    + destruct (import_new_links (main_index w) (String c path) t)
        as [t' [[merged new_links]|code|e]] eqn:Eimp; cbn; [|stopped_early..].
      right. exists merged, new_links, t'. split.
      { right. exists (String c path), t. by rewrite Eimp. }
      destruct index_only; [done|].
      by destruct (archive_each _ _ _) as [rb [[]|code|[]]].
  - destruct (save_file_to_sources import_path (tree w))
      as [t [path|code|e]]; cbn; [|stopped_early..].
    destruct path as [|c path]; cbn.
    + right. exists (main_index w), [], t. split; [by left|].
      destruct index_only; [done|].
      by destruct (archive_each _ _ _) as [rb [[]|code|[]]].
    + destruct (import_new_links (main_index w) (String c path) t)
        as [t' [[merged new_links]|code|e]] eqn:Eimp; cbn; [|stopped_early..].
      right. exists merged, new_links, t'. split.
      { right. exists (String c path), t. by rewrite Eimp. }
      destruct index_only; [done|].
      by destruct (archive_each _ _ _) as [rb [[]|code|[]]].
Qed.
End AddFacts.

Section AddSteps.
Context `{Collaborators}.

(** [add] after its first steps: when they give the merged links, it goes
    on from the run of its first write. *)
Lemma add_batch_run import_str import_path update_all index_only w :
  truthy_str import_str && truthy_str import_path = false →
  let out := add import_str import_path update_all index_only (start w) in
  match merged_links import_str import_path w with
  | (t, Returned (merged, new_links)) =>
      if index_only then out = (written merged t, Returned merged)
      else out = after_batch
                   (archive_each false
                      (if update_all then merged else new_links)
                      (written merged t))
  | (t, _) => ∀ links, out.2 ≠ Returned links
  end.
Proof.
  intros Hconflict. unfold add, merged_links, after_batch, written, start.
  unfold_steps. cbn. rewrite Hconflict.
  destruct (truthy_str import_str); cbn.
  - destruct (save_stdin_to_sources (the_str import_str) (tree w))
      as [t [path|code|e]]; cbn; [|done..].
    destruct path as [|c path]; cbn.
    + destruct index_only; [done|].
      by destruct (archive_each _ _ _) as [rb [[]|code|[]]].
    + destruct (import_new_links (main_index w) (String c path) t)
        as [t' [[merged new_links]|code|e]]; cbn; [|done..].
      destruct index_only; [done|].
      by destruct (archive_each _ _ _) as [rb [[]|code|[]]].
  - destruct (save_file_to_sources import_path (tree w))
      as [t [path|code|e]]; cbn; [|done..].
    destruct path as [|c path]; cbn.
    + destruct index_only; [done|].
      by destruct (archive_each _ _ _) as [rb [[]|code|[]]].
    + destruct (import_new_links (main_index w) (String c path) t)
        as [t' [[merged new_links]|code|e]]; cbn; [|done..].
      destruct index_only; [done|].
      by destruct (archive_each _ _ _) as [rb [[]|code|[]]].
Qed.

End AddSteps.

Section UpdateFacts.
Context `{Collaborators}.

Lemma update_run resume only_new index_only overwrite filter_patterns_str
    filter_patterns filter_type status after before w :
  let out := update resume only_new index_only overwrite filter_patterns_str
                    filter_patterns filter_type status after before
                    (start w) in
  let selection :=
    (list_links filter_patterns filter_type after before (start w)).2 in
  ((∀ links, out.2 ≠ Returned links)
   ∧ (out.2 = Raised (ValueError "Status not recognized.")
      ∨ (∃ param, out.2 = Raised (TypeError param))
      ∨ same_end selection out.2)
   ∧ world out.1 = w
   ∧ writes (calls out.1) = [EvWriteMainIndex (main_index w) false]
   ∧ Forall (fun ev => ev = EvLoadMainIndex
                       ∨ ev = EvWriteMainIndex (main_index w) false)
            (calls out.1))
  ∨ ∃ st matching,
      recognized_status status = Some st
      ∧ selection = Returned matching
      ∧ match get_folders st matching (tree w) with
        | Returned matching_folders =>
            let all_links := folder_links matching_folders in
            if index_only
            then out = (filtered w st matching, Returned all_links)
            else out = after_batch
                         (archive_each overwrite
                            (links_after_timestamp
                               (if only_new then [] else all_links) resume)
                            (filtered w st matching))
        | SystemExit code => out = (filtered w st matching, SystemExit code)
        | Raised e => out = (filtered w st matching, Raised e)
        end.
Proof.
  destruct w as [idx t].
  unfold update, after_batch, filtered, start. unfold_steps. cbn.
  assert (Hstop : ∀ ev0 evs,
    Forall (fun ev => ev = EvLoadMainIndex ∨ ev = EvWriteMainIndex idx false)
           evs →
    ev0 = EvLoadMainIndex ∨ ev0 = EvWriteMainIndex idx false →
    Forall (fun ev => ev = EvLoadMainIndex ∨ ev = EvWriteMainIndex idx false)
           (ev0 :: evs)) by (intros; by constructor).
  destruct filter_type as [ft|]; cbn.
  - destruct (list_of (list_links_loop filter_patterns (Some ft) after before
                                       idx)) as [matching|code|e]; cbn.
    + destruct status as [s|]; cbn.
      * destruct (recognized_status (Some s)) as [st|] eqn:Est; cbn.
        -- right. exists st, matching. split; [done|]. split; [done|].
           destruct (get_folders st matching t) as [folders|code|e]; cbn;
             [|done..].
           destruct index_only; [done|].
           by destruct (archive_each _ _ _) as [rb [[]|code|[]]].
        -- left. split; [done|]. split; [by left|]. split; [done|].
           split; [done|]. repeat (apply Hstop; [|auto]). constructor.
      * destruct enforce_types; cbn.
        -- left. split; [done|]. split; [right; left; by eexists|].
           split; [done|]. split; [done|].
           repeat (apply Hstop; [|auto]). constructor.
        -- left. split; [done|]. split; [by left|]. split; [done|].
           split; [done|]. repeat (apply Hstop; [|auto]). constructor.
    + left. split; [done|]. split; [by right; right|]. split; [done|].
      split; [done|]. repeat (apply Hstop; [|auto]). constructor.
    + left. split; [done|]. split; [by right; right|]. split; [done|].
      split; [done|]. repeat (apply Hstop; [|auto]). constructor.
  - destruct enforce_types; cbn.
    + left. split; [done|]. split; [right; left; by eexists|].
      split; [done|]. split; [done|].
      repeat (apply Hstop; [|auto]). constructor.
    + destruct (list_of (list_links_loop filter_patterns None after before
                                         idx)) as [matching|code|e]; cbn.
      * destruct status as [s|]; cbn.
        -- destruct (recognized_status (Some s)) as [st|] eqn:Est; cbn.
           ++ right. exists st, matching. split; [done|]. split; [done|].
              destruct (get_folders st matching t) as [folders|code|e]; cbn;
                [|done..].
              destruct index_only; [done|].
              by destruct (archive_each _ _ _) as [rb [[]|code|[]]].
           ++ left. split; [done|]. split; [by left|]. split; [done|].
              split; [done|]. repeat (apply Hstop; [|auto]). constructor.
        -- left. split; [done|]. split; [by left|]. split; [done|].
           split; [done|]. repeat (apply Hstop; [|auto]). constructor.
      * left. split; [done|]. split; [by right; right|]. split; [done|].
        split; [done|]. repeat (apply Hstop; [|auto]). constructor.
      * left. split; [done|]. split; [by right; right|]. split; [done|].
        split; [done|]. repeat (apply Hstop; [|auto]). constructor.
Qed.

End UpdateFacts.

Section RemoveFacts.
Context `{Collaborators}.

(** The patterns with which [remove] goes on are a list that is not
    empty. *)
Lemma remove_patterns_truthy filter_str filter_patterns pats :
  remove_patterns filter_str filter_patterns = Returned pats →
  ∃ pattern patterns, pats = Some (pattern :: patterns).
Proof.
  unfold remove_patterns. intros Hpats. apply truthy_list_true.
  destruct (truthy_str filter_str) eqn:Es;
    destruct (truthy_list filter_patterns) eqn:El; cbn in Hpats;
    try discriminate Hpats; injection Hpats as <-; [|done].
  assert (∃ piece pieces,
            split_newline (the_str filter_str) = piece :: pieces)
    as (piece & pieces & ->).
  { generalize (the_str filter_str). intros s.
    induction s as [|c s (piece & pieces & IH)]; cbn; [by eexists _, _|].
    destruct (Ascii.eqb c "010"); [by eexists _, _|].
    rewrite IH. by eexists _, _. }
  reflexivity.
Qed.

(** When the filter has gone through the index, the loop of [remove]
    computes [should_remove] for every link of the index, and finds it
    true for the links that the filter has yielded. *)
Lemma list_links_should_remove pattern patterns ft after before all_links
    yields :
  list_of (list_links_loop (Some (pattern :: patterns)) (Some ft) after
                           before all_links) = Returned yields →
  Forall (fun l => ∃ gone,
            should_remove (Some (pattern :: patterns)) ft after before l
            = Returned gone) all_links
  ∧ ∀ l, l ∈ yields →
         should_remove (Some (pattern :: patterns)) ft after before l
         = Returned true.
Proof.
  revert yields. induction all_links as [|link rest IH]; intros yields.
  { cbn. intros [= <-]. split; [constructor|].
    intros l Hl. by apply elem_of_nil in Hl. }
  cbn [list_links_loop]. unfold list_of.
  destruct (list_links_loop (Some (pattern :: patterns)) (Some ft) after
                            before rest) as [ys ended] eqn:Erest.
  unfold list_of in IH. cbn [fst snd] in IH.
  assert (Hhead : ∀ gone tail,
            should_remove (Some (pattern :: patterns)) ft after before link
            = Returned gone →
            Forall (fun l => ∃ gone,
                      should_remove (Some (pattern :: patterns)) ft after
                                    before l = Returned gone) tail →
            Forall (fun l => ∃ gone,
                      should_remove (Some (pattern :: patterns)) ft after
                                    before l = Returned gone) (link :: tail)).
  { intros gone tail Hgone Htail. constructor; [by exists gone|done]. }
  destruct (before_lower_bound after link) as [[|]|code|e] eqn:Elow;
    cbn [and_then ended_as fst snd]; try discriminate.
  { intros Hys. destruct (IH yields Hys) as [Hall Hyes].
    split; [|done]. apply (Hhead true); [|done].
    unfold should_remove. by rewrite Elow. }
  destruct (beyond_upper_bound before link) as [[|]|code|e] eqn:Eup;
    cbn [and_then ended_as fst snd]; try discriminate.
  { intros Hys. destruct (IH yields Hys) as [Hall Hyes].
    split; [|done]. apply (Hhead true); [|done].
    unfold should_remove. by rewrite Elow, Eup. }
  cbn [truthy_list the_list].
  destruct (link_matches_filter link (pattern :: patterns) (Some ft))
    as [[|]|code|e] eqn:Ematch;
    cbn [and_then ended_as fst snd yield]; try discriminate.
  - assert (Hgone : should_remove (Some (pattern :: patterns)) ft after
                                  before link = Returned true).
    { unfold should_remove. cbn [the_list]. by rewrite Elow, Eup, Ematch. }
    destruct ended as [[]|code|e]; cbn; try discriminate.
    intros [= <-]. destruct (IH ys eq_refl) as [Hall Hyes].
    split; [by apply (Hhead true)|].
    intros l Hl. apply elem_of_cons in Hl as [->|Hl]; [done|by apply Hyes].
  - intros Hys. destruct (IH yields Hys) as [Hall Hyes].
    split; [|done]. apply (Hhead false); [|done].
    unfold should_remove. cbn [the_list]. by rewrite Elow, Eup, Ematch.
Qed.

Lemma rmtree_calls_app evs evs' :
  rmtree_calls (evs ++ evs') = rmtree_calls evs ++ rmtree_calls evs'.
Proof. unfold rmtree_calls. apply omap_app. Qed.

Lemma rmtree_calls_map dirs : rmtree_calls (map EvRmtree dirs) = dirs.
Proof.
  induction dirs as [|dir dirs IH]; [done|].
  change (rmtree_calls (map EvRmtree (dir :: dirs)))
    with (dir :: rmtree_calls (map EvRmtree dirs)).
  by rewrite IH.
Qed.

Lemma writes_rmtree dirs : writes (map EvRmtree dirs) = [].
Proof. by induction dirs. Qed.

Lemma after_rmtree_snoc dirs dir (t : Tree Outside) :
  after_rmtree (dirs ++ [dir]) t
  = (let '(gone, o) := rmtree_outcome dir (after_rmtree dirs t) in
     {| folders := if gone then folders (after_rmtree dirs t) ∖ {[dir]}
                   else folders (after_rmtree dirs t);
        outside := o |}).
Proof. unfold after_rmtree. by rewrite fold_left_app. Qed.

(** The loop of [remove] on links for each of which [should_remove] is
    computed. *)
Lemma remove_loop_spec pats ft after before delete all_links :
  Forall (fun l => ∃ gone,
            should_remove pats ft after before l = Returned gone)
         all_links →
  ∀ to_keep r,
    remove_loop pats ft after before delete all_links to_keep r =
    ({| world :=
          {| main_index := main_index (world r);
             tree :=
               after_rmtree
                 (dropped_dirs pats ft after before delete all_links)
                 (tree (world r)) |};
        calls :=
          calls r
          ++ map EvRmtree
                 (dropped_dirs pats ft after before delete all_links) |},
     Returned (to_keep ++ kept pats ft after before all_links)).
Proof.
  induction 1 as [|link rest (gone & Hgone) _ IH]; intros to_keep r.
  - destruct r as [[idx [fs o]] evs].
    unfold dropped_dirs, dropped, kept, mret, M_ret, ret.
    destruct delete; cbn; by rewrite !app_nil_r.
  - cbn [remove_loop]. unfold dropped_dirs, dropped, kept in *.
    cbn [List.filter]. rewrite Hgone.
    unfold mbind, M_bind, bind, of_result. cbn [negb andb].
    destruct gone; cbn [negb andb].
    + destruct delete; cbn [andb].
      * unfold rmtree. cbn [map after_rmtree fold_left].
        destruct (rmtree_outcome (link_dir link) (tree (world r)))
          as [rmd o] eqn:Erm.
        rewrite IH. cbn [world tree main_index calls folders outside].
        rewrite <- app_assoc. reflexivity.
      * rewrite IH. done.
    + rewrite IH. rewrite <- app_assoc. done.
Qed.

Lemma remove_run filter_str filter_patterns ft after before yes delete w :
  let out := remove filter_str filter_patterns ft after before yes delete
                    (start w) in
  match remove_patterns filter_str filter_patterns with
  | Returned pats =>
      match list_of (list_links_loop pats (Some ft) after before
                                     (main_index w)) with
      | Returned [] =>
          out = ({| world := w; calls := [EvLoadMainIndex] |}, SystemExit 1)
      | Returned (l :: ls) =>
          match log_removal_started (l :: ls) yes delete
                                    (outside (tree w)) with
          | (o, Returned _) =>
              out = (removed pats ft after before delete w o,
                     Returned (kept pats ft after before (main_index w)))
          | (o, SystemExit code) => out = (not_removed w o, SystemExit code)
          | (o, Raised e) => out = (not_removed w o, Raised e)
          end
      | SystemExit code =>
          out = ({| world := w; calls := [EvLoadMainIndex] |},
                 SystemExit code)
      | Raised e =>
          out = ({| world := w; calls := [EvLoadMainIndex] |}, Raised e)
      end
  | SystemExit code => code = 2%Z ∧ out = (start w, SystemExit 2)
  | Raised e => False
  end.
Proof.
  destruct (remove_patterns filter_str filter_patterns) as [pats|code|e]
    eqn:Epats.
  - destruct (remove_patterns_truthy _ _ _ Epats) as (p & ps & ->).
    unfold remove, removed, not_removed, start. rewrite Epats.
    unfold_steps. cbn.
    destruct (list_of (list_links_loop (Some (p :: ps)) (Some ft) after
                                       before (main_index w)))
      as [[|l ls]|code|e] eqn:Esel; cbn; try (by destruct w).
    destruct (list_links_should_remove p ps ft after before (main_index w)
                                       (l :: ls) Esel) as [Hall _].
    destruct (log_removal_started (l :: ls) yes delete (outside (tree w)))
      as [o [[]|code|e]]; cbn; [|reflexivity..].
    rewrite (remove_loop_spec _ _ _ _ _ _ Hall). reflexivity.
  - unfold remove, start. rewrite Epats. unfold_steps. cbn.
    unfold remove_patterns in Epats.
    destruct (truthy_str filter_str && truthy_list filter_patterns);
      [by injection Epats as <-|].
    destruct (negb (truthy_str filter_str || truthy_list filter_patterns));
      [by injection Epats as <-|].
    by destruct (truthy_str filter_str).
  - unfold remove_patterns in Epats.
    destruct (truthy_str filter_str && truthy_list filter_patterns);
      [done|].
    destruct (negb (truthy_str filter_str || truthy_list filter_patterns));
      [done|].
    by destruct (truthy_str filter_str).
Qed.

End RemoveFacts.
(** ** Dictionaries *)

Lemma elem_of_map {A B} (f : A → B) (l : list A) (y : B) :
  y ∈ map f l ↔ ∃ x, f x = y ∧ x ∈ l.
Proof.
  rewrite list_elem_of_In, in_map_iff.
  by setoid_rewrite list_elem_of_In.
Qed.

Lemma dict_has_true k (d : Dict) : dict_has k d = true ↔ k ∈ map fst d.
Proof.
  unfold dict_has. rewrite existsb_exists, elem_of_map.
  setoid_rewrite list_elem_of_In. setoid_rewrite String.eqb_eq.
  split; intros (kv & ? & ?); exists kv; done.
Qed.

Lemma dict_has_false k (d : Dict) : dict_has k d = false ↔ k ∉ map fst d.
Proof.
  rewrite <- dict_has_true. by destruct (dict_has k d).
Qed.

Lemma dict_set_fresh k v (d : Dict) :
  k ∉ map fst d → dict_set k v d = d ++ [(k, v)].
Proof.
  induction d as [|[k' v'] d IH]; intros Hk; [done|].
  cbn in *. apply not_elem_of_cons in Hk as [Hne Hk].
  destruct (String.eqb k' k) eqn:E.
  - apply String.eqb_eq in E. congruence.
  - by rewrite IH.
Qed.

Lemma dict_set_keys k v (d : Dict) k' :
  k' ∈ map fst (dict_set k v d) ↔ k' = k ∨ k' ∈ map fst d.
Proof.
  induction d as [|[k0 v0] d IH]; cbn.
  - rewrite list_elem_of_singleton. split; [by left|].
    intros [Hk|Hk]; [done|by apply elem_of_nil in Hk].
  - destruct (String.eqb k0 k) eqn:E; cbn.
    + apply String.eqb_eq in E. subst. rewrite elem_of_cons. tauto.
    + rewrite !elem_of_cons, IH. tauto.
Qed.

Lemma dict_set_NoDup k v (d : Dict) :
  NoDup (map fst d) → NoDup (map fst (dict_set k v d)).
Proof.
  induction d as [|[k0 v0] d IH]; cbn; intros Hnd.
  - apply NoDup_singleton.
  - apply NoDup_cons in Hnd as [Hk0 Hnd].
    destruct (String.eqb k0 k) eqn:E; cbn.
    + by apply NoDup_cons.
    + apply NoDup_cons. split; [|by apply IH].
      rewrite dict_set_keys. intros [->|Hin]; [|done].
      by rewrite String.eqb_refl in E.
Qed.

Lemma dict_set_elem k v (d : Dict) kv :
  kv ∈ dict_set k v d → kv = (k, v) ∨ kv ∈ d.
Proof.
  induction d as [|[k0 v0] d IH]; cbn.
  - rewrite list_elem_of_singleton. by left.
  - destruct (String.eqb k0 k) eqn:E.
    + apply String.eqb_eq in E. subst.
      rewrite !elem_of_cons. intros [->|Hin]; [by left|right; by right].
    + rewrite !elem_of_cons. intros [->|Hin]; [right; by left|].
      destruct (IH Hin); [by left|right; by right].
Qed.

(** The dictionary that a comprehension over [links] builds: its keys are
    distinct, every entry is a link of [links] under its own URL, none of
    its keys is in [seen], and every URL of [links] that is not in [seen]
    is a key. *)
Lemma dict_of_links_spec (links : list Link) (seen : Dict) :
  NoDup (map fst (dict_of_links links seen))
  ∧ (∀ kv, kv ∈ dict_of_links links seen →
       kv.1 = url kv.2 ∧ kv.2 ∈ links ∧ kv.1 ∉ map fst seen)
  ∧ (∀ l, l ∈ links → url l ∉ map fst seen →
       url l ∈ map fst (dict_of_links links seen)).
Proof.
  unfold dict_of_links.
  set (step := fun (d : Dict) (link : Link) =>
                 if dict_has (url link) seen then d
                 else dict_set (url link) link d).
  assert (Hgen : ∀ (todo : list Link) (acc : Dict),
    NoDup (map fst acc) →
    NoDup (map fst (fold_left step todo acc))
    ∧ (∀ kv, kv ∈ fold_left step todo acc →
         kv ∈ acc
         ∨ (kv.1 = url kv.2 ∧ kv.2 ∈ todo ∧ kv.1 ∉ map fst seen))
    ∧ (∀ k, (k ∈ map fst acc
             ∨ ∃ l, l ∈ todo ∧ url l = k ∧ k ∉ map fst seen) →
            k ∈ map fst (fold_left step todo acc))).
  { induction todo as [|link todo IH]; intros acc Hnd; cbn.
    - split; [done|]. split; [by left|].
      intros k [Hk|(l & Hl & _)]; [done|]. by apply elem_of_nil in Hl.
    - assert (Hnd' : NoDup (map fst (step acc link))).
      { unfold step. destruct (dict_has (url link) seen); [done|].
        by apply dict_set_NoDup. }
      destruct (IH (step acc link) Hnd') as (IH1 & IH2 & IH3).
      split; [done|]. split.
      + intros kv Hkv. destruct (IH2 kv Hkv) as [Hin|(Hu & Hin & Hs)].
        * unfold step in Hin.
          destruct (dict_has (url link) seen) eqn:Eseen; [by left|].
          apply dict_set_elem in Hin as [->|Hin]; [|by left].
          right. cbn. split; [done|]. split; [by left|].
          by apply dict_has_false.
        * right. split; [done|]. split; [by right|done].
      + intros k Hk. apply IH3.
        destruct Hk as [Hk|(l & Hl & Hu & Hs)].
        * left. unfold step. destruct (dict_has (url link) seen); [done|].
          apply dict_set_keys. by right.
        * apply elem_of_cons in Hl as [->|Hl].
          -- left. unfold step. subst k.
             apply dict_has_false in Hs. rewrite Hs.
             apply dict_set_keys. by left.
          -- right. by exists l. }
  destruct (Hgen links [] (NoDup_nil_2)) as (H1 & H2 & H3).
  split; [done|]. split.
  - intros kv Hkv. destruct (H2 kv Hkv) as [Hin|Hok]; [|done].
    by apply elem_of_nil in Hin.
  - intros l Hl Hs. apply H3. right. by exists l.
Qed.

(** Updating with entries under new, distinct keys puts them at the end. *)
Lemma dict_update_fresh (more d : Dict) :
  NoDup (map fst more) →
  (∀ k, k ∈ map fst more → k ∉ map fst d) →
  dict_update d more = d ++ more.
Proof.
  unfold dict_update. revert d.
  induction more as [|[k v] more IH]; intros d Hnd Hfresh; cbn.
  - by rewrite app_nil_r.
  - cbn in Hnd. apply NoDup_cons in Hnd as [Hk Hnd].
    rewrite dict_set_fresh by (apply Hfresh; cbn; by left).
    rewrite IH; [by rewrite <- app_assoc|done|].
    intros k' Hk'. rewrite map_app, elem_of_app. cbn.
    rewrite list_elem_of_singleton.
    intros [Hin| ->]; [|done].
    apply (Hfresh k'); [cbn; by right|done].
Qed.
Section InitFacts.
Context `{Collaborators}.

Lemma init_run w :
  init (start w) =
  if init_proceeds w
  then
    let links := dict_values (collected w) in
    let reads := (if json_index_exists w then [EvLoadMainIndex] else [])
                 ++ [EvGetFolders invalid links] in
    match get_folders invalid links (tree (seen_by_init w)) with
    | Returned _ =>
        ({| world := {| main_index := links; tree := tree (seen_by_init w) |};
            calls := reads ++ [EvWriteMainIndex links false] |},
         Returned tt)
    | SystemExit code =>
        ({| world := seen_by_init w; calls := reads |}, SystemExit code)
    | Raised e => ({| world := seen_by_init w; calls := reads |}, Raised e)
    end
  else (start w, SystemExit 1).
Proof.
  unfold init, init_proceeds, collected, orphaned_data_dir, collected_sql,
    orphaned_sql, collected_json, orphaned_json, collected_main,
    existing_links, seen_by_init, start.
  unfold_steps. cbn.
  destruct (output_dir_is_empty w); destruct (json_index_exists w); cbn;
    try reflexivity;
    by destruct (get_folders _ _ _) as [folders|code|e].
Qed.

(** The index that an [init] that returns has written. *)
Lemma init_returned_index w :
  (init (start w)).2 = Returned tt →
  main_index (world (init (start w)).1) = dict_values (collected w).
Proof.
  rewrite init_run. destruct (init_proceeds w); [|done]. cbn zeta.
  by destruct (get_folders _ _ _) as [folders|code|e].
Qed.

End InitFacts.
(** * The claims *)

(** C1, on the code: with the pattern of [link_b] and the lower bound 150,
    the filter engine selects [link_b] alone, yet [remove] rewrites the
    index without [link_a] too; [link_a] lies below the bound, is not
    selected, and is removed. *)
Theorem remove_drops_link_outside_bounds :
  yielded Demo.selection_b = [Demo.link_b]
  ∧ (Demo.link_a ∉ yielded Demo.selection_b)
  ∧ (Demo.remove_b).2 = Returned []
  ∧ main_index (world (Demo.remove_b).1) = [].
Proof.
  assert (Hsel : yielded Demo.selection_b = [Demo.link_b])
    by (vm_compute; reflexivity).
  split; [exact Hsel|]. split.
  - rewrite Hsel. intros Hin. apply list_elem_of_singleton in Hin.
    discriminate Hin.
  - split; vm_compute; reflexivity.
Qed.

(** A run that has only read and written the index has called neither an
    extractor nor [rmtree]. *)
Lemma reads_and_writes_only (links : list Link) (evs : list Event) :
  Forall (fun ev => ev = EvLoadMainIndex ∨ ev = EvWriteMainIndex links false)
         evs →
  archive_calls evs = [] ∧ rmtree_calls evs = []
  ∧ ∀ written, EvWriteMainIndex written true ∉ evs.
Proof.
  induction 1 as [|ev evs [->| ->] _ (IHa & IHr & IHw)].
  - split; [done|]. split; [done|]. intros written Hin.
    by apply elem_of_nil in Hin.
  - split; [done|]. split; [done|]. intros written Hin.
    apply elem_of_cons in Hin as [Hin|Hin]; [done|by eapply IHw].
  - split; [done|]. split; [done|]. intros written Hin.
    apply elem_of_cons in Hin as [Hin|Hin]; [done|by eapply IHw].
Qed.

Lemma add_interrupted_calls :
  calls (Demo.add_interrupted).1
  = [EvLoadMainIndex;
     EvWriteMainIndex [Demo.link_a; Demo.link_b; Demo.link_c] false;
     EvArchiveLink Demo.link_a false (Returned tt);
     EvArchiveLink Demo.link_b false (Raised KeyboardInterrupt)].
Proof. vm_compute. reflexivity. Qed.

Lemma add_interrupted_is_interrupted :
  interrupted (calls (Demo.add_interrupted).1).
Proof.
  exists Demo.link_b, false. rewrite add_interrupted_calls.
  do 3 apply list_elem_of_further. apply list_elem_of_here.
Qed.

Lemma update_failed_has_failed :
  failed_with (OtherError "OSError") (calls (Demo.update_failed).1).
Proof.
  exists Demo.link_a, false.
  assert (Hcalls : calls (Demo.update_failed).1
    = [EvLoadMainIndex;
       EvWriteMainIndex [Demo.link_a; Demo.link_b] false;
       EvLoadMainIndex;
       EvGetFolders indexed [Demo.link_a; Demo.link_b];
       EvArchiveLink Demo.link_a false (Raised (OtherError "OSError"))])
    by (vm_compute; reflexivity).
  rewrite Hcalls. do 4 apply list_elem_of_further. apply list_elem_of_here.
Qed.

Lemma add_interrupted_archiving :
  archiving_run (H := Demo.site) Demo.add_interrupted.
Proof.
  left.
  by exists None, (Some "urls.txt"), true, false,
    (Demo.two_links [Returned tt; Raised KeyboardInterrupt]).
Qed.

Lemma update_failed_archiving :
  archiving_run (H := Demo.site) Demo.update_failed.
Proof.
  right.
  by exists None, false, false, false, None, None, (Some "exact"),
    (Some "indexed"), None, None,
    (Demo.two_links [Raised (OtherError "OSError")]).
Qed.

(** C2 fails as stated: an [add] that the user stops during the second
    link leaves with status 0. *)
Lemma interrupted_add_exits_zero :
  interrupted (calls (Demo.add_interrupted).1)
  ∧ exit_status (Demo.add_interrupted).2 = Some 0%Z.
Proof.
  split; [exact add_interrupted_is_interrupted|vm_compute; reflexivity].
Qed.

Section Archiving.
Context `{Collaborators}.

(** What a run of [add] or [update] that reached the loop looks like. *)
Lemma archiving_run_batch out :
  archiving_run out →
  (archive_calls (calls out.1) = [])
  ∨ ∃ overwrite links r0,
      archive_calls (calls r0) = []
      ∧ (∃ links0, writes (calls r0) = [EvWriteMainIndex links0 false]
                   ∧ main_index (world r0) = links0)
      ∧ out = after_batch (archive_each overwrite links r0).
Proof.
  intros [(import_str & import_path & update_all & index_only & w & ->)
         |(resume & only_new & index_only & overwrite & fps & pats & ft
           & status & after & before & w & ->)].
  - destruct (add_run import_str import_path update_all index_only w)
      as [(Hw & Ha & _)|(merged & new_links & t & _ & Hout)]; [by left|].
    destruct index_only.
    + left. by rewrite Hout.
    + right. exists false, (if update_all then merged else new_links),
        (written merged t).
      split; [done|]. split; [|done]. by exists merged.
  - destruct (update_run resume only_new index_only overwrite fps pats ft
                         status after before w)
      as [(_ & _ & _ & _ & Hall)|(st & matching & _ & _ & Hout)].
    + left. by apply (reads_and_writes_only _ _ Hall).
    + destruct (get_folders st matching (tree w)) as [folders|code|e];
        [|left; by rewrite Hout..].
      cbn in Hout. destruct index_only.
      * left. by rewrite Hout.
      * right. eexists _, _, (filtered w st matching).
        split; [done|]. split; [|exact Hout]. by exists (main_index w).
Qed.

Lemma archive_calls_batch overwrite links r0 :
  archive_calls (calls r0) = [] →
  ∀ ev, is_archive_call ev = true →
        ev ∈ calls (after_batch (archive_each overwrite links r0)).1 →
        ∃ evs, calls (archive_each overwrite links r0).1 = calls r0 ++ evs
               ∧ ev ∈ evs.
Proof.
  intros Hnone ev Hev Hin.
  destruct (archive_each_spec overwrite links r0) as (evs & Hcalls & _).
  exists evs. split; [done|].
  assert (Hev0 : ev ∉ calls r0).
  { intros Hin0. assert (Hin1 : ev ∈ archive_calls (calls r0)).
    { unfold archive_calls. rewrite list_elem_of_In, filter_In.
      by rewrite <- list_elem_of_In. }
    rewrite Hnone in Hin1. by apply elem_of_nil in Hin1. }
  unfold after_batch in Hin.
  destruct (archive_each overwrite links r0) as [rb [[]|code|[]]];
    cbn in Hin, Hcalls; rewrite Hcalls in Hin;
    rewrite ?elem_of_app, ?elem_of_cons, ?elem_of_nil in Hin;
    repeat match goal with Hor : _ ∨ _ |- _ => destruct Hor end;
    try done; subst ev; discriminate Hev.
Qed.

(** How a run of [add] or [update] ends when an extractor call did not
    return. *)
Lemma archiving_run_stopped out link ow ended :
  archiving_run out →
  EvArchiveLink link ow ended ∈ calls out.1 →
  ended ≠ Returned tt →
  ∃ overwrite links r0,
    (∃ links0, writes (calls r0) = [EvWriteMainIndex links0 false]
               ∧ main_index (world r0) = links0)
    ∧ archive_calls (calls r0) = []
    ∧ out = after_batch (archive_each overwrite links r0)
    ∧ (archive_each overwrite links r0).2 = ended.
Proof.
  intros Hrun Hin Hne.
  destruct (archiving_run_batch out Hrun)
    as [Hnone|(overwrite & links & r0 & Hnone & Hw & ->)].
  - exfalso.
    assert (Hin1 : EvArchiveLink link ow ended ∈ archive_calls (calls out.1)).
    { unfold archive_calls. rewrite list_elem_of_In, filter_In.
      by rewrite <- list_elem_of_In. }
    rewrite Hnone in Hin1. by apply elem_of_nil in Hin1.
  - exists overwrite, links, r0. split; [done|]. split; [done|].
    split; [done|].
    destruct (archive_calls_batch overwrite links r0 Hnone
                (EvArchiveLink link ow ended) eq_refl Hin)
      as (evs & Hcalls & Hev).
    by eapply archive_each_stopped.
Qed.

End Archiving.

(** C2, amended: a run of [add] or [update] that the user stops during the
    archiving of a link ends by [SystemExit(0)], so the process leaves with
    status 0; a run in which the archiving of a link fails with another
    exception ends by that exception, with status 1. *)
Theorem interrupted_run_exits_with_status_0 `{Collaborators}
    (out : Run * Result (list Link)) :
  archiving_run out →
  (interrupted (calls out.1) →
     out.2 = SystemExit 0 ∧ exit_status out.2 = Some 0%Z)
  ∧ (∀ e, e ≠ KeyboardInterrupt → failed_with e (calls out.1) →
       out.2 = Raised e ∧ exit_status out.2 = Some 1%Z).
Proof.
  intros Hrun. split.
  - intros (link & ow & Hin).
    destruct (archiving_run_stopped out link ow _ Hrun Hin)
      as (overwrite & links & r0 & _ & _ & -> & Hend); [done|].
    unfold after_batch.
    destruct (archive_each overwrite links r0) as [rb res].
    cbn in Hend. subst res. done.
  - intros e Hne (link & ow & Hin).
    destruct (archiving_run_stopped out link ow _ Hrun Hin)
      as (overwrite & links & r0 & _ & _ & -> & Hend); [done|].
    unfold after_batch.
    destruct (archive_each overwrite links r0) as [rb res].
    cbn in Hend. subst res. by destruct e.
Qed.

Lemma interrupted_run_exits_with_status_0_witness :
  exit_status (Demo.add_interrupted).2 = Some 0%Z
  ∧ exit_status (Demo.update_failed).2 = Some 1%Z.
Proof.
  split.
  - exact (proj2 (proj1 (interrupted_run_exits_with_status_0
                           (H := Demo.site) Demo.add_interrupted
                           add_interrupted_archiving)
                        add_interrupted_is_interrupted)).
  - refine (proj2 (proj2 (interrupted_run_exits_with_status_0
                            (H := Demo.site) Demo.update_failed
                            update_failed_archiving)
                         (OtherError "OSError") _
                         update_failed_has_failed)).
    discriminate.
Defined.

(** C3 fails as stated: [update] with an unknown status has called
    [write_main_index] once by the time [list_folders] raises. *)
Lemma update_unknown_status_writes_first :
  (Demo.update_bogus).2 = Raised (ValueError "Status not recognized.")
  ∧ writes (calls (Demo.update_bogus).1)
    = [EvWriteMainIndex [Demo.link_a; Demo.link_b] false].
Proof. split; vm_compute; reflexivity. Qed.

(** C3, amended: [update] with a status that is none of the ten folder
    states (or with none) does not return: it ends by the [ValueError] of
    [list_folders], by a [TypeError] of the argument check, or, when the
    filter step does not return because [float] or [link_matches_filter]
    does not, in the way that step ended; so when the filter step returns
    it ends by one of the two exceptions.  By then it has called
    [write_main_index] exactly once, with the links it had just loaded, so
    the collection is as before; it has made no other call than reads and
    that write, and no extractor has run. *)
Theorem update_unknown_status_aborts `{Collaborators}
    (resume : option Float) (only_new index_only overwrite : bool)
    (filter_patterns_str : option string)
    (filter_patterns : option (list string)) (filter_type : option string)
    (status : option string) (after before : option Float)
    (w : World Outside) :
  recognized_status status = None →
  let out := update resume only_new index_only overwrite filter_patterns_str
                    filter_patterns filter_type status after before
                    (start w) in
  let selection :=
    (list_links filter_patterns filter_type after before (start w)).2 in
  (∀ links, out.2 ≠ Returned links)
  ∧ (out.2 = Raised (ValueError "Status not recognized.")
     ∨ (∃ param, out.2 = Raised (TypeError param))
     ∨ same_end selection out.2)
  ∧ (∀ matching, selection = Returned matching →
       ∃ e, out.2 = Raised e
            ∧ (e = ValueError "Status not recognized."
               ∨ ∃ param, e = TypeError param))
  ∧ world out.1 = w
  ∧ writes (calls out.1) = [EvWriteMainIndex (main_index w) false]
  ∧ archive_calls (calls out.1) = []
  ∧ Forall (fun ev => ev = EvLoadMainIndex
                      ∨ ev = EvWriteMainIndex (main_index w) false)
           (calls out.1).
Proof.
  intros Hstatus out selection.
  destruct (update_run resume only_new index_only overwrite
                       filter_patterns_str filter_patterns filter_type
                       status after before w)
    as [(Hno & Hkind & Hw & Hwrites & Hall)|(st & matching & Hst & _)];
    [|congruence].
  fold out in Hno, Hkind, Hw, Hwrites, Hall. fold selection in Hkind.
  split; [done|]. split; [done|]. split.
  { intros matching Hsel.
    destruct Hkind as [Hout|[(param & Hout)|Hsame]].
    - eexists. split; [exact Hout|by left].
    - eexists. split; [exact Hout|right; by exists param].
    - by rewrite Hsel in Hsame. }
  split; [done|]. split; [done|]. split; [|done].
  by apply (reads_and_writes_only _ _ Hall).
Qed.

Lemma update_unknown_status_aborts_witness :
  ∃ e, (Demo.update_bogus).2 = Raised e
       ∧ (e = ValueError "Status not recognized."
          ∨ ∃ param, e = TypeError param).
Proof.
  exact (proj1 (proj2 (proj2 (update_unknown_status_aborts (H := Demo.site)
                  None false false false None None (Some "exact")
                  (Some "bogus") None None (Demo.two_links []) eq_refl)))
               [Demo.link_a; Demo.link_b] eq_refl).
Defined.

Section Batch.
Context `{Collaborators}.

Lemma writes_archive_events overwrite (links : list Link) :
  writes (map (fun l => EvArchiveLink l overwrite (Returned tt)) links) = [].
Proof. by induction links. Qed.

Lemma writes_extractor_calls overwrite (res : Result unit) evs :
  (∀ e, e ∈ evs →
     ∃ link ended, e = EvArchiveLink link overwrite ended
                   ∧ (ended = Returned tt ∨ ended = res)) →
  writes evs = [].
Proof.
  induction evs as [|ev evs IH]; intros Hevs; [done|].
  destruct (Hevs ev) as (link & ended & -> & _); [by left|].
  cbn. apply IH. intros e He. apply Hevs. by right.
Qed.

End Batch.

Lemma titles_add_interrupted_calls :
  calls (Titles.add_interrupted).1
  = [EvLoadMainIndex;
     EvWriteMainIndex [Demo.link_a; Demo.link_b; Demo.link_c] false;
     EvArchiveLink Demo.link_a false (Returned tt);
     EvArchiveLink Demo.link_b false (Raised KeyboardInterrupt)].
Proof. vm_compute. reflexivity. Qed.

(** C5 fails as stated: in an [add] that the user stops during the second
    link, the extractors of the first link have put its title into the
    index, which is no longer as the write before the batch left it. *)
Lemma interrupted_add_changes_index :
  interrupted (calls (Titles.add_interrupted).1)
  ∧ writes (calls (Titles.add_interrupted).1)
    = [EvWriteMainIndex [Demo.link_a; Demo.link_b; Demo.link_c] false]
  ∧ main_index (world (Titles.add_interrupted).1)
    = [Titles.resolved Demo.link_a; Demo.link_b; Demo.link_c]
  ∧ main_index (world (Titles.add_interrupted).1)
    ≠ [Demo.link_a; Demo.link_b; Demo.link_c].
Proof.
  split.
  { exists Demo.link_b, false. rewrite titles_add_interrupted_calls.
    do 3 apply list_elem_of_further. apply list_elem_of_here. }
  split; [by rewrite titles_add_interrupted_calls|].
  assert (Hindex : main_index (world (Titles.add_interrupted).1)
                   = [Titles.resolved Demo.link_a; Demo.link_b; Demo.link_c])
    by (vm_compute; reflexivity).
  split; [exact Hindex|]. rewrite Hindex. discriminate.
Qed.

(** C5, amended: a run of [add] or [update] that the user stops during the
    archiving of a link has called [write_main_index] exactly once, before
    the batch and without [finished=True], and ends by [SystemExit(0)]
    without the write of Step 4.  The collection is the one that this
    write left, changed by the extractor calls of the batch and by nothing
    else; so the index still holds the links of that one write when the
    extractors do not write the main index, and not otherwise. *)
Theorem interrupted_run_keeps_first_write `{Collaborators}
    (out : Run * Result (list Link)) :
  archiving_run out →
  interrupted (calls out.1) →
  ∃ links w0 overwrite batch,
    writes (calls out.1) = [EvWriteMainIndex links false]
    ∧ (∀ written, EvWriteMainIndex written true ∉ calls out.1)
    ∧ out.2 = SystemExit 0
    ∧ main_index w0 = links
    ∧ world out.1 = after_archiving overwrite batch w0
    ∧ (extractors_keep_index → main_index (world out.1) = links).
Proof.
  intros Hrun (link & ow & Hin).
  destruct (archiving_run_stopped out link ow _ Hrun Hin)
    as (overwrite & links & r0 & (links0 & Hw0 & Hidx0) & _ & -> & Hend);
    [done|].
  exists links0, (world r0), overwrite, links.
  destruct (archive_each_spec overwrite links r0) as (evs & Hcalls & Hevs & _).
  pose proof (fun Hframe =>
                archive_each_main_index overwrite links Hframe r0) as Hidx.
  pose proof (archive_each_world overwrite links r0) as Hworld.
  unfold after_batch.
  destruct (archive_each overwrite links r0) as [rb res].
  cbn in Hend, Hcalls, Hidx, Hevs, Hworld. subst res. cbn.
  assert (Hwrites : writes (calls rb) = [EvWriteMainIndex links0 false]).
  { by rewrite Hcalls, writes_app, Hw0, (writes_extractor_calls _ _ _ Hevs). }
  split; [done|]. split.
  { intros written Hwritten.
    assert (Hin' : EvWriteMainIndex written true ∈ writes (calls rb)).
    { unfold writes. rewrite list_elem_of_In, filter_In.
      by rewrite <- list_elem_of_In. }
    rewrite Hwrites in Hin'. apply list_elem_of_singleton in Hin'.
    discriminate Hin'. }
  split; [done|]. split; [done|]. split; [done|].
  intros Hframe. rewrite (Hidx Hframe). done.
Qed.

Lemma site_extractors_keep_index :
  extractors_keep_index (H := Demo.site).
Proof.
  intros link overwrite [idx [fs [|[[]|code|e] later]]]; reflexivity.
Qed.

Lemma interrupted_run_keeps_first_write_witness :
  ∃ links,
    writes (calls (Demo.add_interrupted).1) = [EvWriteMainIndex links false]
    ∧ (Demo.add_interrupted).2 = SystemExit 0
    ∧ main_index (world (Demo.add_interrupted).1) = links.
Proof.
  destruct (interrupted_run_keeps_first_write (H := Demo.site)
              Demo.add_interrupted add_interrupted_archiving
              add_interrupted_is_interrupted)
    as (links & w0 & overwrite & batch & Hwrites & _ & Hexit & _ & _
        & Hindex).
  exists links. split; [exact Hwrites|]. split; [exact Hexit|].
  exact (Hindex site_extractors_keep_index).
Defined.

Section AddTwice.
Context `{Collaborators}.

Lemma add_conflict import_str import_path update_all index_only w :
  truthy_str import_str && truthy_str import_path = true →
  add import_str import_path update_all index_only (start w)
  = (start w, SystemExit 2).
Proof.
  intros Hconflict. unfold add. unfold_steps. cbn. by rewrite Hconflict.
Qed.

End AddTwice.

(** C6: an [add] that archives its batch and returns has called
    [write_main_index] exactly twice: once with the merged links, after
    loading the index and before the first extractor call, and once with
    [finished=True] after the last extractor call and right after a second
    [load_main_index]; the links of the second write, which [add] returns,
    are the index as the extractor calls of the batch have left it. *)
Theorem add_writes_index_twice `{Collaborators}
    (import_str import_path : option string) (update_all : bool)
    (w : World Outside) (links : list Link) :
  (add import_str import_path update_all false (start w)).2
  = Returned links →
  ∃ merged new_links t,
    merged_links import_str import_path w = (t, Returned (merged, new_links))
    ∧ calls (add import_str import_path update_all false (start w)).1
      = [EvLoadMainIndex; EvWriteMainIndex merged false]
        ++ map (fun l => EvArchiveLink l false (Returned tt))
               (if update_all then merged else new_links)
        ++ [EvLoadMainIndex; EvWriteMainIndex links true]
    ∧ writes (calls (add import_str import_path update_all false
                         (start w)).1)
      = [EvWriteMainIndex merged false; EvWriteMainIndex links true]
    ∧ links
      = main_index
          (after_archiving false (if update_all then merged else new_links)
                           {| main_index := merged; tree := t |})
    ∧ world (add import_str import_path update_all false (start w)).1
      = after_archiving false (if update_all then merged else new_links)
                        {| main_index := merged; tree := t |}.
Proof.
  intros Hret.
  destruct (truthy_str import_str && truthy_str import_path) eqn:Hconflict.
  { rewrite add_conflict in Hret by done. discriminate Hret. }
  pose proof (add_batch_run import_str import_path update_all false w
                            Hconflict) as Hout.
  cbn zeta in Hout.
  destruct (merged_links import_str import_path w)
    as [t [[merged new_links]|code|e]];
    [|by destruct (Hout links)..].
  rewrite Hout in Hret |- *.
  exists merged, new_links, t. split; [done|].
  set (batch := if update_all then merged else new_links) in *.
  pose proof (archive_each_shape false batch (written merged t)) as Hcalls.
  pose proof (archive_each_world false batch (written merged t)) as Hworld.
  unfold after_batch in *.
  destruct (archive_each false batch (written merged t)) as [rb res].
  cbn [fst snd] in Hcalls, Hworld.
  destruct res as [[]|code|[]]; try discriminate Hret.
  cbn in Hret |- *. injection Hret as Hlinks.
  change (world (written merged t))
    with ({| main_index := merged; tree := t |} : World Outside) in Hworld.
  rewrite Hcalls, <- Hworld, Hlinks. cbn.
  split; [by rewrite <- !app_assoc|].
  split; [|split; [done|]].
  - rewrite !writes_app, writes_archive_events. done.
  - rewrite <- Hlinks. by destruct (world rb).
Qed.

Lemma add_writes_index_twice_witness :
  ∃ merged,
    writes (calls (Titles.add_finished).1)
    = [EvWriteMainIndex merged false;
       EvWriteMainIndex [Titles.resolved Demo.link_a;
                         Titles.resolved Demo.link_b;
                         Titles.resolved Demo.link_c] true].
Proof.
  destruct (add_writes_index_twice (H := Titles.site)
              None (Some "urls.txt") true (Demo.two_links [])
              [Titles.resolved Demo.link_a; Titles.resolved Demo.link_b;
               Titles.resolved Demo.link_c])
    as (merged & new_links & t & _ & _ & Hwrites & _).
  - vm_compute. reflexivity.
  - exists merged. exact Hwrites.
Defined.

(** C10: with [only_new] true, [update] makes no extractor call and no
    call of [rmtree]: every call it makes is a read or a write of the index
    or the look at the folders of [list_folders], and it leaves the
    collection as it found it, whatever the other arguments and the index
    are. *)
Theorem update_only_new_archives_nothing `{Collaborators}
    (resume : option Float) (index_only overwrite : bool)
    (filter_patterns_str : option string)
    (filter_patterns : option (list string)) (filter_type : option string)
    (status : option string) (after before : option Float)
    (w : World Outside) :
  archive_calls
    (calls (update resume true index_only overwrite filter_patterns_str
                   filter_patterns filter_type status after before
                   (start w)).1) = []
  ∧ rmtree_calls
      (calls (update resume true index_only overwrite filter_patterns_str
                     filter_patterns filter_type status after before
                     (start w)).1) = []
  ∧ Forall reads_or_writes_index
      (calls (update resume true index_only overwrite filter_patterns_str
                     filter_patterns filter_type status after before
                     (start w)).1)
  ∧ world (update resume true index_only overwrite filter_patterns_str
                  filter_patterns filter_type status after before
                  (start w)).1 = w.
Proof.
  destruct (update_run resume true index_only overwrite filter_patterns_str
                       filter_patterns filter_type status after before w)
    as [(_ & _ & Hw & _ & Hall)|(st & matching & _ & _ & Hout)].
  - split; [|split; [|split; [|done]]].
    + by apply (reads_and_writes_only _ _ Hall).
    + by apply (reads_and_writes_only _ _ Hall).
    + eapply Forall_impl; [exact Hall|]. by intros ev [->| ->].
  - destruct (get_folders st matching (tree w)) as [folders|code|e];
      [|rewrite Hout; cbn; (split; [reflexivity|]); (split; [reflexivity|]);
        (split; [repeat constructor|reflexivity])..].
    cbn in Hout.
    assert (Hnone : links_after_timestamp [] resume = [])
      by (by destruct resume).
    rewrite Hnone in Hout.
    unfold after_batch, archive_each, mret, M_ret, ret in Hout.
    destruct index_only; rewrite Hout; cbn.
    + split; [reflexivity|]. split; [reflexivity|].
      split; [repeat constructor|reflexivity].
    + split; [reflexivity|]. split; [reflexivity|].
      split; [repeat constructor|by destruct w].
Qed.

(** C9: when the patterns pass the first check of [remove] and the filter
    goes through the index and selects no link, [remove] ends by
    [SystemExit(1)] after the one read of the index that the selection
    made: it has written no index and deleted no folder, and the collection
    is as before. *)
Theorem remove_empty_selection_exits_1 `{Collaborators}
    (filter_str : option string) (filter_patterns : option (list string))
    (filter_type : string) (after before : option Float) (yes delete : bool)
    (w : World Outside) (pats : option (list string)) :
  remove_patterns filter_str filter_patterns = Returned pats →
  (list_links pats (Some filter_type) after before (start w)).2
  = Returned [] →
  let out := remove filter_str filter_patterns filter_type after before
                    yes delete (start w) in
  out.2 = SystemExit 1
  ∧ exit_status out.2 = Some 1%Z
  ∧ world out.1 = w
  ∧ calls out.1 = [EvLoadMainIndex]
  ∧ writes (calls out.1) = []
  ∧ rmtree_calls (calls out.1) = [].
Proof.
  intros Hpats Hnone out.
  rewrite list_links_returns in Hnone. cbn in Hnone.
  pose proof (remove_run filter_str filter_patterns filter_type after before
                         yes delete w) as Hrun.
  cbn zeta in Hrun. rewrite Hpats, Hnone in Hrun. fold out in Hrun.
  rewrite Hrun. done.
Qed.

Lemma remove_nowhere_selects_nothing :
  (list_links (H := Demo.site) Demo.pattern_nowhere (Some "exact")
              (Some (Finite (150 # 1))) None
              (start (H := Demo.site) (Demo.two_links []))).2 = Returned [].
Proof. vm_compute. reflexivity. Qed.

Lemma remove_empty_selection_exits_1_witness :
  (Demo.remove_nowhere).2 = SystemExit 1
  ∧ world (Demo.remove_nowhere).1 = Demo.two_links [].
Proof.
  destruct (remove_empty_selection_exits_1 (H := Demo.site)
              None Demo.pattern_nowhere "exact" (Some (Finite (150 # 1)))
              None true true (Demo.two_links []) Demo.pattern_nowhere
              eq_refl remove_nowhere_selects_nothing)
    as (Hexit & _ & Hworld & _).
  split; [exact Hexit|exact Hworld].
Defined.

Lemma remove_nowhere_run :
  Demo.remove_nowhere
  = (@Build_Run Demo.site (Demo.two_links []) [EvLoadMainIndex],
     SystemExit 1).
Proof.
  pose proof (remove_run (H := Demo.site) None Demo.pattern_nowhere "exact"
                (Some (Finite (150 # 1))) None true true (Demo.two_links []))
    as Hrun.
  cbn zeta in Hrun.
  rewrite (eq_refl : remove_patterns None Demo.pattern_nowhere
                     = Returned Demo.pattern_nowhere) in Hrun.
  assert (Hsel : list_of (list_links_loop (H := Demo.site)
                            Demo.pattern_nowhere (Some "exact")
                            (Some (Finite (150 # 1))) None
                            (main_index (Demo.two_links [])))
                 = Returned []) by (vm_compute; reflexivity).
  rewrite Hsel in Hrun. exact Hrun.
Qed.

(** C8 fails as stated: [remove --delete] with a pattern that matches
    nothing and the lower bound 150 exits with status 1; [link_a], below the
    bound, satisfies [should_remove], and its folder is still there. *)
Lemma remove_early_exit_deletes_nothing :
  (Demo.remove_nowhere).2 = SystemExit 1
  ∧ Demo.link_a ∈ main_index (Demo.two_links [])
  ∧ should_remove (H := Demo.site) Demo.pattern_nowhere "exact"
                  (Some (Finite (150 # 1))) None Demo.link_a
    = Returned true
  ∧ link_dir (H := Demo.site) Demo.link_a = "archive/100"
  ∧ ¬ deleted "archive/100" (Demo.two_links [])
              (world (Demo.remove_nowhere).1).
Proof.
  rewrite remove_nowhere_run. cbn [fst snd world].
  split; [reflexivity|]. split; [apply list_elem_of_here|].
  split; [vm_compute; reflexivity|]. split; [reflexivity|].
  intros [Hin Hout]. exact (Hout Hin).
Qed.

Section RemoveFolders.
Context `{Collaborators}.

Lemma elem_of_dropped_dirs pats ft after before delete links dir :
  dir ∈ dropped_dirs pats ft after before delete links ↔
  delete = true
  ∧ ∃ link, link ∈ links ∧ link_dir link = dir
            ∧ should_remove pats ft after before link = Returned true.
Proof.
  unfold dropped_dirs, dropped. destruct delete.
  - rewrite elem_of_map. split.
    + intros (link & Hdir & Hin).
      rewrite list_elem_of_In, filter_In, <- list_elem_of_In in Hin.
      split; [done|]. exists link. split; [tauto|]. split; [done|].
      destruct Hin as [_ Hgone].
      by destruct (should_remove pats ft after before link) as [[|]|?|?].
    + intros (_ & link & Hin & Hdir & Hgone). exists link.
      split; [done|]. rewrite list_elem_of_In, filter_In, <- list_elem_of_In.
      by rewrite Hgone.
  - split; [intros Hin; by apply elem_of_nil in Hin|by intros [? _]].
Qed.

(** After the calls of [rmtree] no folder has come, and a folder has gone
    only if [rmtree] was called on it; if every call removes its folder,
    the folders that have gone are those on which it was called. *)
Lemma after_rmtree_folders dirs (t : Tree Outside) dir :
  (dir ∈ folders (after_rmtree dirs t) → dir ∈ folders t)
  ∧ (dir ∈ folders t → dir ∉ folders (after_rmtree dirs t) → dir ∈ dirs)
  ∧ ((∀ d t', (rmtree_outcome d t').1 = true) →
     dir ∈ dirs → dir ∉ folders (after_rmtree dirs t)).
Proof.
  induction dirs as [|d dirs IH] using rev_ind.
  { cbn. split; [done|]. split; [done|]. intros _ Hin.
    by apply elem_of_nil in Hin. }
  destruct IH as (IHsub & IHgone & IHall).
  rewrite after_rmtree_snoc.
  pose proof (fun Hall : ∀ d t', (rmtree_outcome d t').1 = true =>
                Hall d (after_rmtree dirs t)) as Hd.
  destruct (rmtree_outcome d (after_rmtree dirs t)) as [gone o].
  cbn [fst folders] in Hd |- *.
  split; [|split].
  - destruct gone; [|done]. rewrite elem_of_difference.
    intros [Hin _]. by apply IHsub.
  - intros Hin Hout. apply elem_of_app.
    destruct (decide (dir ∈ folders (after_rmtree dirs t))) as [Hstill|Hnot];
      [|left; by apply IHgone].
    right. destruct gone; [|done].
    rewrite elem_of_difference, elem_of_singleton in Hout.
    apply list_elem_of_singleton.
    destruct (decide (dir = d)); [done|]. exfalso. by apply Hout.
  - intros Hall Hin. rewrite (Hd Hall).
    rewrite elem_of_difference, elem_of_singleton.
    apply elem_of_app in Hin as [Hin|Hin].
    + intros [Hstill _]. by apply (IHall Hall).
    + apply list_elem_of_singleton in Hin as ->. by intros [_ ?].
Qed.

End RemoveFolders.

(** C8, amended: in a call of [remove] that returns (its patterns pass the
    first check, the filter selects some link and [log_removal_started]
    lets it go on), [shutil.rmtree(..., ignore_errors=True)] is called, in
    the order of the index, on the [link_dir] of every link for which the
    loop computes [should_remove] when [delete] is true, and is not called
    otherwise; a folder is deleted only if it is one of these, and it is
    deleted whenever it is one of these and every call of [rmtree] removes
    its folder, which an ignored error can prevent.  A call that does not
    return leaves the index and the folders as they are, and with [delete]
    false the folders are left as they are. *)
Theorem remove_deletes_dropped_folders `{Collaborators}
    (filter_str : option string) (filter_patterns : option (list string))
    (filter_type : string) (after before : option Float) (yes delete : bool)
    (w : World Outside) :
  let out := remove filter_str filter_patterns filter_type after before
                    yes delete (start w) in
  (∀ to_keep, out.2 = Returned to_keep →
     ∃ pats,
       remove_patterns filter_str filter_patterns = Returned pats
       ∧ rmtree_calls (calls out.1)
         = (if delete
            then map link_dir
                     (List.filter
                        (fun link =>
                           match should_remove pats filter_type after before
                                               link with
                           | Returned gone => gone
                           | _ => false
                           end)
                        (main_index w))
            else [])
       ∧ (∀ dir,
            deleted dir w (world out.1) →
            delete = true
            ∧ ∃ link, link ∈ main_index w ∧ link_dir link = dir
                      ∧ should_remove pats filter_type after before link
                        = Returned true)
       ∧ ((∀ dir t, (rmtree_outcome dir t).1 = true) →
          ∀ dir,
            deleted dir w (world out.1) ↔
            dir ∈ folders (tree w)
            ∧ delete = true
            ∧ ∃ link, link ∈ main_index w ∧ link_dir link = dir
                      ∧ should_remove pats filter_type after before link
                        = Returned true))
  ∧ ((∀ to_keep, out.2 ≠ Returned to_keep) →
       main_index (world out.1) = main_index w
       ∧ folders (tree (world out.1)) = folders (tree w)
       ∧ writes (calls out.1) = []
       ∧ rmtree_calls (calls out.1) = [])
  ∧ (delete = false → folders (tree (world out.1)) = folders (tree w)).
Proof.
  intros out.
  pose proof (remove_run filter_str filter_patterns filter_type after before
                         yes delete w) as Hrun.
  cbn zeta in Hrun. fold out in Hrun.
  destruct (remove_patterns filter_str filter_patterns)
    as [pats|code|e]; [|destruct Hrun as [_ ->]; by repeat split|done].
  destruct (list_of (list_links_loop pats (Some filter_type) after before
                                     (main_index w)))
    as [[|l ls]|code|e];
    [rewrite Hrun; by repeat split| |rewrite Hrun; by repeat split..].
  destruct (log_removal_started (l :: ls) yes delete (outside (tree w)))
    as [o [[]|code|e]]; rewrite Hrun; cbn [fst snd];
    [|by repeat split..].
  assert (Hdirs : dropped_dirs pats filter_type after before delete
                               (main_index w)
                  = if delete
                    then map link_dir
                           (List.filter
                              (fun link =>
                                 match should_remove pats filter_type after
                                                     before link with
                                 | Returned gone => gone
                                 | _ => false
                                 end)
                              (main_index w))
                    else []).
  { unfold dropped_dirs, dropped. destruct delete; [|done]. f_equal.
    apply filter_ext. intros link.
    by destruct (should_remove _ _ _ _ link) as [[|]|?|?]. }
  split; [|split].
  - intros to_keep _. exists pats. split; [done|].
    unfold removed. cbn [calls world tree].
    split.
    { rewrite !rmtree_calls_app, rmtree_calls_map. cbn.
      by rewrite app_nil_r. }
    split.
    + intros dir [Hin Hout].
      apply elem_of_dropped_dirs.
      by apply (after_rmtree_folders _ {| folders := folders (tree w);
                                          outside := o |} dir).
    + intros Hall dir. unfold deleted.
      rewrite <- (elem_of_dropped_dirs pats filter_type after before delete
                                       (main_index w) dir).
      destruct (after_rmtree_folders
                  (dropped_dirs pats filter_type after before delete
                                (main_index w))
                  {| folders := folders (tree w); outside := o |} dir)
        as (_ & Hgone & Hgoes).
      cbn [folders] in Hgone, Hgoes. split.
      * intros [Hin Hout]. split; [done|]. by apply Hgone.
      * intros [Hin Hdir]. split; [done|]. by apply Hgoes.
  - intros Hno. by destruct (Hno (kept pats filter_type after before
                                       (main_index w))).
  - intros ->. unfold removed, dropped_dirs. done.
Qed.

Lemma remove_b_delete_returns :
  (Demo.remove_b_delete).2 = Returned [Demo.link_a].
Proof. vm_compute. reflexivity. Qed.

Lemma remove_deletes_dropped_folders_witness :
  deleted "archive/200" (Demo.two_links []) (world (Demo.remove_b_delete).1).
Proof.
  destruct (proj1 (remove_deletes_dropped_folders (H := Demo.site)
                     None Demo.pattern_b "exact" None None true true
                     (Demo.two_links []))
                  [Demo.link_a] remove_b_delete_returns)
    as (pats & Hpats & _ & _ & Hdir).
  apply (Hdir (fun _ _ => eq_refl)). injection Hpats as <-.
  split; [|split; [reflexivity|]].
  - unfold Demo.two_links. cbn [folders tree].
    apply elem_of_union_r, elem_of_singleton. reflexivity.
  - exists Demo.link_b.
    split; [apply list_elem_of_further, list_elem_of_here|].
    split; [reflexivity|vm_compute; reflexivity].
Defined.

(** C7 fails as stated: [init] on a collection whose main index holds
    [link_a] and whose JSON index holds another record of the same URL,
    with another source and a title, writes [link_a] as it was: the
    sources are not appended and the empty title is not filled. *)
Lemma init_keeps_existing_record_unmerged :
  main_index (world (Demo.init_again).1) = [Demo.link_a; Demo.link_b]
  ∧ Demo.link_a ∈ existing_links (H := Demo.site) (Demo.two_links [])
  ∧ Demo.link_a_again
    ∈ parse_json_main_index (seen_by_init (H := Demo.site)
                                          (Demo.two_links []))
  ∧ url Demo.link_a_again = url Demo.link_a
  ∧ ¬ merged_record Demo.link_a Demo.link_a_again Demo.link_a.
Proof.
  split; [vm_compute; reflexivity|].
  split; [apply list_elem_of_here|].
  split; [apply list_elem_of_here|].
  split; [reflexivity|].
  intros (_ & Hsources & _). discriminate Hsources.
Qed.

Section InitCollect.
Context `{Collaborators}.

Lemma dict_update_orphans links (seen : Dict) :
  dict_update seen (dict_of_links links seen)
  = seen ++ dict_of_links links seen.
Proof.
  destruct (dict_of_links_spec links seen) as (Hnd & Hin & _).
  apply dict_update_fresh; [done|].
  intros k Hk. apply elem_of_map in Hk as (kv & <- & Hkv).
  by apply Hin.
Qed.

(** The keys and the entries of a dictionary that holds, one source after
    the other, the links of each source whose URL no earlier source had. *)
Lemma orphans_spec links (seen : Dict) :
  NoDup (map fst seen) →
  (∀ kv, kv ∈ seen → kv.1 = url kv.2) →
  let all := seen ++ dict_of_links links seen in
  NoDup (map fst all)
  ∧ (∀ kv, kv ∈ all → kv.1 = url kv.2)
  ∧ (∀ kv, kv ∈ all →
       kv ∈ seen ∨ (kv.2 ∈ links ∧ url kv.2 ∉ map fst seen))
  ∧ (∀ k, k ∈ map fst all ↔ k ∈ map fst seen ∨ k ∈ map url links).
Proof.
  intros Hnd Hurl all. subst all.
  destruct (dict_of_links_spec links seen) as (Hnd' & Hin & Hcov).
  split; [|split; [|split]].
  - rewrite map_app. apply NoDup_app. split; [done|]. split; [|done].
    intros k Hk Hk'. apply elem_of_map in Hk' as (kv & <- & Hkv).
    by apply (Hin kv Hkv).
  - intros kv Hkv. apply elem_of_app in Hkv as [Hkv|Hkv];
      [by apply Hurl|by apply Hin].
  - intros kv Hkv. apply elem_of_app in Hkv as [Hkv|Hkv]; [by left|].
    right. destruct (Hin kv Hkv) as (Hk & Hl & Hs). by rewrite <- Hk.
  - intros k. rewrite map_app, elem_of_app. split.
    + intros [Hk|Hk]; [by left|]. right.
      apply elem_of_map in Hk as (kv & <- & Hkv).
      destruct (Hin kv Hkv) as (Hk & Hl & _).
      apply elem_of_map. by exists kv.2.
    + intros [Hk|Hk]; [by left|].
      apply elem_of_map in Hk as (l & <- & Hl).
      destruct (decide (url l ∈ map fst seen)); [by left|].
      right. by apply Hcov.
Qed.

End InitCollect.

Lemma dict_values_urls (d : Dict) :
  (∀ kv, kv ∈ d → kv.1 = url kv.2) →
  map url (dict_values d) = map fst d.
Proof.
  induction d as [|kv d IH]; intros Hurl; [done|].
  cbn. rewrite (Hurl kv) by (by left). f_equal.
  apply IH. intros kv' Hin. apply Hurl. by right.
Qed.

(** C7, amended: when [init] goes on to collect links, the URLs of the
    links it writes are distinct and are the URLs of its four sources (the
    existing main index, the JSON index, the SQL index, the folders), and
    every written record is, unchanged, a record of the first of these
    sources that has its URL: for a URL of the existing index the written
    record is an existing record with its own timestamp, sources, title
    and tags, and a later source gives only records whose URL no earlier
    source has. *)
Theorem init_existing_record_wins `{Collaborators} (w : World Outside) :
  (init (start w)).2 = Returned tt →
  let written := main_index (world (init (start w)).1) in
  let main := existing_links w in
  let json := parse_json_main_index (seen_by_init w) in
  let sql := parse_sql_main_index (seen_by_init w) in
  let details := parse_json_links_details (seen_by_init w) in
  NoDup (map url written)
  ∧ (∀ rec, rec ∈ written →
       rec ∈ main
       ∨ ((url rec ∉ map url main) ∧ rec ∈ json)
       ∨ ((url rec ∉ map url main) ∧ (url rec ∉ map url json) ∧ rec ∈ sql)
       ∨ ((url rec ∉ map url main) ∧ (url rec ∉ map url json)
          ∧ (url rec ∉ map url sql) ∧ rec ∈ details))
  ∧ (∀ rec, rec ∈ written → url rec ∈ map url main → rec ∈ main)
  ∧ (∀ l, l ∈ main ++ json ++ sql ++ details → url l ∈ map url written).
Proof.
  intros Hret written main json sql details.
  assert (Hwritten : written = dict_values (collected w))
    by (by apply init_returned_index).
  clear Hret.
  (* the dictionary after each source *)
  destruct (orphans_spec main [] (NoDup_nil_2))
    as (Hnd0 & Hurl0 & Hfrom0 & Hkeys0).
  { intros kv Hkv. by apply elem_of_nil in Hkv. }
  cbn [app] in Hnd0, Hurl0, Hfrom0, Hkeys0.
  change (dict_of_links main []) with (collected_main w) in *.
  destruct (orphans_spec json (collected_main w) Hnd0 Hurl0)
    as (Hnd1 & Hurl1 & Hfrom1 & Hkeys1).
  rewrite <- dict_update_orphans in Hnd1, Hurl1, Hfrom1, Hkeys1.
  change (dict_update (collected_main w) (dict_of_links json (collected_main w)))
    with (collected_json w) in *.
  destruct (orphans_spec sql (collected_json w) Hnd1 Hurl1)
    as (Hnd2 & Hurl2 & Hfrom2 & Hkeys2).
  rewrite <- dict_update_orphans in Hnd2, Hurl2, Hfrom2, Hkeys2.
  change (dict_update (collected_json w) (dict_of_links sql (collected_json w)))
    with (collected_sql w) in *.
  destruct (orphans_spec details (collected_sql w) Hnd2 Hurl2)
    as (Hnd3 & Hurl3 & Hfrom3 & Hkeys3).
  rewrite <- dict_update_orphans in Hnd3, Hurl3, Hfrom3, Hkeys3.
  change (dict_update (collected_sql w)
                      (dict_of_links details (collected_sql w)))
    with (collected w) in *.
  assert (Hk0 : ∀ k, k ∈ map fst (collected_main w) ↔ k ∈ map url main).
  { intros k. rewrite Hkeys0. split; [|by right].
    intros [Hk|Hk]; [by apply elem_of_nil in Hk|done]. }
  assert (Hsource : ∀ rec,
    rec ∈ written →
    rec ∈ main
    ∨ ((url rec ∉ map url main) ∧ rec ∈ json)
    ∨ ((url rec ∉ map url main) ∧ (url rec ∉ map url json) ∧ rec ∈ sql)
    ∨ ((url rec ∉ map url main) ∧ (url rec ∉ map url json)
       ∧ (url rec ∉ map url sql) ∧ rec ∈ details)).
  { intros rec Hrec. rewrite Hwritten in Hrec.
    apply elem_of_map in Hrec as (kv & <- & Hkv).
    destruct (Hfrom3 kv Hkv) as [Hkv2|[Hd Hnew]].
    - destruct (Hfrom2 kv Hkv2) as [Hkv1|[Hs Hnew]].
      + destruct (Hfrom1 kv Hkv1) as [Hkv0|[Hj Hnew]].
        * destruct (Hfrom0 kv Hkv0) as [Hnil|[Hm _]]; [|by left].
          by apply elem_of_nil in Hnil.
        * right. left. split; [|done]. by rewrite <- Hk0.
      + right. right. left.
        rewrite Hkeys1, Hk0 in Hnew. tauto.
    - right. right. right.
      rewrite Hkeys2, Hkeys1, Hk0 in Hnew. tauto. }
  split; [|split; [done|split]].
  - rewrite Hwritten, dict_values_urls by done. done.
  - intros rec Hrec Hurl.
    destruct (Hsource rec Hrec) as [?|[[? _]|[[? _]|[? _]]]]; done.
  - intros l Hl. rewrite Hwritten, dict_values_urls by done.
    rewrite Hkeys3, Hkeys2, Hkeys1, Hk0.
    rewrite !elem_of_app in Hl.
    destruct Hl as [Hl|[Hl|[Hl|Hl]]].
    + left. left. left. apply elem_of_map. by exists l.
    + left. left. right. apply elem_of_map. by exists l.
    + left. right. apply elem_of_map. by exists l.
    + right. apply elem_of_map. by exists l.
Qed.

Lemma init_again_returns : (Demo.init_again).2 = Returned tt.
Proof. vm_compute. reflexivity. Qed.

Lemma init_existing_record_wins_witness :
  NoDup (map url (main_index (world (Demo.init_again).1)))
  ∧ ∀ rec, rec ∈ main_index (world (Demo.init_again).1) →
           url rec ∈ map url [Demo.link_a; Demo.link_b] →
           rec ∈ [Demo.link_a; Demo.link_b].
Proof.
  destruct (init_existing_record_wins (H := Demo.site) (Demo.two_links [])
              init_again_returns)
    as (Hnd & _ & Hwins & _).
  split; [exact Hnd|exact Hwins].
Defined.

(** * More properties of the commands *)

Section Order.
Context `{Collaborators}.

Lemma archived_links_app evs evs' :
  archived_links (evs ++ evs') = archived_links evs ++ archived_links evs'.
Proof. unfold archived_links. apply omap_app. Qed.

(** The loop calls the extractors on the links of the batch in order, and
    on all of them when it comes to its end. *)
Lemma archive_each_prefix overwrite links : ∀ r,
  ∃ evs,
    calls (archive_each overwrite links r).1 = calls r ++ evs
    ∧ archived_links evs `prefix_of` links
    ∧ ((archive_each overwrite links r).2 = Returned tt →
         archived_links evs = links).
Proof.
  induction links as [|link rest IH]; intros r.
  - exists []. cbn. rewrite app_nil_r. split; [done|]. split; [|done].
    by exists [].
  - cbn [archive_each]. unfold mbind, M_bind, bind, call_archive_link.
    destruct (archive_link link overwrite (world r)) as [w1 ended].
    destruct ended as [[]|code|e].
    + destruct (IH {| world := w1;
                      calls := calls r ++
                               [EvArchiveLink link overwrite (Returned tt)] |})
        as (evs & Hcalls & Hpre & Hall).
      exists (EvArchiveLink link overwrite (Returned tt) :: evs).
      split; [|split].
      * rewrite Hcalls. cbn. by rewrite <- app_assoc.
      * cbn. by apply prefix_cons.
      * intros Hret. cbn. f_equal. by apply Hall.
    + exists [EvArchiveLink link overwrite (SystemExit code)].
      split; [done|]. split; [|done]. cbn. by exists rest.
    + exists [EvArchiveLink link overwrite (Raised e)].
      split; [done|]. split; [|done]. cbn. by exists rest.
Qed.

Lemma after_batch_archived (batch : Run * Result unit) :
  archived_links (calls (after_batch batch).1) = archived_links (calls batch.1).
Proof.
  destruct batch as [rb [[]|code|[]]]; cbn; try reflexivity.
  rewrite !archived_links_app. cbn. by rewrite !app_nil_r.
Qed.

End Order.

Lemma archive_calls_returned `{Collaborators} overwrite
    (links : list Link) :
  archive_calls (map (fun l => EvArchiveLink l overwrite (Returned tt)) links)
  = map (fun l => EvArchiveLink l overwrite (Returned tt)) links.
Proof.
  unfold archive_calls. induction links as [|l links IH]; cbn; [done|].
  by f_equal.
Qed.

Lemma archive_calls_app `{Collaborators} evs evs' :
  archive_calls (evs ++ evs') = archive_calls evs ++ archive_calls evs'.
Proof. unfold archive_calls. apply List.filter_app. Qed.

(** X1: with [update_all], [add] calls the extractors on the links of its
    first index write, in the order of that write and each at most once: the
    links archived are a prefix of the written links, and all of them when
    [add] returns after its batch.  Without [index_only], the calls of the
    extractors of an [add] that returns are one returning call for each
    written link; those of an [add] that does not return are returning
    calls for the written links before some link, then the one call for
    that link, which does not return, and no call for the links after it. *)
Theorem add_archives_written_links_in_order `{Collaborators}
    (import_str import_path : option string) (index_only : bool)
    (w : World Outside) (merged : list Link) :
  let out := add import_str import_path true index_only (start w) in
  let returning link := EvArchiveLink link false (Returned tt) in
  EvWriteMainIndex merged false ∈ calls out.1 →
  archived_links (calls out.1) `prefix_of` merged
  ∧ (index_only = false →
     (∀ links, out.2 = Returned links →
               archived_links (calls out.1) = merged)
     ∧ match out.2 with
       | Returned _ =>
           archive_calls (calls out.1) = map returning merged
       | _ =>
           ∃ reached link rest ended,
             merged = reached ++ link :: rest
             ∧ (∀ u, ended ≠ Returned u)
             ∧ archive_calls (calls out.1)
               = map returning reached ++ [EvArchiveLink link false ended]
             ∧ archived_links (calls out.1) = reached ++ [link]
       end).
Proof.
  intros out returning Hin. subst out.
  destruct (add_run import_str import_path true index_only w)
    as [(Hw & _ & _ & _)|(merged' & new_links & t & _ & Hout)].
  { exfalso. assert (Hin' : EvWriteMainIndex merged false
                            ∈ writes (calls (add import_str import_path true
                                                 index_only (start w)).1)).
    { unfold writes. rewrite list_elem_of_In, filter_In.
      by rewrite <- list_elem_of_In. }
    rewrite Hw in Hin'. by apply elem_of_nil in Hin'. }
  destruct index_only.
  - rewrite Hout in Hin |- *. cbn in Hin |- *. split; [by exists merged|done].
  - rewrite Hout in Hin |- *. rewrite after_batch_archived.
    destruct (archive_each_prefix false merged' (written merged' t))
      as (evs & Hcalls & Hpre & Hall).
    assert (Hm : merged = merged').
    { destruct (archive_each_spec false merged' (written merged' t))
        as (evs' & Hcalls' & Hevs & _).
      unfold after_batch in Hin.
      destruct (archive_each false merged' (written merged' t))
        as [rb [[]|code|[]]]; cbn in Hin, Hcalls';
        rewrite Hcalls' in Hin; cbn in Hin;
        rewrite ?elem_of_cons, ?elem_of_app, ?elem_of_cons, ?elem_of_nil
          in Hin;
        repeat match goal with Hor : _ ∨ _ |- _ => destruct Hor end;
        try done; try congruence;
        match goal with
        | Hev : EvWriteMainIndex _ _ ∈ evs' |- _ =>
            destruct (Hevs _ Hev) as (? & ? & ? & _); done
        end. }
    subst merged'. rewrite Hcalls. cbn [written calls world].
    change (archived_links ([EvLoadMainIndex; EvWriteMainIndex merged false]
                            ++ evs))
      with (archived_links evs).
    split; [done|]. intros _. split.
    { intros links Hret. apply Hall.
      unfold after_batch in Hret.
      by destruct (archive_each false merged (written merged t))
        as [rb [[]|code|[]]]. }
    pose proof (archive_each_shape false merged (written merged t)) as Hshape.
    assert (Hcut : ∀ ended,
      (∃ reached link rest,
         merged = reached ++ link :: rest
         ∧ calls (archive_each false merged (written merged t)).1
           = calls (written merged t)
             ++ map returning reached ++ [EvArchiveLink link false ended]) →
      (∀ u, ended ≠ Returned u) →
      ∃ reached link rest ended,
        merged = reached ++ link :: rest
        ∧ (∀ u, ended ≠ Returned u)
        ∧ archive_calls
            (calls (archive_each false merged (written merged t)).1)
          = map returning reached ++ [EvArchiveLink link false ended]
        ∧ archived_links evs = reached ++ [link]).
    { intros ended (reached & link & rest & Hmerged & Hshape') Hended.
      exists reached, link, rest, ended.
      split; [done|]. split; [done|]. split.
      - rewrite Hshape'. cbn [written calls].
        rewrite !archive_calls_app. unfold returning.
        rewrite archive_calls_returned. done.
      - rewrite Hcalls in Hshape'. apply app_inv_head in Hshape'.
        rewrite Hshape', archived_links_app. unfold returning.
        f_equal. clear. induction reached as [|l ls IH]; cbn; [done|].
        by f_equal. }
    unfold after_batch.
    destruct (archive_each false merged (written merged t))
      as [rb [[]|code|e]]; cbn [fst snd calls] in Hshape, Hcalls, Hcut |- *.
    + rewrite !archive_calls_app. cbn [archive_calls List.filter is_write
        is_archive_call app]. rewrite !app_nil_r.
      rewrite Hshape. cbn [written calls]. rewrite archive_calls_app.
      unfold returning. by rewrite archive_calls_returned.
    + by apply (Hcut (SystemExit code)).
    + destruct e; cbn [fst snd calls];
        by (eapply Hcut; [exact Hshape|]).
Qed.

Lemma add_interrupted_written :
  EvWriteMainIndex [Demo.link_a; Demo.link_b; Demo.link_c] false
  ∈ calls (Demo.add_interrupted).1.
Proof.
  rewrite add_interrupted_calls.
  apply list_elem_of_further, list_elem_of_here.
Qed.

Lemma add_archives_written_links_in_order_witness :
  ∃ reached link rest ended,
    [Demo.link_a; Demo.link_b; Demo.link_c] = reached ++ link :: rest
    ∧ (∀ u, ended ≠ Returned u)
    ∧ archive_calls (calls (Demo.add_interrupted).1)
      = map (fun l => EvArchiveLink l false (Returned tt)) reached
        ++ [EvArchiveLink link false ended]
    ∧ archived_links (calls (Demo.add_interrupted).1) = reached ++ [link].
Proof.
  pose proof (proj2 (proj2 (add_archives_written_links_in_order
                              (H := Demo.site) None (Some "urls.txt") false
                              (Demo.two_links
                                 [Returned tt; Raised KeyboardInterrupt])
                              [Demo.link_a; Demo.link_b; Demo.link_c]
                              add_interrupted_written)
                           eq_refl)) as Hcut.
  exact Hcut.
Defined.


(** X2: with [index_only], neither [add] nor [update] calls an extractor,
    and neither makes the [finished=True] write of Step 4. *)
Theorem index_only_never_archives `{Collaborators}
    (import_str import_path : option string) (update_all : bool)
    (resume : option Float) (only_new overwrite : bool)
    (filter_patterns_str : option string)
    (filter_patterns : option (list string)) (filter_type : option string)
    (status : option string) (after before : option Float)
    (w : World Outside) :
  (archive_calls
     (calls (add import_str import_path update_all true (start w)).1) = []
   ∧ ∀ links,
       EvWriteMainIndex links true
       ∉ calls (add import_str import_path update_all true (start w)).1)
  ∧ (archive_calls
       (calls (update resume only_new true overwrite filter_patterns_str
                      filter_patterns filter_type status after before
                      (start w)).1) = []
     ∧ ∀ links,
         EvWriteMainIndex links true
         ∉ calls (update resume only_new true overwrite filter_patterns_str
                         filter_patterns filter_type status after before
                         (start w)).1).
Proof.
  split.
  - destruct (add_run import_str import_path update_all true w)
      as [(Hw & Ha & _ & _)|(merged & new_links & t & _ & Hout)].
    + split; [done|]. intros links Hin.
      assert (Hin' : EvWriteMainIndex links true
                     ∈ writes (calls (add import_str import_path update_all
                                          true (start w)).1)).
      { unfold writes. rewrite list_elem_of_In, filter_In.
        by rewrite <- list_elem_of_In. }
      rewrite Hw in Hin'. by apply elem_of_nil in Hin'.
    + rewrite Hout. cbn. split; [done|]. intros links Hin.
      rewrite !elem_of_cons, elem_of_nil in Hin.
      destruct Hin as [Hin|[Hin|[]]]; discriminate Hin.
  - destruct (update_run resume only_new true overwrite filter_patterns_str
                         filter_patterns filter_type status after before w)
      as [(_ & _ & _ & _ & Hall)|(st & matching & _ & _ & Hout)].
    + split; [by apply (reads_and_writes_only _ _ Hall)|].
      intros links Hin. rewrite Forall_forall in Hall.
      destruct (Hall _ Hin) as [Hev|Hev]; discriminate Hev.
    + assert (Hout' : update resume only_new true overwrite
                             filter_patterns_str filter_patterns filter_type
                             status after before (start w)
                      = (filtered w st matching,
                         (update resume only_new true overwrite
                                 filter_patterns_str filter_patterns
                                 filter_type status after before
                                 (start w)).2)).
      { destruct (get_folders st matching (tree w)) as [folders|code|e];
          cbn in Hout; by rewrite Hout. }
      rewrite Hout'. cbn. split; [done|]. intros links Hin.
      rewrite !elem_of_cons, elem_of_nil in Hin.
      destruct Hin as [Hin|[Hin|[Hin|[Hin|[]]]]]; discriminate Hin.
Qed.

(** X3: an [update] that archives its batch and returns has called the
    extractors on every link of the batch, then reloaded the main index and
    written it with [finished=True]: these two calls are its last, and the
    index written is the one that the runs of the extractors have left.
    What it returns is that whole index, not the links that its filter
    selected, and while the extractors do not write the main index it is the
    index that [update] found. *)
Theorem update_returns_whole_index `{Collaborators}
    (resume : option Float) (only_new overwrite : bool)
    (filter_patterns_str : option string)
    (filter_patterns : option (list string)) (filter_type : option string)
    (status : option string) (after before : option Float)
    (w : World Outside) (links : list Link) :
  let out := update resume only_new false overwrite filter_patterns_str
                    filter_patterns filter_type status after before
                    (start w) in
  out.2 = Returned links →
  (∃ st matching matching_folders,
     recognized_status status = Some st
     ∧ (list_links filter_patterns filter_type after before (start w)).2
       = Returned matching
     ∧ get_folders st matching (tree w) = Returned matching_folders
     ∧ let batch :=
         links_after_timestamp
           (if only_new then [] else folder_links matching_folders)
           resume in
       calls out.1
       = [EvLoadMainIndex; EvWriteMainIndex (main_index w) false;
          EvLoadMainIndex; EvGetFolders st matching]
         ++ map (fun l => EvArchiveLink l overwrite (Returned tt)) batch
         ++ [EvLoadMainIndex; EvWriteMainIndex links true]
       ∧ links = main_index (after_archiving overwrite batch w)
       ∧ world out.1 = after_archiving overwrite batch w)
  ∧ main_index (world out.1) = links
  ∧ List.last (calls out.1) EvLoadMainIndex = EvWriteMainIndex links true
  ∧ (extractors_keep_index → links = main_index w).
Proof.
  intros out Hret. subst out.
  destruct (update_run resume only_new false overwrite filter_patterns_str
                       filter_patterns filter_type status after before w)
    as [(Hno & _)|(st & matching & Hst & Hsel & Hout)].
  { by destruct (Hno links). }
  destruct (get_folders st matching (tree w)) as [folders|code|e] eqn:Efolders;
    try (rewrite Hout in Hret; discriminate Hret).
  cbn in Hout. rewrite Hout in Hret |- *.
  set (batch := links_after_timestamp _ resume) in *.
  set (r0 := filtered w st matching) in *.
  pose proof (fun Hframe =>
                archive_each_main_index overwrite batch Hframe r0) as Hidx.
  pose proof (archive_each_world overwrite batch r0) as Hworld.
  pose proof (archive_each_shape overwrite batch r0) as Hshape.
  unfold after_batch in *.
  destruct (archive_each overwrite batch r0) as [rb [[]|code|[]]];
    try discriminate Hret.
  cbn in Hret, Hidx, Hworld, Hshape |- *. injection Hret as Hlinks.
  assert (Hw : {| main_index := main_index (world rb);
                  tree := tree (world rb) |}
               = after_archiving overwrite batch w).
  { rewrite <- Hworld. by destruct (world rb). }
  split; [|split; [done|split]].
  - exists st, matching, folders. split; [done|]. split; [done|].
    split; [done|]. fold batch. cbn zeta. split; [|split].
    + rewrite Hshape, <- Hlinks. by rewrite <- !app_assoc.
    + by rewrite <- Hlinks, <- Hworld.
    + exact Hw.
  - rewrite last_last. by rewrite Hlinks.
  - intros Hframe. rewrite <- Hlinks. by apply Hidx.
Qed.

Lemma titles_update_finished_returns :
  (Titles.update_finished).2
  = Returned [Titles.resolved Demo.link_a; Titles.resolved Demo.link_b].
Proof. vm_compute. reflexivity. Qed.

Lemma update_returns_whole_index_witness :
  calls (Titles.update_finished).1
  = [EvLoadMainIndex;
     EvWriteMainIndex [Demo.link_a; Demo.link_b] false;
     EvLoadMainIndex;
     EvGetFolders indexed [Demo.link_a; Demo.link_b];
     EvArchiveLink Demo.link_a false (Returned tt);
     EvArchiveLink Demo.link_b false (Returned tt);
     EvLoadMainIndex;
     EvWriteMainIndex
       [Titles.resolved Demo.link_a; Titles.resolved Demo.link_b] true].
Proof.
  destruct (proj1 (update_returns_whole_index (H := Titles.site)
                     None false false None None (Some "exact")
                     (Some "indexed") None None (Demo.two_links [])
                     [Titles.resolved Demo.link_a;
                      Titles.resolved Demo.link_b]
                     titles_update_finished_returns))
    as (st & matching & folders & Hst & Hsel & Hfolders & Hcalls & _).
  injection Hst as <-.
  assert (Hmatching : matching = [Demo.link_a; Demo.link_b]).
  { assert (Hsel' : (list_links (H := Titles.site) None (Some "exact") None
                                None (start (H := Titles.site)
                                            (Demo.two_links []))).2
                    = Returned [Demo.link_a; Demo.link_b])
      by (vm_compute; reflexivity).
    rewrite Hsel' in Hsel. by injection Hsel. }
  subst matching. injection Hfolders as <-. exact Hcalls.
Defined.

(** X4: when [remove] returns, [should_remove] was computed for every link
    of the old index, and the list that [remove] returns is the index it has
    written, once and with [finished=True]: the links of the old index, in
    their order, for which [should_remove] is false; no link that the
    filter had selected is among them. *)
Theorem remove_rewrites_index_without_selection `{Collaborators}
    (filter_str : option string) (filter_patterns : option (list string))
    (filter_type : string) (after before : option Float) (yes delete : bool)
    (w : World Outside) (to_keep : list Link) :
  (remove filter_str filter_patterns filter_type after before yes delete
          (start w)).2 = Returned to_keep →
  ∃ pats selection,
    remove_patterns filter_str filter_patterns = Returned pats
    ∧ (list_links pats (Some filter_type) after before (start w)).2
      = Returned selection
    ∧ Forall (fun l => ∃ gone,
                should_remove pats filter_type after before l
                = Returned gone) (main_index w)
    ∧ to_keep
      = List.filter
          (fun l => match should_remove pats filter_type after before l with
                    | Returned gone => negb gone
                    | _ => false
                    end)
          (main_index w)
    ∧ main_index (world (remove filter_str filter_patterns filter_type
                                after before yes delete (start w)).1)
      = to_keep
    ∧ writes (calls (remove filter_str filter_patterns filter_type
                            after before yes delete (start w)).1)
      = [EvWriteMainIndex to_keep true]
    ∧ ∀ l, l ∈ selection → l ∉ to_keep.
Proof.
  intros Hret.
  pose proof (remove_run filter_str filter_patterns filter_type after before
                         yes delete w) as Hrun.
  cbn zeta in Hrun.
  destruct (remove_patterns filter_str filter_patterns) as [pats|code|e] eqn:Ep;
    [|destruct Hrun as [_ Hrun]; rewrite Hrun in Hret; discriminate Hret
     |done].
  destruct (remove_patterns_truthy _ _ _ Ep) as (pattern & patterns & ->).
  destruct (list_of (list_links_loop (Some (pattern :: patterns))
                                     (Some filter_type) after before
                                     (main_index w)))
    as [[|l0 ls]|code|e] eqn:Esel;
    try (rewrite Hrun in Hret; discriminate Hret).
  destruct (list_links_should_remove _ _ _ _ _ _ _ Esel) as [Hall Hgone].
  exists (Some (pattern :: patterns)), (l0 :: ls). split; [done|].
  split; [by rewrite list_links_returns|]. split; [done|].
  destruct (log_removal_started (l0 :: ls) yes delete (outside (tree w)))
    as [o [[]|code|e]]; rewrite Hrun in Hret |- *;
    try discriminate Hret.
  cbn [fst snd] in Hret |- *. injection Hret as <-.
  split; [|split; [done|split]].
  - unfold kept. apply filter_ext. intros l.
    by destruct (should_remove _ _ _ _ l) as [[|]|?|?].
  - unfold removed. cbn [calls].
    by rewrite !writes_app, writes_rmtree.
  - intros l Hl. unfold kept. rewrite list_elem_of_In, filter_In.
    intros [_ Hkeep]. by rewrite (Hgone l Hl) in Hkeep.
Qed.

Lemma remove_rewrites_index_without_selection_witness :
  ∃ pats,
    remove_patterns None Demo.pattern_b = Returned pats
    ∧ main_index (world (Demo.remove_b_delete).1) = [Demo.link_a].
Proof.
  destruct (remove_rewrites_index_without_selection (H := Demo.site)
              None Demo.pattern_b "exact" None None true true
              (Demo.two_links []) [Demo.link_a] remove_b_delete_returns)
    as (pats & selection & Hpats & _ & _ & _ & Hindex & _).
  exists pats. split; [exact Hpats|exact Hindex].
Defined.

(** X5: [add] with both a text and a path, [remove] with both a pattern
    text and a pattern list or with neither, and [list_all] with both, end
    by [SystemExit(2)] before the collection is read: no call is made and
    the collection is as before. *)
Theorem conflicting_arguments_exit_2 `{Collaborators} `{Sorting}
    (w : World Outside) :
  (∀ import_str import_path update_all index_only,
     truthy_str import_str = true → truthy_str import_path = true →
     add import_str import_path update_all index_only (start w)
     = (start w, SystemExit 2))
  ∧ (∀ filter_str filter_patterns filter_type after before yes delete,
       truthy_str filter_str = truthy_list filter_patterns →
       remove filter_str filter_patterns filter_type after before yes
              delete (start w)
       = (start w, SystemExit 2))
  ∧ (∀ filter_patterns_str filter_patterns filter_type status after before
       sort csv json,
       truthy_str filter_patterns_str = true →
       truthy_list filter_patterns = true →
       list_all filter_patterns_str filter_patterns filter_type status
                after before sort csv json (start w)
       = (start w, SystemExit 2)).
Proof.
  split; [|split].
  - intros import_str import_path update_all index_only Hs Hp.
    unfold add. unfold_steps. cbn. by rewrite Hs, Hp.
  - intros filter_str filter_patterns filter_type after before yes delete
      Hsame.
    pose proof (remove_run filter_str filter_patterns filter_type after
                           before yes delete w) as Hrun.
    cbn in Hrun. unfold remove_patterns in Hrun. rewrite Hsame in Hrun.
    destruct (truthy_list filter_patterns); cbn in Hrun; by destruct Hrun.
  - intros filter_patterns_str filter_patterns filter_type status after
      before sort csv json Hs Hp.
    unfold list_all. unfold_steps. cbn. by rewrite Hs, Hp.
Qed.

Lemma conflicting_arguments_exit_2_witness :
  remove (H := Demo.site) None None "exact" None None false false
         (start (H := Demo.site) (Demo.two_links []))
  = (start (H := Demo.site) (Demo.two_links []), SystemExit 2).
Proof.
  exact (proj1 (proj2 (conflicting_arguments_exit_2
                         (H := Demo.site)
                         (H0 := {| sorted_by_attr := fun _ l => Returned l |})
                         (Demo.two_links [])))
               None None "exact" None None false false eq_refl).
Defined.

(** X6: [init] in an output folder that holds other files but no JSON index
    ends by [SystemExit(1)] before it creates, reads or writes anything. *)
Theorem init_refuses_foreign_folder `{Collaborators} (w : World Outside) :
  output_dir_is_empty w = false →
  json_index_exists w = false →
  init (start w) = (start w, SystemExit 1).
Proof.
  intros Hempty Hindex. rewrite init_run. unfold init_proceeds.
  by rewrite Hempty, Hindex.
Qed.

Lemma init_refuses_foreign_folder_witness :
  init (H := Strangers.site) (start (H := Strangers.site) Strangers.files_only)
  = (start (H := Strangers.site) Strangers.files_only, SystemExit 1).
Proof.
  exact (init_refuses_foreign_folder (H := Strangers.site)
           Strangers.files_only eq_refl eq_refl).
Defined.

(** ** What [init] makes of its sources *)

Lemma dict_set_elem_ne k v (d : Dict) kv :
  NoDup (map fst d) →
  kv ∈ dict_set k v d → kv = (k, v) ∨ (kv ∈ d ∧ kv.1 ≠ k).
Proof.
  induction d as [|[k0 v0] d IH]; cbn; intros Hnd.
  - rewrite list_elem_of_singleton. by left.
  - apply NoDup_cons in Hnd as [Hk0 Hnd].
    destruct (String.eqb k0 k) eqn:E.
    + apply String.eqb_eq in E. subst.
      rewrite !elem_of_cons. intros [->|Hin]; [by left|].
      right. split; [by right|]. intros Heq. apply Hk0.
      apply elem_of_map. exists kv. by split.
    + apply String.eqb_neq in E.
      rewrite !elem_of_cons. intros [->|Hin]; [right; split; [by left|done]|].
      destruct (IH Hnd Hin) as [?|[? ?]]; [by left|right; split; [by right|done]].
Qed.

Lemma dict_of_links_snoc (links : list Link) (x : Link) (seen : Dict) :
  dict_of_links (links ++ [x]) seen
  = if dict_has (url x) seen then dict_of_links links seen
    else dict_set (url x) x (dict_of_links links seen).
Proof. unfold dict_of_links. by rewrite fold_left_app. Qed.

(** Every entry of the dictionary of a comprehension is the last link of
    its URL. *)
Lemma dict_of_links_last (links : list Link) (seen : Dict) kv :
  kv ∈ dict_of_links links seen →
  ∃ before after, links = before ++ kv.2 :: after
                  ∧ url kv.2 ∉ map url after.
Proof.
  revert kv. induction links as [|x links IH] using rev_ind; intros kv Hkv.
  { by apply elem_of_nil in Hkv. }
  destruct (dict_of_links_spec links seen) as (Hnd & Hin & _).
  rewrite dict_of_links_snoc in Hkv.
  assert (Hold : kv ∈ dict_of_links links seen → kv.1 ≠ url x →
                 ∃ before after, links ++ [x] = before ++ kv.2 :: after
                                 ∧ url kv.2 ∉ map url after).
  { intros Hkv' Hne. destruct (IH kv Hkv') as (l1 & l2 & -> & Hlast).
    exists l1, (l2 ++ [x]). split; [by rewrite <- app_assoc|].
    rewrite map_app, elem_of_app. cbn. rewrite list_elem_of_singleton.
    destruct (Hin kv Hkv') as (Hk & _ & _).
    intros [Hl|Hx]; [done|]. by rewrite <- Hk in Hx. }
  destruct (dict_has (url x) seen) eqn:Eseen.
  - apply Hold; [done|]. destruct (Hin kv Hkv) as (_ & _ & Hs).
    apply dict_has_true in Eseen. intros Heq. by rewrite Heq in Hs.
  - apply dict_set_elem_ne in Hkv as [->|[Hkv Hne]]; [|by apply Hold|done].
    exists links, []. split; [done|]. cbn. by apply not_elem_of_nil.
Qed.

Section InitSources.
Context `{Collaborators}.

(** An entry that [init] has collected under a URL of the existing index is
    an entry of the dictionary of the existing index. *)
Lemma collected_existing kv :
  ∀ w, kv ∈ collected w →
       kv.1 ∈ map fst (collected_main w) → kv ∈ collected_main w.
Proof.
  intros w Hkv Hkey.
  assert (Hstep : ∀ links (seen : Dict),
    kv ∈ dict_update seen (dict_of_links links seen) →
    (∀ k, k ∈ map fst (collected_main w) → k ∈ map fst seen) →
    kv ∈ seen).
  { intros links seen Hin Hsub. rewrite dict_update_orphans in Hin.
    apply elem_of_app in Hin as [Hin|Hin]; [done|].
    destruct (dict_of_links_spec links seen) as (_ & Hspec & _).
    destruct (Hspec kv Hin) as (_ & _ & Hnew).
    by destruct Hnew; apply Hsub. }
  assert (Hgrow : ∀ links (seen : Dict) k,
    k ∈ map fst seen →
    k ∈ map fst (dict_update seen (dict_of_links links seen))).
  { intros links seen k Hk. rewrite dict_update_orphans, map_app.
    apply elem_of_app. by left. }
  unfold collected, orphaned_data_dir in Hkv.
  apply Hstep in Hkv.
  2:{ intros k Hk. unfold collected_sql, orphaned_sql. apply Hgrow.
      unfold collected_json, orphaned_json. by apply Hgrow. }
  unfold collected_sql, orphaned_sql in Hkv. apply Hstep in Hkv.
  2:{ intros k Hk. unfold collected_json, orphaned_json. by apply Hgrow. }
  unfold collected_json, orphaned_json in Hkv. by apply Hstep in Hkv.
Qed.

End InitSources.

(** X7: when the existing main index holds several records of one URL,
    [init] writes the last of them: a written record whose URL is in the
    existing index is a record of that index after which no record of the
    same URL comes. *)
Theorem init_keeps_last_existing_record `{Collaborators}
    (w : World Outside) (rec : Link) :
  (init (start w)).2 = Returned tt →
  rec ∈ main_index (world (init (start w)).1) →
  url rec ∈ map url (existing_links w) →
  ∃ before after,
    existing_links w = before ++ rec :: after
    ∧ url rec ∉ map url after.
Proof.
  intros Hret Hrec Hurl.
  assert (Hwritten : main_index (world (init (start w)).1)
                     = dict_values (collected w))
    by (by apply init_returned_index).
  rewrite Hwritten in Hrec.
  apply elem_of_map in Hrec as (kv & <- & Hkv).
  destruct (dict_of_links_spec (existing_links w) []) as (_ & Hin0 & Hcov0).
  assert (Hconsistent : kv.1 = url kv.2).
  { destruct (orphans_spec (existing_links w) [] (NoDup_nil_2))
      as (Hnd0 & Hurl0 & _ & _).
    { intros kv' Hkv'. by apply elem_of_nil in Hkv'. }
    cbn [app] in Hnd0, Hurl0.
    destruct (orphans_spec (parse_json_main_index (seen_by_init w))
                (collected_main w) Hnd0 Hurl0) as (Hnd1 & Hurl1 & _ & _).
    rewrite <- dict_update_orphans in Hnd1, Hurl1.
    destruct (orphans_spec (parse_sql_main_index (seen_by_init w))
                (collected_json w) Hnd1 Hurl1) as (Hnd2 & Hurl2 & _ & _).
    rewrite <- dict_update_orphans in Hnd2, Hurl2.
    destruct (orphans_spec (parse_json_links_details (seen_by_init w))
                (collected_sql w) Hnd2 Hurl2) as (_ & Hurl3 & _ & _).
    rewrite <- dict_update_orphans in Hurl3.
    by apply Hurl3. }
  apply (dict_of_links_last (existing_links w) []).
  apply collected_existing; [done|].
  rewrite Hconsistent.
  apply elem_of_map in Hurl as (l & Hl & Hlin). rewrite <- Hl.
  apply Hcov0; [done|]. cbn. apply not_elem_of_nil.
Qed.

Lemma init_duplicated_returns :
  (init (H := Agreed.site) (start (H := Agreed.site) Agreed.duplicated)).2
  = Returned tt.
Proof. vm_compute. reflexivity. Qed.

Lemma init_duplicated_written :
  main_index
    (world (init (H := Agreed.site)
                 (start (H := Agreed.site) Agreed.duplicated)).1)
  = [Demo.link_a; Demo.link_b].
Proof. vm_compute. reflexivity. Qed.

Lemma init_keeps_last_existing_record_witness :
  ∃ before after,
    existing_links (H := Agreed.site) Agreed.duplicated
    = before ++ Demo.link_a :: after
    ∧ (url Demo.link_a ∉ map url after).
Proof.
  apply (init_keeps_last_existing_record (H := Agreed.site)
           Agreed.duplicated Demo.link_a).
  - exact init_duplicated_returns.
  - rewrite init_duplicated_written. apply list_elem_of_here.
  - cbn. apply list_elem_of_further, list_elem_of_further, list_elem_of_here.
Defined.

Lemma dict_of_links_distinct (links : list Link) :
  NoDup (map url links) →
  dict_of_links links [] = map (fun l => (url l, l)) links.
Proof.
  induction links as [|x links IH] using rev_ind; intros Hnd; [done|].
  rewrite map_app in Hnd. apply NoDup_app in Hnd as (Hnd & Hx & _).
  rewrite dict_of_links_snoc. cbn. rewrite IH by done.
  rewrite dict_set_fresh; [by rewrite map_app|].
  rewrite map_map. cbn. intros Hin. apply (Hx (url x) Hin). cbn. by left.
Qed.

Lemma dict_of_links_seen (links : list Link) (seen : Dict) :
  (∀ l, l ∈ links → url l ∈ map fst seen) →
  dict_of_links links seen = [].
Proof.
  induction links as [|x links IH] using rev_ind; intros Hseen; [done|].
  rewrite dict_of_links_snoc.
  assert (Hx : dict_has (url x) seen = true).
  { apply dict_has_true, Hseen, elem_of_app. right. by left. }
  rewrite Hx. apply IH. intros l Hl. apply Hseen, elem_of_app. by left.
Qed.

(** X8: on a collection that has a main index with distinct URLs and whose
    JSON index, SQL index and folders hold no other URL, [init] loads the
    index once and asks [get_invalid_folders] for the invalid folders of its
    links; when that call returns, [init] writes the index back as it is,
    with the same links in the same order, and returns; when it does not,
    [init] ends in the same way and has written nothing. *)
Theorem init_rewrites_agreed_index `{Collaborators} (w : World Outside) :
  json_index_exists w = true →
  NoDup (map url (main_index w)) →
  (∀ l, l ∈ parse_json_main_index (seen_by_init w)
          ++ parse_sql_main_index (seen_by_init w)
          ++ parse_json_links_details (seen_by_init w) →
        url l ∈ map url (main_index w)) →
  let out := init (start w) in
  main_index (world out.1) = main_index w
  ∧ match get_folders invalid (main_index w) (tree (seen_by_init w)) with
    | Returned _ =>
        out.2 = Returned tt
        ∧ calls out.1
          = [EvLoadMainIndex; EvGetFolders invalid (main_index w);
             EvWriteMainIndex (main_index w) false]
    | ended =>
        same_end ended out.2
        ∧ calls out.1
          = [EvLoadMainIndex; EvGetFolders invalid (main_index w)]
    end.
Proof.
  intros Hindex Hnd Hknown out. subst out.
  assert (Hcollected : collected w
                       = map (fun l => (url l, l)) (main_index w)).
  { assert (Hmain : collected_main w
                    = map (fun l => (url l, l)) (main_index w)).
    { unfold collected_main, existing_links. rewrite Hindex.
      by apply dict_of_links_distinct. }
    assert (Hkeys : map fst (collected_main w) = map url (main_index w)).
    { rewrite Hmain, map_map. done. }
    assert (Hjson : collected_json w = collected_main w).
    { unfold collected_json, orphaned_json.
      rewrite dict_of_links_seen; [done|].
      intros l Hl. rewrite Hkeys. apply Hknown, elem_of_app. by left. }
    assert (Hsql : collected_sql w = collected_main w).
    { unfold collected_sql, orphaned_sql. rewrite Hjson.
      rewrite dict_of_links_seen; [done|].
      intros l Hl. rewrite Hkeys. apply Hknown.
      apply elem_of_app. right. apply elem_of_app. by left. }
    unfold collected, orphaned_data_dir. rewrite Hsql.
    rewrite dict_of_links_seen; [done|].
    intros l Hl. rewrite Hkeys. apply Hknown.
    apply elem_of_app. right. apply elem_of_app. by right. }
  assert (Hvalues : dict_values (collected w) = main_index w).
  { rewrite Hcollected. unfold dict_values. rewrite map_map. cbn.
    apply map_id. }
  rewrite init_run. unfold init_proceeds. rewrite Hindex, orb_true_r.
  cbn zeta. rewrite Hvalues.
  by destruct (get_folders invalid (main_index w) (tree (seen_by_init w)))
    as [folders|code|e].
Qed.

Lemma init_rewrites_agreed_index_witness :
  (init (H := Agreed.site) (start (H := Agreed.site) Agreed.two_links)).2
  = Returned tt
  ∧ calls (init (H := Agreed.site)
                (start (H := Agreed.site) Agreed.two_links)).1
    = [EvLoadMainIndex; EvGetFolders invalid [Demo.link_a; Demo.link_b];
       EvWriteMainIndex [Demo.link_a; Demo.link_b] false].
Proof.
  refine (proj2 (init_rewrites_agreed_index (H := Agreed.site)
                   Agreed.two_links eq_refl _ _)).
  - cbn. repeat constructor; rewrite ?elem_of_cons, ?elem_of_nil;
      intros Hin; repeat destruct Hin as [Hin|Hin]; try discriminate Hin;
      done.
  - intros l Hl. cbn in Hl.
    rewrite !elem_of_cons, elem_of_nil in Hl. cbn.
    rewrite !elem_of_cons.
    destruct Hl as [->|[->|[->|[->|[->|[]]]]]]; cbn; auto.
Defined.

(** ** [list_all] *)

Section ListAllFacts.
Context `{Collaborators} `{Sorting}.

Lemma list_all_run filter_patterns_str filter_patterns filter_type status
    after before sort csv json w :
  let out := list_all filter_patterns_str filter_patterns filter_type status
                      after before sort csv json (start w) in
  let selection :=
    (list_links (list_all_patterns filter_patterns_str filter_patterns)
                (Some filter_type) after before (start w)).2 in
  let read := {| world := w; calls := [EvLoadMainIndex] |} in
  if truthy_list filter_patterns && truthy_str filter_patterns_str
  then out = (start w, SystemExit 2)
  else
    match selection with
    | Returned matching =>
        match sorted_links sort matching with
        | Returned links =>
            match recognized_status status with
            | Some st =>
                out = ({| world := w;
                          calls := [EvLoadMainIndex; EvGetFolders st links] |},
                       match get_folders st links (tree w) with
                       | Returned folders =>
                           SystemExit (if list_is_empty folders then 1 else 0)
                       | SystemExit code => SystemExit code
                       | Raised e => Raised e
                       end)
            | None =>
                ∃ e, out = (read, Raised e)
                     ∧ (e = ValueError "Status not recognized."
                        ∨ ∃ param, e = TypeError param)
            end
        | SystemExit code => out = (read, SystemExit code)
        | Raised e => out = (read, Raised e)
        end
    | SystemExit code => out = (read, SystemExit code)
    | Raised e => out = (read, Raised e)
    end.
Proof.
  destruct w as [idx t].
  unfold list_all, list_all_patterns, sorted_links, sorted, start.
  unfold_steps. cbn.
  assert (Hraised : ∀ (e : exn) (r : Run),
    e = ValueError "Status not recognized." ∨ (∃ param, e = TypeError param) →
    ∃ e', (r, @Raised (list Link) e) = (r, Raised e')
          ∧ (e' = ValueError "Status not recognized."
             ∨ ∃ param, e' = TypeError param))
    by (intros e r He; by exists e).
  destruct (truthy_list filter_patterns);
    destruct (truthy_str filter_patterns_str); cbn; try reflexivity;
    (destruct (list_of (list_links_loop _ _ _ _ _)) as [matching|code|e]; cbn;
     [|reflexivity..]);
    (destruct (truthy_str sort); cbn;
     [destruct (String.eqb (the_str sort) "url"); cbn;
      [|destruct (String.eqb (the_str sort) "timestamp"); cbn;
        [|destruct (sorted_by_attr (the_str sort) _) as [links|code|e]; cbn;
          [|reflexivity..]]]|]);
    (destruct status as [s|]; cbn;
     [destruct (recognized_status (Some s)); cbn;
      [by destruct (get_folders _ _ _) as [folders|code|e]
      |apply Hraised; by left]
     |destruct enforce_types; cbn; apply Hraised; [right; by eexists|by left]]).
Qed.

End ListAllFacts.

(** X9: [list_all] never returns: it ends by [SystemExit] or by an
    exception; it makes no call but reads of the index and the look at the
    folders of [list_folders], and leaves the collection as it found it. *)
Theorem list_all_only_reads `{Collaborators} `{Sorting}
    (filter_patterns_str : option string)
    (filter_patterns : option (list string)) (filter_type : string)
    (status : option string) (after before : option Float)
    (sort csv json : option string) (w : World Outside) :
  (∀ links,
     (list_all filter_patterns_str filter_patterns filter_type status
               after before sort csv json (start w)).2 ≠ Returned links)
  ∧ world (list_all filter_patterns_str filter_patterns filter_type status
                    after before sort csv json (start w)).1 = w
  ∧ Forall (fun ev => ev = EvLoadMainIndex
                      ∨ ∃ st links, ev = EvGetFolders st links)
           (calls (list_all filter_patterns_str filter_patterns filter_type
                            status after before sort csv json (start w)).1).
Proof.
  pose proof (list_all_run filter_patterns_str filter_patterns filter_type
                           status after before sort csv json w) as Hrun.
  cbn zeta in Hrun.
  destruct (truthy_list filter_patterns && truthy_str filter_patterns_str).
  { rewrite Hrun. cbn. repeat split; [done|constructor]. }
  assert (Hread : ∀ ended,
    (∀ links, ended ≠ Returned links) →
    list_all filter_patterns_str filter_patterns filter_type status after
             before sort csv json (start w)
    = ({| world := w; calls := [EvLoadMainIndex] |}, ended) →
    (∀ links,
       (list_all filter_patterns_str filter_patterns filter_type status
                 after before sort csv json (start w)).2 ≠ Returned links)
    ∧ world (list_all filter_patterns_str filter_patterns filter_type status
                      after before sort csv json (start w)).1 = w
    ∧ Forall (fun ev => ev = EvLoadMainIndex
                        ∨ ∃ st links, ev = EvGetFolders st links)
             (calls (list_all filter_patterns_str filter_patterns
                              filter_type status after before sort csv json
                              (start w)).1)).
  { intros ended Hended ->. cbn. split; [done|]. split; [done|].
    constructor; [by left|constructor]. }
  destruct (list_links _ _ _ _ _).2 as [matching|code|e];
    [|by apply (Hread (SystemExit code))|by apply (Hread (Raised e))].
  destruct (sorted_links sort matching) as [links|code|e];
    [|by apply (Hread (SystemExit code))|by apply (Hread (Raised e))].
  destruct (recognized_status status) as [st|].
  - rewrite Hrun. cbn. split; [|split; [done|]].
    + intros links'. by destruct (get_folders _ _ _) as [folders|code|e].
    + constructor; [by left|].
      constructor; [right; by eexists _, _|constructor].
  - destruct Hrun as (e & Hrun & _). by apply (Hread (Raised e)).
Qed.

(** X10: when its patterns do not conflict, the filter gives a selection
    and the sorting step gives [links], [list_all] with one of the ten
    folder states hands exactly [links] to the folder classification and,
    when that returns, ends by [SystemExit] with status 1 when no folder
    comes back and status 0 otherwise (it ends as the classification does
    when that does not return); with any other status, the default [None]
    included, it ends by an exception without classifying. *)
Theorem list_all_exit_status `{Collaborators} `{Sorting}
    (filter_patterns_str : option string)
    (filter_patterns : option (list string)) (filter_type : string)
    (status : option string) (after before : option Float)
    (sort csv json : option string) (w : World Outside)
    (selection links : list Link) :
  truthy_list filter_patterns && truthy_str filter_patterns_str = false →
  (list_links (list_all_patterns filter_patterns_str filter_patterns)
              (Some filter_type) after before (start w)).2
  = Returned selection →
  sorted_links sort selection = Returned links →
  (∀ st, recognized_status status = Some st →
         (list_all filter_patterns_str filter_patterns filter_type status
                   after before sort csv json (start w)).2
         = match get_folders st links (tree w) with
           | Returned folders =>
               SystemExit (if list_is_empty folders then 1 else 0)
           | SystemExit code => SystemExit code
           | Raised e => Raised e
           end
         ∧ classified
             (calls (list_all filter_patterns_str filter_patterns
                              filter_type status after before sort csv json
                              (start w)).1) = [links])
  ∧ (recognized_status status = None →
     (∃ e, (list_all filter_patterns_str filter_patterns filter_type status
                     after before sort csv json (start w)).2 = Raised e)
     ∧ classified
         (calls (list_all filter_patterns_str filter_patterns filter_type
                          status after before sort csv json (start w)).1)
       = []).
Proof.
  intros Hconflict Hselection Hsorted.
  pose proof (list_all_run filter_patterns_str filter_patterns filter_type
                           status after before sort csv json w) as Hrun.
  cbn zeta in Hrun. rewrite Hconflict, Hselection, Hsorted in Hrun.
  split.
  - intros st Hst. rewrite Hst in Hrun. by rewrite Hrun.
  - intros Hst. rewrite Hst in Hrun. destruct Hrun as (e & -> & _).
    split; [by exists e|done].
Qed.

Lemma by_timestamp_selection :
  (list_links (H := Demo.site) (list_all_patterns None None) (Some "exact")
              None None (start (H := Demo.site) Listing.two_links)).2
  = Returned [Listing.link_old; Listing.link_new].
Proof. vm_compute. reflexivity. Qed.

Lemma by_timestamp_sorted :
  sorted_links (H0 := Listing.sorting) (Some "timestamp")
               [Listing.link_old; Listing.link_new]
  = Returned [Listing.link_new; Listing.link_old].
Proof. vm_compute. reflexivity. Qed.

Lemma list_all_exit_status_witness :
  (Listing.by_timestamp).2 = SystemExit 0
  ∧ classified (calls (Listing.by_timestamp).1)
    = [[Listing.link_new; Listing.link_old]].
Proof.
  exact (proj1 (list_all_exit_status (H := Demo.site) (H0 := Listing.sorting)
                  None None "exact" (Some "indexed") None None
                  (Some "timestamp") None None Listing.two_links
                  [Listing.link_old; Listing.link_new]
                  [Listing.link_new; Listing.link_old]
                  eq_refl by_timestamp_selection by_timestamp_sorted)
               indexed eq_refl).
Defined.

(** ** Sorting by a string field *)

Lemma leb_refl (s : string) : String.leb s s = true.
Proof. by destruct (String.leb_total s s). Qed.

Lemma insert_by_perm key x l : insert_by key x l ≡ₚ x :: l.
Proof.
  induction l as [|y l IH]; cbn; [done|].
  destruct (String.leb (key x) (key y)); [done|].
  rewrite IH. apply Permutation_swap.
Qed.

Lemma insert_by_sorted key x l :
  Sorted (key_le key) l → Sorted (key_le key) (insert_by key x l).
Proof.
  induction l as [|y l IH]; cbn; intros Hs.
  - by repeat constructor.
  - destruct (String.leb (key x) (key y)) eqn:E.
    + constructor; [done|]. by constructor.
    + apply Sorted_inv in Hs as [Hs Hhd].
      constructor; [by apply IH|].
      assert (Hyx : key_le key y x).
      { unfold key_le. destruct (String.leb_total (key x) (key y)); congruence. }
      destruct l as [|z l]; cbn; [by constructor|].
      destruct (String.leb (key x) (key z)); constructor; [done|].
      by apply HdRel_inv in Hhd.
Qed.

Lemma insert_by_same_key key x l k :
  List.filter (fun l => String.eqb (key l) k) (insert_by key x l)
  = List.filter (fun l => String.eqb (key l) k) (x :: l).
Proof.
  induction l as [|y l IH]; [done|].
  cbn [insert_by]. destruct (String.leb (key x) (key y)) eqn:E; [done|].
  cbn [List.filter] in IH |- *. rewrite IH.
  destruct (String.eqb (key x) k) eqn:Ex; [|done].
  destruct (String.eqb (key y) k) eqn:Ey; [|done].
  apply String.eqb_eq in Ex, Ey. rewrite Ex, Ey, leb_refl in E. done.
Qed.

Lemma sorted_by_spec key links :
  sorted_by key links ≡ₚ links
  ∧ Sorted (key_le key) (sorted_by key links)
  ∧ ∀ k, List.filter (fun l => String.eqb (key l) k) (sorted_by key links)
         = List.filter (fun l => String.eqb (key l) k) links.
Proof.
  induction links as [|x links (IHp & IHs & IHk)]; cbn.
  - split; [done|]. split; [constructor|done].
  - split; [|split].
    + by rewrite insert_by_perm, IHp.
    + by apply insert_by_sorted.
    + intros k. rewrite insert_by_same_key. cbn. by rewrite IHk.
Qed.

(** X11: [list_all] with [sort] set to [url] or [timestamp] and one of the
    ten folder states hands the folder classification the links that the
    filter selected, rearranged in ascending order of that field compared as
    text (so the timestamp 1000 comes before 999), links with equal fields
    keeping the order of the index. *)
Theorem list_all_sorts_as_text `{Collaborators} `{Sorting}
    (filter_patterns_str : option string)
    (filter_patterns : option (list string)) (filter_type : string)
    (status : option string) (after before : option Float)
    (name : string) (key : Link → string) (csv json : option string)
    (w : World Outside) (st : FolderStatus) (selection : list Link) :
  truthy_list filter_patterns && truthy_str filter_patterns_str = false →
  recognized_status status = Some st →
  (name = "url" ∧ key = url) ∨ (name = "timestamp" ∧ key = timestamp) →
  (list_links (list_all_patterns filter_patterns_str filter_patterns)
              (Some filter_type) after before (start w)).2
  = Returned selection →
  ∃ links,
    classified
      (calls (list_all filter_patterns_str filter_patterns filter_type
                       status after before (Some name) csv json
                       (start w)).1) = [links]
    ∧ links ≡ₚ selection
    ∧ Sorted (key_le key) links
    ∧ ∀ k, List.filter (fun l => String.eqb (key l) k) links
           = List.filter (fun l => String.eqb (key l) k) selection.
Proof.
  intros Hconflict Hst Hkey Hselection.
  exists (sorted_by key selection).
  destruct (sorted_by_spec key selection) as (Hperm & Hsorted & Hstable).
  split; [|done].
  pose proof (list_all_run filter_patterns_str filter_patterns filter_type
                           status after before (Some name) csv json w)
    as Hrun.
  cbn zeta in Hrun. rewrite Hconflict, Hselection, Hst in Hrun.
  assert (Hs : sorted_links (Some name) selection
               = Returned (sorted_by key selection)).
  { by destruct Hkey as [[-> ->]|[-> ->]]. }
  rewrite Hs in Hrun. by rewrite Hrun.
Qed.

Lemma list_all_sorts_as_text_witness :
  ∃ links,
    classified (calls (Listing.by_timestamp).1) = [links]
    ∧ Sorted (key_le timestamp) links.
Proof.
  destruct (list_all_sorts_as_text (H := Demo.site) (H0 := Listing.sorting)
              None None "exact" (Some "indexed") None None "timestamp"
              timestamp None None Listing.two_links indexed
              [Listing.link_old; Listing.link_new]
              eq_refl eq_refl (or_intror (conj eq_refl eq_refl))
              by_timestamp_selection)
    as (links & Hclassified & _ & Hsorted & _).
  exists links. split; [exact Hclassified|exact Hsorted].
Defined.

(** ** [config] *)

Section ConfigFacts.
Context `{Configuration}.

Lemma config_run config_options_str config_options get set reset r :
  let out := config config_options_str config_options get set reset r in
  let options :=
    if truthy_list config_options then the_list config_options else [] in
  if truthy_list config_options && truthy_str config_options_str
  then out = (r, SystemExit 2)
  else if truthy_str config_options_str
  then out = (r, Raised (OtherError "NameError"))
  else if get
          || negb (get || set || reset || negb (list_is_empty options))
  then config_writes out.1 = config_writes r
       ∧ (∀ u, out.2 ≠ Returned u)
       ∧ (if list_is_empty options
          then out = ({| config_file := config_file r;
                         printed := printed r
                                    ++ [printable_config CONFIG ""];
                         config_writes := config_writes r |},
                      SystemExit (if list_is_empty CONFIG then 1 else 0))
          else if list_is_empty
                    (List.filter (fun key => negb (adict_has key CONFIG))
                                 (map get_real_name options))
          then out = ({| config_file := config_file r;
                         printed :=
                           printed r
                           ++ [printable_config
                                 (matching_options
                                    (map get_real_name options)) ""];
                         config_writes := config_writes r |},
                      SystemExit
                        (if list_is_empty
                              (matching_options (map get_real_name options))
                         then 1 else 0))
          else out = (r, SystemExit 1))
  else if set
  then match config_set_lines options [] [] with
       | Returned (new_config, failed_options) =>
           (∀ u, out.2 ≠ Returned u)
           ∧ if list_is_empty new_config
             then out = (r, SystemExit
                              (if list_is_empty failed_options
                               then 0 else 1))
             else config_writes out.1 = config_writes r ++ [new_config]
       | SystemExit code => out = (r, SystemExit code)
       | Raised e => out = (r, Raised e)
       end
  else out = (r, SystemExit 2).
Proof.
  destruct r as [f pr ws].
  unfold config, st_result, print, call_write_config_file,
    call_load_all_config.
  unfold mbind, ST_bind, mret, ST_ret. cbn.
  destruct (truthy_list config_options && truthy_str config_options_str);
    [reflexivity|].
  destruct (truthy_str config_options_str); [reflexivity|]. cbn.
  set (options := if truthy_list config_options
                  then the_list config_options else []).
  destruct (get || negb (get || set || reset
                         || negb (list_is_empty options))) eqn:Eget.
  - destruct (list_is_empty options); cbn.
    + repeat split; done.
    + destruct (list_is_empty (List.filter _ _)); cbn; repeat split; done.
  - destruct set; [|by destruct reset].
    destruct (config_set_lines options [] [])
      as [[new_config failed_options]|code|e]; cbn; [|reflexivity..].
    destruct (list_is_empty new_config) eqn:Enew; cbn.
    + split; done.
    + destruct (write_config_file new_config f) as [f1 [matching|code|e]];
        cbn; [|split; done..].
      destruct (load_all_config f1) as [f2 [after|code|e]];
        cbn; [|split; done..].
      destruct (side_effect_changes after matching [])
        as [changes|code|e]; cbn; [|split; done..].
      destruct (list_is_empty changes); cbn; split; done.
Qed.

End ConfigFacts.

(** X12: [config] with an option text and no option list always ends by a
    [NameError], whatever its flags: the branch reads [stdin_raw_text], a
    name that the module never defines; nothing is printed and nothing is
    written. *)
Theorem config_text_raises_name_error `{Configuration}
    (config_options_str : option string)
    (config_options : option (list string)) (get set reset : bool)
    (r : ConfigRun) :
  truthy_str config_options_str = true →
  truthy_list config_options = false →
  config config_options_str config_options get set reset r
  = (r, Raised (OtherError "NameError")).
Proof.
  intros Hs Hl.
  pose proof (config_run config_options_str config_options get set reset r)
    as Hrun.
  cbn zeta in Hrun. by rewrite Hl, Hs in Hrun.
Qed.

Lemma config_text_raises_name_error_witness :
  config (H := Settings.configuration) (Some "TIMEOUT=90") None
         false true false (config_start (H := Settings.configuration) [])
  = (config_start (H := Settings.configuration) [],
     Raised (OtherError "NameError")).
Proof.
  exact (config_text_raises_name_error (H := Settings.configuration)
           (Some "TIMEOUT=90") None false true false
           (config_start (H := Settings.configuration) []) eq_refl eq_refl).
Defined.

(** X13: [config] never returns: every run ends by [SystemExit] or by an
    exception.  It calls [write_config_file] at most once, and only with
    [set] and without [get], after its loop has gone through every line
    and has found an option to set. *)
Theorem config_writes_after_all_lines `{Configuration}
    (config_options_str : option string)
    (config_options : option (list string)) (get set reset : bool)
    (r : ConfigRun) :
  (∀ u, (config config_options_str config_options get set reset r).2
        ≠ Returned u)
  ∧ (config_writes
       (config config_options_str config_options get set reset r).1
     = config_writes r
     ∨ ∃ new_config failed_options,
         get = false ∧ set = true
         ∧ config_set_lines (the_list config_options) [] []
           = Returned (new_config, failed_options)
         ∧ new_config ≠ []
         ∧ config_writes
             (config config_options_str config_options get set reset r).1
           = config_writes r ++ [new_config]).
Proof.
  pose proof (config_run config_options_str config_options get set reset r)
    as Hrun.
  cbn zeta in Hrun.
  destruct (truthy_list config_options && truthy_str config_options_str).
  { rewrite Hrun. split; [done|by left]. }
  destruct (truthy_str config_options_str).
  { rewrite Hrun. split; [done|by left]. }
  destruct (get || negb (get || set || reset || _)) eqn:Eget.
  { destruct Hrun as (Hw & Hno & _). split; [done|by left]. }
  destruct set; [|rewrite Hrun; split; [done|by left]].
  destruct get; [done|].
  destruct (truthy_list config_options) eqn:El.
  - destruct (config_set_lines (the_list config_options) [] [])
      as [[new_config failed_options]|code|e] eqn:Eparse;
      [|rewrite Hrun; split; [done|by left]..].
    destruct Hrun as (Hno & Hrun). split; [done|].
    destruct new_config as [|kv new_config]; cbn in Hrun.
    + rewrite Hrun. by left.
    + right. by exists (kv :: new_config), failed_options.
  - cbn in Hrun. destruct Hrun as (Hno & ->). split; [done|by left].
Qed.

Lemma split_char_length (c : ascii) (s : string) :
  length (split_char c s) = S (count_char c s).
Proof.
  induction s as [|c' s IH]; [done|]. cbn.
  destruct (Ascii.eqb c' c); cbn; [by rewrite IH|].
  destruct (split_char c s); cbn in *; done.
Qed.

Lemma contains_char_count (c : ascii) (s : string) :
  contains_char c s = negb (Nat.eqb (count_char c s) 0).
Proof.
  induction s as [|c' s IH]; [done|]. cbn.
  by destruct (Ascii.eqb c' c).
Qed.

Section ConfigLines.
Context `{Configuration}.

Lemma config_set_lines_malformed (lines : list string) (line : string) :
  line ∈ lines → effective line → count_char "=" line ≠ 1 →
  ∀ new_config failed_options,
    config_set_lines lines new_config failed_options = SystemExit 2
    ∨ config_set_lines lines new_config failed_options
      = Raised (ValueError "too many values to unpack (expected 2)").
Proof.
  intros Hin [Hcomment Hblank] Hcount.
  induction lines as [|first rest IH]; intros new_config failed_options.
  { by apply elem_of_nil in Hin. }
  cbn [config_set_lines].
  apply elem_of_cons in Hin as [<-|Hin].
  - rewrite Hcomment, Hblank. cbn.
    rewrite contains_char_count.
    destruct (count_char "=" line) as [|[|n]] eqn:En; cbn; [by left|done|].
    right.
    pose proof (split_char_length "=" line) as Hlen. rewrite En in Hlen.
    by destruct (split_char "=" line) as [|p1 [|p2 [|p3 ps]]].
  - destruct (startswith_char "#" first || str_is_empty (strip first));
      [by apply IH|].
    destruct (negb (contains_char "=" first)); [by left|].
    destruct (split_char "=" first) as [|p1 [|p2 [|p3 ps]]];
      try (by right).
    destruct (adict_has _ CONFIG); by apply IH.
Qed.

End ConfigLines.

(** X14: when one of the lines given to [config --set] is neither a comment
    nor blank and has no equals sign, or more than one (a value that itself
    holds an equals sign), [config] sets nothing, not even the options of
    the well-formed lines: it ends by [SystemExit(2)] or by the
    [ValueError] of the unpacking, and has neither written nor printed. *)
Theorem config_set_rejects_malformed_line `{Configuration}
    (config_options : list string) (reset : bool) (r : ConfigRun)
    (line : string) :
  line ∈ config_options →
  startswith_char "#" line = false →
  str_is_empty (strip line) = false →
  count_char "=" line ≠ 1 →
  (config None (Some config_options) false true reset r
   = (r, SystemExit 2)
   ∨ config None (Some config_options) false true reset r
     = (r, Raised (ValueError "too many values to unpack (expected 2)"))).
Proof.
  intros Hin Hcomment Hblank Hcount.
  pose proof (config_run None (Some config_options) false true reset r)
    as Hrun.
  cbn zeta in Hrun.
  destruct config_options as [|l0 ls]; [by apply elem_of_nil in Hin|].
  cbn in Hrun.
  destruct (config_set_lines_malformed (l0 :: ls) line Hin
              (conj Hcomment Hblank) Hcount [] []) as [Hbad|Hbad];
    cbn in Hbad; rewrite Hbad in Hrun; [by left|by right].
Qed.

Lemma config_set_rejects_malformed_line_witness :
  config_writes (Settings.set_url).1 = []
  ∧ (Settings.set_url).2
    = Raised (ValueError "too many values to unpack (expected 2)").
Proof.
  destruct (config_set_rejects_malformed_line (H := Settings.configuration)
              ["TIMEOUT=60"; "ONLY_NEW=a=b"] false
              (config_start (H := Settings.configuration) [])
              "ONLY_NEW=a=b")
    as [Hexit|Hraise].
  - apply list_elem_of_further, list_elem_of_here.
  - reflexivity.
  - reflexivity.
  - cbn. discriminate.
  - exfalso.
    assert (Hend : (Settings.set_url).2 = SystemExit 2)
      by (unfold Settings.set_url; by rewrite Hexit).
    vm_compute in Hend. discriminate Hend.
  - unfold Settings.set_url. rewrite Hraise. by split.
Defined.

Section ConfigGet.
Context `{Configuration}.

Lemma adict_set_not_empty {V} k (v : V) d : adict_set k v d ≠ [].
Proof. destruct d as [|[k' v'] d]; cbn; [done|]. by destruct (String.eqb k' k). Qed.

Lemma matching_options_snoc (options : list string) (key : string) :
  matching_options (options ++ [key])
  = match adict_get key CONFIG with
    | Some val => adict_set key val (matching_options options)
    | None => matching_options options
    end.
Proof. unfold matching_options. by rewrite fold_left_app. Qed.

End ConfigGet.

(** X15: [config --get] with a list of options prints nothing and ends by
    [SystemExit(1)] as soon as one of them, under its real name, is not an
    option of [CONFIG], even when the others are; when all of them are, it
    prints once, writes nothing and ends with status 0. *)
Theorem config_get_needs_known_options `{Configuration}
    (config_options : list string) (set reset : bool) (r : ConfigRun) :
  config_options ≠ [] →
  ((∃ key, key ∈ config_options
           ∧ adict_has (get_real_name key) CONFIG = false) →
   config None (Some config_options) true set reset r = (r, SystemExit 1))
  ∧ ((∀ key, key ∈ config_options →
             adict_has (get_real_name key) CONFIG = true) →
     (config None (Some config_options) true set reset r).2 = SystemExit 0
     ∧ printed (config None (Some config_options) true set reset r).1
       = printed r
         ++ [printable_config
               (matching_options (map get_real_name config_options)) ""]
     ∧ config_writes (config None (Some config_options) true set reset r).1
       = config_writes r).
Proof.
  intros Hsome.
  pose proof (config_run None (Some config_options) true set reset r)
    as Hrun.
  cbn zeta in Hrun.
  remember (config None (Some config_options) true set reset r) as out
    eqn:Eout.
  clear Eout.
  destruct config_options as [|k0 ks]; [done|].
  lazy beta iota zeta delta [truthy_list truthy_str andb orb the_list]
    in Hrun.
  destruct Hrun as (_ & _ & Hrun).
  change (list_is_empty (k0 :: ks)) with false in Hrun.
  lazy beta iota in Hrun.
  set (options := k0 :: ks) in *.
  split.
  - intros (key & Hin & Hunknown).
    destruct (List.filter (fun key => negb (adict_has key CONFIG))
                          (map get_real_name options)) as [|bad bads] eqn:Ef;
      [|exact Hrun].
    exfalso.
    assert (Hbad : In (get_real_name key)
                      (List.filter (fun key => negb (adict_has key CONFIG))
                                   (map get_real_name options))).
    { apply filter_In. split; [|by rewrite Hunknown].
      apply in_map. by apply list_elem_of_In. }
    by rewrite Ef in Hbad.
  - intros Hknown.
    assert (Hnone : List.filter (fun key => negb (adict_has key CONFIG))
                                (map get_real_name options) = []).
    { clearbody options. clear Hrun Hsome.
      induction options as [|k ks' IH]; [done|]. cbn.
      rewrite (Hknown k) by (by left). cbn. apply IH.
      intros key Hin. apply Hknown. by right. }
    rewrite Hnone in Hrun.
    change (list_is_empty (@nil string)) with true in Hrun.
    lazy beta iota in Hrun.
    assert (Hmatch : matching_options (map get_real_name options) ≠ []).
    { subst options.
      destruct (exists_last (l := k0 :: ks)) as (front & last & Heq);
        [done|].
      rewrite Heq in Hknown |- *. rewrite map_app. cbn. rewrite matching_options_snoc.
      assert (Hlast : adict_has (get_real_name last) CONFIG = true)
        by (apply Hknown, elem_of_app; right; by left).
      unfold adict_has in Hlast.
      destruct (adict_get (get_real_name last) CONFIG); [|done].
      apply adict_set_not_empty. }
    rewrite Hrun.
    destruct (matching_options (map get_real_name options)) eqn:Em; [done|].
    split; [reflexivity|]. split; reflexivity.
Qed.

Lemma config_get_needs_known_options_witness :
  config (H := Settings.configuration) None (Some ["TIMEOUT"; "COLOR"])
         true false false (config_start (H := Settings.configuration) [])
  = (config_start (H := Settings.configuration) [], SystemExit 1).
Proof.
  refine (proj1 (config_get_needs_known_options (H := Settings.configuration)
                   ["TIMEOUT"; "COLOR"] false false
                   (config_start (H := Settings.configuration) []) _) _).
  - discriminate.
  - exists "COLOR". split; [|reflexivity].
    apply list_elem_of_further, list_elem_of_here.
Defined.

(** ** [printable_config] *)

Lemma split_newline_line (s t : string) :
  contains_char "010" s = false →
  split_newline (s +:+ String "010" t) = s :: split_newline t.
Proof.
  induction s as [|c s IH]; intros Hs.
  - reflexivity.
  - cbn [contains_char] in Hs. apply orb_false_iff in Hs as [Hc Hs].
    change (String c s +:+ String "010" t)
      with (String c (s +:+ String "010" t)).
    cbn [split_newline]. rewrite Hc, (IH Hs). reflexivity.
Qed.

Lemma split_newline_plain (s : string) :
  contains_char "010" s = false → split_newline s = [s].
Proof.
  induction s as [|c s IH]; intros Hs; [reflexivity|].
  cbn [contains_char] in Hs. apply orb_false_iff in Hs as [Hc Hs].
  cbn [split_newline]. rewrite Hc, (IH Hs). reflexivity.
Qed.

Lemma split_newline_concat (lines : list string) :
  lines ≠ [] →
  (∀ line, line ∈ lines → contains_char "010" line = false) →
  split_newline (String.concat (String "010" EmptyString) lines) = lines.
Proof.
  induction lines as [|line lines IH]; [done|]. intros _ Hplain.
  destruct lines as [|next lines].
  - cbn. apply split_newline_plain, Hplain. by left.
  - change (String.concat (String "010" "") (line :: next :: lines))
      with (line +:+ String "010"
                       (String.concat (String "010" "") (next :: lines))).
    rewrite split_newline_line by (apply Hplain; by left).
    f_equal. apply IH; [done|]. intros l Hl. apply Hplain. by right.
Qed.

(** X16: [printable_config] leaves out the options whose value is a
    dictionary or a callable and gives the empty text when no other option
    is there; without a prefix, and when no shown line holds a newline, the
    lines of its text are the lines [key=value] of the other options, in
    the order of the dictionary. *)
Theorem printable_config_lines `{Configuration}
    (config : list (string * Value)) (prefix : string) :
  (List.filter (fun kv => negb (is_dict_or_callable kv.2)) config = [] →
   printable_config config prefix = "")
  ∧ (List.filter (fun kv => negb (is_dict_or_callable kv.2)) config ≠ [] →
     (∀ kv, kv ∈ config → is_dict_or_callable kv.2 = false →
            contains_char "010" (config_line kv) = false) →
     split_newline (printable_config config "")
     = map config_line
           (List.filter (fun kv => negb (is_dict_or_callable kv.2)) config)).
Proof.
  unfold printable_config. split.
  - intros ->. reflexivity.
  - intros Hsome Hplain. apply split_newline_concat.
    + destruct (List.filter _ config); [done|]. discriminate.
    + intros line Hline. apply elem_of_map in Hline as (kv & <- & Hkv).
      rewrite list_elem_of_In, filter_In, <- list_elem_of_In in Hkv.
      destruct Hkv as [Hin Hshown]. apply Hplain; [done|].
      by apply negb_true_iff.
Qed.

Lemma printable_config_lines_witness :
  split_newline
    (printable_config (H := Settings.configuration)
                      (CONFIG (Configuration := Settings.configuration)) "")
  = ["TIMEOUT=60"; "ONLY_NEW=False"].
Proof.
  refine (proj2 (printable_config_lines (H := Settings.configuration)
                   (CONFIG (Configuration := Settings.configuration)) "")
                _ _).
  - discriminate.
  - intros kv Hkv Hshown. cbn in Hkv.
    rewrite !elem_of_cons, elem_of_nil in Hkv.
    destruct Hkv as [->|[->|[->|[]]]]; [reflexivity|discriminate Hshown
                                        |reflexivity].
Defined.

(** ** [config --set] with options that [CONFIG] does not have *)

Lemma adict_has_set {V} (key k : string) (v : V) (d : list (string * V)) :
  adict_has key (adict_set k v d) = String.eqb k key || adict_has key d.
Proof.
  unfold adict_has.
  induction d as [|[k' v'] d IH]; cbn.
  - by destruct (String.eqb k key).
  - destruct (String.eqb k' k) eqn:Ek; cbn.
    + apply String.eqb_eq in Ek as ->.
      by destruct (String.eqb k key).
    + destruct (String.eqb k' key) eqn:Ekey; cbn; [|exact IH].
      by rewrite orb_true_r.
Qed.

Section ConfigSet.
Context `{Configuration}.

Lemma config_set_lines_wellformed (lines : list string) :
  (∀ line, line ∈ lines → effective line → count_char "=" line = 1) →
  ∀ new_config failed_options,
    config_set_lines lines new_config failed_options
    = Returned
        (fold_left
           (fun d line => adict_set (option_key line) (option_value line) d)
           (List.filter names_option lines) new_config,
         failed_options ++ List.filter names_no_option lines).
Proof.
  induction lines as [|line lines IH]; intros Hwell new_config failed_options.
  { cbn. by rewrite app_nil_r. }
  assert (∀ l, l ∈ lines → effective l → count_char "=" l = 1) as Hrest.
  { intros l Hl. apply Hwell. by right. }
  cbn [config_set_lines List.filter].
  destruct (startswith_char "#" line || str_is_empty (strip line)) eqn:Eskip.
  { assert (names_option line = false) as ->.
    { unfold names_option, is_effective. by rewrite Eskip. }
    assert (names_no_option line = false) as ->.
    { unfold names_no_option, is_effective. by rewrite Eskip. }
    by apply IH. }
  assert (is_effective line = true) as Heffective.
  { unfold is_effective. by rewrite Eskip. }
  apply orb_false_iff in Eskip as [Hcomment Hblank].
  pose proof (Hwell line (list_elem_of_here _ _) (conj Hcomment Hblank))
    as Hcount.
  rewrite contains_char_count, Hcount. cbn [Nat.eqb negb].
  pose proof (split_char_length "=" line) as Hlen. rewrite Hcount in Hlen.
  destruct (split_char "=" line) as [|raw_key [|val [|more pieces]]]
    eqn:Hsplit; try discriminate Hlen.
  assert (option_key line = get_real_name (strip (upper raw_key))) as Hkey.
  { unfold option_key. by rewrite Hsplit. }
  assert (option_value line = strip val) as Hval.
  { unfold option_value. by rewrite Hsplit. }
  assert (names_option line
          = adict_has (get_real_name (strip (upper raw_key))) CONFIG) as ->.
  { unfold names_option. by rewrite Heffective, Hkey. }
  assert (names_no_option line
          = negb (adict_has (get_real_name (strip (upper raw_key))) CONFIG))
    as ->.
  { unfold names_no_option. by rewrite Heffective, Hkey. }
  destruct (adict_has _ CONFIG); cbn [negb fold_left].
  - rewrite IH by done. by rewrite Hkey, Hval.
  - rewrite IH by done. by rewrite <- app_assoc.
Qed.

Lemma adict_has_fold (lines : list string) (d : list (string * string))
    (key : string) :
  adict_has key
    (fold_left
       (fun d line => adict_set (option_key line) (option_value line) d)
       lines d) = true
  ↔ adict_has key d = true ∨ ∃ line, line ∈ lines ∧ option_key line = key.
Proof.
  revert d. induction lines as [|line lines IH]; intros d; cbn [fold_left].
  - split; [by left|]. intros [Hd|(line & Hline & _)]; [done|].
    by apply elem_of_nil in Hline.
  - rewrite IH, adict_has_set. split.
    + intros [Hd|(l & Hl & Hkey)].
      * apply orb_true_iff in Hd as [Hd|Hd]; [|by left].
        apply String.eqb_eq in Hd. right. exists line. split; [by left|done].
      * right. exists l. split; [by right|done].
    + intros [Hd|(l & Hl & Hkey)].
      * left. by rewrite Hd, orb_true_r.
      * apply elem_of_cons in Hl as [->|Hl].
        -- left. apply orb_true_iff. left. by apply String.eqb_eq.
        -- right. by exists l.
Qed.

(** X27: when every line given to [config --set] that is neither a comment
    nor blank has exactly one equals sign, a line that names no option of
    [CONFIG] does not stop the others: if no line names an option,
    [config] writes nothing and ends with status 1 when some line names
    none, and with status 0 otherwise; if some line does, it calls
    [write_config_file] once, with a dictionary whose keys are the options
    that the lines name. *)
Theorem config_set_skips_unknown_options
    (lines : list string) (reset : bool) (r : ConfigRun) :
  (∀ line, line ∈ lines → effective line → count_char "=" line = 1) →
  let out := config None (Some lines) false true reset r in
  (List.filter names_option lines = [] →
   out = (r, SystemExit
               (if list_is_empty (List.filter names_no_option lines)
                then 0 else 1)))
  ∧ (List.filter names_option lines ≠ [] →
     ∃ new_config,
       config_writes out.1 = config_writes r ++ [new_config]
       ∧ ∀ key, adict_has key new_config = true
                ↔ ∃ line, line ∈ List.filter names_option lines
                          ∧ option_key line = key).
Proof.
  intros Hwell out. subst out.
  pose proof (config_run None (Some lines) false true reset r) as Hrun.
  cbn zeta in Hrun.
  remember (config None (Some lines) false true reset r) as out eqn:Hout.
  lazy beta iota zeta delta [truthy_list truthy_str andb orb the_list negb]
    in Hrun.
  assert ((if match lines with [] => false | _ :: _ => true end
           then lines else []) = lines) as Hlines by (by destruct lines).
  rewrite Hlines in Hrun.
  rewrite (config_set_lines_wellformed lines Hwell [] []) in Hrun.
  cbn [app] in Hrun.
  assert ((if match lines with [] => false | _ :: _ => true end
           then false else false) = false) as Hnone by (by destruct lines).
  rewrite Hnone in Hrun. clear Hnone. destruct Hrun as [_ Hrun].
  split.
  - intros Hnone. rewrite Hnone in Hrun. exact Hrun.
  - intros Hsome.
    set (new_config :=
           fold_left
             (fun d line =>
                adict_set (option_key line) (option_value line) d)
             (List.filter names_option lines) []) in *.
    assert (∀ key, adict_has key new_config = true
                   ↔ ∃ line, line ∈ List.filter names_option lines
                             ∧ option_key line = key) as Hkeys.
    { intros key. unfold new_config. rewrite adict_has_fold.
      split; [|by right]. by intros [Hempty|Hline]. }
    exists new_config. split; [|exact Hkeys].
    destruct new_config as [|entry entries] eqn:Enew; [|exact Hrun].
    clear Hrun.
    exfalso. destruct (List.filter names_option lines) as [|line known];
      [done|].
    assert (adict_has (V := string) (option_key line) [] = true) as Hhas.
    { apply (proj2 (Hkeys (option_key line))). exists line.
      split; [by left|done]. }
    discriminate Hhas.
Qed.

End ConfigSet.

Lemma config_set_skips_unknown_options_witness :
  ∃ new_config,
    config_writes (Settings.set_two).1 = [] ++ [new_config]
    ∧ ∀ key, adict_has key new_config = true
             ↔ ∃ line,
                 line ∈ List.filter
                          (names_option (H := Settings.configuration))
                          ["timeout = 90"; "# a comment"; "COLOR=blue"]
                 ∧ option_key (H := Settings.configuration) line = key.
Proof.
  refine (proj2 (config_set_skips_unknown_options
                   (H := Settings.configuration)
                   ["timeout = 90"; "# a comment"; "COLOR=blue"] false
                   (config_start (H := Settings.configuration) []) _) _).
  - intros line Hline [Hcomment Hblank].
    rewrite !elem_of_cons, elem_of_nil in Hline.
    destruct Hline as [->|[->|[->|[]]]];
      [reflexivity|discriminate Hcomment|reflexivity].
  - vm_compute. discriminate.
Defined.

(** ** [dedupe_jobs] and [schedule] *)

Section ScheduleFacts.
Context `{Cron}.

Lemma on_new_job_snoc (f : Job -> Job) (jobs : list Job) (job : Job) :
  on_new_job f (jobs ++ [job]) = jobs ++ [f job].
Proof.
  unfold on_new_job. rewrite reverse_app, reverse_singleton.
  change ([job] ++ reverse jobs) with (job :: reverse jobs).
  cbv beta iota. by rewrite reverse_involutive.
Qed.

Lemma dedupe_loop_table (todo : list Job) (deduped : list (string * string)) :
  (dedupe_loop todo todo deduped).1 = [].
Proof.
  revert deduped. induction todo as [|job todo IH]; intros deduped; [done|].
  cbn [dedupe_loop cron_remove]. rewrite decide_True by done. apply IH.
Qed.

Lemma dedupe_loop_NoDup (todo : list Job) (deduped : list (string * string)) :
  NoDup deduped → NoDup (dedupe_loop todo todo deduped).2.
Proof.
  revert deduped. induction todo as [|job todo IH]; intros deduped Hd; [done|].
  cbn [dedupe_loop cron_remove]. rewrite decide_True by done. apply IH.
  destruct (decide ((slices job, command job) ∈ deduped)) as [|Hnew]; [done|].
  apply NoDup_app. split; [done|]. split; [|apply NoDup_singleton].
  intros p Hp Hp'. apply list_elem_of_singleton in Hp' as ->. by apply Hnew.
Qed.

Lemma dedupe_loop_elem_of (todo : list Job)
    (deduped : list (string * string)) (pair : string * string) :
  pair ∈ (dedupe_loop todo todo deduped).2
  ↔ pair ∈ deduped ∨ ∃ job, job ∈ todo ∧ unique_tuple job = pair.
Proof.
  revert deduped. induction todo as [|job todo IH]; intros deduped.
  - cbn. split; [by left|]. intros [Hp|(job & Hjob & _)]; [done|].
    by apply elem_of_nil in Hjob.
  - cbn [dedupe_loop cron_remove]. rewrite decide_True by done. rewrite IH.
    change (slices job, command job) with (unique_tuple job).
    split.
    + intros [Hp|(old & Hold & Hpair)].
      * destruct (decide (unique_tuple job ∈ deduped)); [by left|].
        apply elem_of_app in Hp as [Hp|Hp]; [by left|].
        apply list_elem_of_singleton in Hp as ->.
        right. exists job. split; [by left|done].
      * right. exists old. split; [by right|done].
    + intros [Hp|(old & Hold & Hpair)].
      * left. destruct (decide (unique_tuple job ∈ deduped)); [done|].
        apply elem_of_app. by left.
      * apply elem_of_cons in Hold as [->|Hold].
        -- left. subst pair.
           destruct (decide (unique_tuple job ∈ deduped)); [done|].
           apply elem_of_app. right. by apply list_elem_of_singleton.
        -- right. by exists old.
Qed.

(** The set of a table of pairwise different pairs is the table of these
    pairs, in their order. *)
Lemma dedupe_loop_distinct (todo : list Job)
    (deduped : list (string * string)) :
  NoDup (deduped ++ map unique_tuple todo) →
  (dedupe_loop todo todo deduped).2 = deduped ++ map unique_tuple todo.
Proof.
  revert deduped. induction todo as [|job todo IH]; intros deduped Hd.
  - cbn. by rewrite app_nil_r.
  - cbn [dedupe_loop cron_remove]. rewrite decide_True by done.
    change (slices job, command job) with (unique_tuple job).
    cbn [map] in Hd |- *.
    rewrite decide_False.
    + rewrite IH; rewrite <- app_assoc; [done|]. exact Hd.
    + intros Hin. apply NoDup_app in Hd as (_ & Hd & _).
      apply (Hd _ Hin). by left.
Qed.

Lemma dedupe_jobs_new (pairs : list (string * string)) (jobs : list Job) :
  fold_left
    (fun jobs '(schedule, command) =>
       let jobs := cron_new command CRON_COMMENT jobs in
       let jobs := on_new_job (set_slices (setall schedule)) jobs in
       on_new_job enable jobs)
    pairs jobs
  = jobs ++ map deduped_job pairs.
Proof.
  revert jobs. induction pairs as [|[schedule cmd] pairs IH]; intros jobs.
  - cbn. by rewrite app_nil_r.
  - cbn [fold_left map]. rewrite IH. unfold cron_new.
    rewrite !on_new_job_snoc. rewrite <- app_assoc. reflexivity.
Qed.

Lemma dedupe_jobs_spec (jobs : list Job) :
  dedupe_jobs jobs
  = map deduped_job (set_order (dedupe_loop jobs jobs []).2).
Proof.
  unfold dedupe_jobs. pose proof (dedupe_loop_table jobs []) as Hempty.
  destruct (dedupe_loop jobs jobs []) as [table deduped]. cbn in Hempty.
  subst table. by rewrite dedupe_jobs_new.
Qed.

Lemma elem_of_dedupe_jobs (jobs : list Job) (job : Job) :
  job ∈ dedupe_jobs jobs
  ↔ ∃ old, old ∈ jobs ∧ job = deduped_job (unique_tuple old).
Proof.
  rewrite dedupe_jobs_spec. split.
  - intros Hjob. apply elem_of_map in Hjob as (pair & <- & Hpair).
    rewrite set_order_perm in Hpair.
    apply dedupe_loop_elem_of in Hpair as [Hpair|(old & Hold & <-)].
    + by apply elem_of_nil in Hpair.
    + by exists old.
  - intros (old & Hold & ->). apply list_elem_of_fmap_2.
    rewrite set_order_perm. apply dedupe_loop_elem_of. right. by exists old.
Qed.

End ScheduleFacts.

Section ScheduleClaims.
Context `{Cron}.

Lemma dedupe_jobs_marked (jobs : list Job) (job : Job) :
  job ∈ dedupe_jobs jobs → comment job = CRON_COMMENT ∧ enabled job = true.
Proof.
  intros Hjob. apply elem_of_dedupe_jobs in Hjob as (old & _ & ->). done.
Qed.

Lemma filter_all {A} (p : A -> bool) (l : list A) :
  (∀ a, a ∈ l → p a = true) → List.filter p l = l.
Proof.
  induction l as [|a l IH]; intros Hall; [done|]. cbn.
  rewrite Hall by (by left). f_equal. apply IH. intros b Hb. apply Hall.
  by right.
Qed.

Lemma filter_none {A} (p : A -> bool) (l : list A) :
  (∀ a, a ∈ l → p a = false) → List.filter p l = [].
Proof.
  induction l as [|a l IH]; intros Hall; [done|]. cbn.
  rewrite Hall by (by left). apply IH. intros b Hb. apply Hall. by right.
Qed.

Lemma find_comment_dedupe_jobs (jobs : list Job) :
  List.filter (fun job => String.eqb (comment job) CRON_COMMENT)
              (dedupe_jobs jobs)
  = dedupe_jobs jobs.
Proof.
  apply filter_all. intros job Hjob.
  apply dedupe_jobs_marked in Hjob as [-> _]. reflexivity.
Qed.

Lemma remove_all_dedupe_jobs (jobs : list Job) :
  remove_all CRON_COMMENT (dedupe_jobs jobs) = [].
Proof.
  apply filter_none. intros job Hjob.
  apply dedupe_jobs_marked in Hjob as [-> _]. reflexivity.
Qed.

Lemma dedupe_jobs_nil (jobs : list Job) :
  dedupe_jobs jobs = [] ↔ jobs = [].
Proof.
  split.
  - intros Hempty. destruct jobs as [|old jobs]; [done|].
    assert (deduped_job (unique_tuple old) ∈ dedupe_jobs (old :: jobs)) as Hin.
    { apply elem_of_dedupe_jobs. exists old. split; [by left|done]. }
    rewrite Hempty in Hin. by apply elem_of_nil in Hin.
  - intros ->. rewrite dedupe_jobs_spec. cbn [dedupe_loop snd].
    pose proof (set_order_perm []) as Hperm.
    apply Permutation_nil_r in Hperm. by rewrite Hperm.
Qed.

Lemma dedupe_jobs_keeps (jobs : list Job) (old : Job) :
  old ∈ jobs →
  ∃ job, job ∈ dedupe_jobs jobs ∧ command job = command old
         ∧ slices job = setall (slices old).
Proof.
  intros Hold. exists (deduped_job (unique_tuple old)).
  split; [|done]. apply elem_of_dedupe_jobs. by exists old.
Qed.

(** X17: [dedupe_jobs] takes over the whole table, not only the jobs of
    [schedule]: every job that it leaves carries the comment
    [archivebox_schedule], is enabled, and has the command and the schedule
    of a job of the table; and every job of the table, whatever its comment
    and whether it was enabled or not, has such a job after it. *)
Theorem dedupe_jobs_takes_over (jobs : list Job) :
  (∀ job, job ∈ dedupe_jobs jobs →
     comment job = CRON_COMMENT ∧ enabled job = true
     ∧ ∃ old, old ∈ jobs ∧ command job = command old
              ∧ slices job = setall (slices old))
  ∧ (∀ old, old ∈ jobs →
       ∃ job, job ∈ dedupe_jobs jobs ∧ command job = command old
              ∧ slices job = setall (slices old)).
Proof.
  split.
  - intros job Hjob. apply elem_of_dedupe_jobs in Hjob as (old & Hold & ->).
    split; [done|]. split; [done|]. by exists old.
  - apply dedupe_jobs_keeps.
Qed.

(** X18: when [setall] gives every job of the table the text of the slices
    that it has, no two jobs that [dedupe_jobs] leaves have the same slices
    and the same command, there are at most as many as before, and a second
    [dedupe_jobs] leaves the same jobs, up to their order. *)
Theorem dedupe_jobs_idempotent (jobs : list Job) :
  (∀ job, job ∈ jobs → setall (slices job) = slices job) →
  NoDup (map unique_tuple (dedupe_jobs jobs))
  ∧ (List.length (dedupe_jobs jobs) ≤ List.length jobs)%nat
  ∧ dedupe_jobs (dedupe_jobs jobs) ≡ₚ dedupe_jobs jobs.
Proof.
  intros Hfixed.
  pose proof (dedupe_loop_NoDup jobs [] (NoDup_nil_2)) as Hnodup.
  assert (∀ pair, pair ∈ (dedupe_loop jobs jobs []).2 →
                  unique_tuple (deduped_job pair) = pair) as Hback.
  { intros pair Hpair.
    apply dedupe_loop_elem_of in Hpair as [Hpair|(old & Hold & <-)].
    - by apply elem_of_nil in Hpair.
    - unfold unique_tuple, deduped_job. cbn. by rewrite (Hfixed old Hold). }
  assert (map unique_tuple (dedupe_jobs jobs)
          = set_order (dedupe_loop jobs jobs []).2) as Hpairs.
  { rewrite dedupe_jobs_spec, map_map. rewrite <- (map_id (set_order _)) at 2.
    apply map_ext_in. intros pair Hpair. apply Hback.
    apply list_elem_of_In in Hpair. by rewrite set_order_perm in Hpair. }
  assert (∀ todo deduped,
            (List.length (dedupe_loop todo todo deduped).2
             ≤ List.length deduped + List.length todo)%nat) as Hlen.
  { induction todo as [|job todo IH]; intros deduped; [cbn; lia|].
    cbn [dedupe_loop cron_remove]. rewrite decide_True by done.
    etrans; [apply IH|]. destruct (decide _); rewrite ?length_app; cbn; lia. }
  split; [|split].
  - rewrite Hpairs. by rewrite set_order_perm.
  - rewrite dedupe_jobs_spec, length_map, set_order_perm.
    apply (Hlen jobs []).
  - rewrite (dedupe_jobs_spec (dedupe_jobs jobs)).
    rewrite dedupe_loop_distinct.
    + cbn [app]. rewrite Hpairs. rewrite set_order_perm.
      by rewrite <- dedupe_jobs_spec.
    + cbn [app]. rewrite Hpairs. by rewrite set_order_perm.
Qed.

End ScheduleClaims.

Lemma dedupe_jobs_idempotent_witness :
  NoDup (map unique_tuple
             (dedupe_jobs (H := Crontab.library) Crontab.crontab))
  ∧ (List.length (dedupe_jobs (H := Crontab.library) Crontab.crontab)
     ≤ List.length Crontab.crontab)%nat
  ∧ dedupe_jobs (H := Crontab.library)
                (dedupe_jobs (H := Crontab.library) Crontab.crontab)
    ≡ₚ dedupe_jobs (H := Crontab.library) Crontab.crontab.
Proof.
  apply (dedupe_jobs_idempotent (H := Crontab.library)). reflexivity.
Defined.

Section ScheduleRuns.
Context `{Cron}.

Ltac unfold_schedule :=
  unfold schedule, mbind, mret, ST_bind, ST_ret, on_cron, find_comment,
    cron_write, st_result, st_except_KeyboardInterrupt, call_run_scheduler;
  cbn [cron cron_writes jobs_run fst snd orb].

(** X19: [schedule --clear] without [--foreground], [--run-all] and
    [--show] writes a crontab without any job, whatever jobs the crontab of
    the user held and whoever had put them there, and ends with status 0. *)
Theorem schedule_clear_empties_crontab
    (add quiet : bool) (every import_path : option string)
    (out_dir : string) (r : CronRun) :
  schedule add false true false false quiet every import_path out_dir r
  = ({| cron := []; cron_writes := cron_writes r ++ [[]];
        jobs_run := jobs_run r |}, SystemExit 0).
Proof.
  unfold_schedule. cbn [orb]. by rewrite remove_all_dedupe_jobs.
Qed.

Lemma run_each_keeps (jobs : list Job) (r : CronRun) :
  cron (run_each jobs r).1 = cron r
  ∧ cron_writes (run_each jobs r).1 = cron_writes r.
Proof.
  revert r. induction jobs as [|job jobs IH]; intros r; [done|].
  cbn [run_each]. unfold mbind, ST_bind, call_job_run.
  destruct (job_run (jobs_run r) job) as [[]|code|e]; [|done|done].
  destruct (IH {| cron := cron r; cron_writes := cron_writes r;
                  jobs_run := jobs_run r ++ [job] |}) as [-> ->]. done.
Qed.

Lemma run_each_all (jobs : list Job) (r : CronRun) :
  (∀ ran job, job_run ran job = Returned tt) →
  run_each jobs r
  = ({| cron := cron r; cron_writes := cron_writes r;
        jobs_run := jobs_run r ++ jobs |}, Returned tt).
Proof.
  intros Hruns. revert r. induction jobs as [|job jobs IH]; intros r.
  - cbn. rewrite app_nil_r. by destruct r.
  - cbn [run_each]. unfold mbind, ST_bind, call_job_run.
    rewrite Hruns, IH. cbn. by rewrite <- app_assoc.
Qed.

(** X20: [schedule --foreground] and [schedule --run-all] end with status 1
    before they run anything when an [import_path] is given or the crontab
    of the user has no job; they write nothing. *)
Theorem schedule_foreground_needs_jobs
    (add show clear foreground run_all quiet : bool)
    (every import_path : option string) (out_dir : string) (r : CronRun) :
  foreground || run_all = true →
  truthy_str import_path = true ∨ cron r = [] →
  schedule add show clear foreground run_all quiet every import_path
           out_dir r
  = ({| cron := dedupe_jobs (cron r); cron_writes := cron_writes r;
        jobs_run := jobs_run r |}, SystemExit 1).
Proof.
  intros Hmode Hrefused. unfold_schedule. rewrite Hmode.
  rewrite find_comment_dedupe_jobs.
  destruct Hrefused as [-> | Hempty]; [reflexivity|].
  apply dedupe_jobs_nil in Hempty. rewrite Hempty.
  by rewrite orb_true_r.
Qed.

(** X21: [schedule --run-all] without [--foreground] and without an
    [import_path] runs, when every [job.run()] returns, one job for every
    job of the crontab of the user, also for those that [schedule] has not
    put there; it writes nothing and returns. *)
Theorem schedule_run_all_runs_every_job
    (add show clear quiet : bool)
    (every import_path : option string) (out_dir : string) (r : CronRun) :
  truthy_str import_path = false →
  cron r ≠ [] →
  (∀ ran job, job_run ran job = Returned tt) →
  let out :=
    schedule add show clear false true quiet every import_path out_dir r in
  out.2 = Returned tt
  ∧ jobs_run out.1 = jobs_run r ++ dedupe_jobs (cron r)
  ∧ cron_writes out.1 = cron_writes r
  ∧ ∀ old, old ∈ cron r →
      ∃ job, job ∈ jobs_run out.1 ∧ command job = command old.
Proof.
  intros Hpath Hjobs Hruns out. subst out. unfold_schedule.
  rewrite find_comment_dedupe_jobs, Hpath.
  destruct (dedupe_jobs (cron r)) as [|job jobs] eqn:Hd.
  { exfalso. apply Hjobs. by apply (proj1 (dedupe_jobs_nil (cron r))). }
  change (list_is_empty (job :: jobs)) with false.
  cbn [orb]. rewrite run_each_all by done.
  cbn [fst snd jobs_run cron_writes cron].
  split; [done|]. split; [done|]. split; [done|].
  intros old Hold.
  destruct (dedupe_jobs_keeps (cron r) old Hold)
    as (new & Hnew & Hcommand & _).
  exists new. split; [|done]. apply elem_of_app. right. by rewrite <- Hd.
Qed.

(** X22: without [--foreground], [--run-all], [--show] and [--clear],
    [schedule --every] with a period for which the new job gets no slices,
    because the text is no name of a period and no valid schedule (status
    1) or because the call for the name raises, ends that way and writes
    nothing. *)
Theorem schedule_every_refused
    (add quiet : bool) (every import_path : option string)
    (out_dir : string) (r : CronRun) (ended : Result unit) :
  truthy_str every = true →
  match new_job_slices (the_str every) with
  | Returned _ => False
  | SystemExit code => ended = SystemExit code
  | Raised e => ended = Raised e
  end →
  let out :=
    schedule add false false false false quiet every import_path out_dir r in
  out.2 = ended ∧ cron_writes out.1 = cron_writes r.
Proof.
  intros Hevery Hended out. subst out. unfold_schedule. cbn [orb].
  rewrite Hevery. unfold new_job_slices in Hended.
  destruct (decide (the_str every ∈ period_names)).
  - destruct (every_named (the_str every)); [done|by subst ended..].
  - destruct (is_valid (the_str every)); [done|]. by subst ended.
Qed.

(** X23: without [--foreground], [--run-all], [--show] and [--clear],
    [schedule --every] with a period that gives the new job its slices
    writes one crontab; it holds a job with the command of
    [schedule_command], and a job for every job of the crontab of the
    user; the command then ends with status 0 when
    [frequency_per_year] returns for every job. *)
Theorem schedule_every_writes_job
    (add quiet : bool) (every import_path : option string)
    (out_dir : string) (r : CronRun) (text : string) :
  truthy_str every = true →
  new_job_slices (the_str every) = Returned text →
  let out :=
    schedule add false false false false quiet every import_path out_dir r in
  ∃ table,
    cron_writes out.1 = cron_writes r ++ [table]
    ∧ (∀ job, job ∈ table →
         comment job = CRON_COMMENT ∧ enabled job = true)
    ∧ (∃ job, job ∈ table
              ∧ command job = schedule_command import_path out_dir
              ∧ slices job = setall text)
    ∧ (∀ old, old ∈ cron r →
         ∃ job, job ∈ table ∧ command job = command old
                ∧ slices job = setall (setall (slices old)))
    ∧ ((∀ job, ∃ n, frequency_per_year job = Returned n) →
       out.2 = SystemExit 0).
Proof.
  intros Hevery Hslices out. subst out.
  set (new_job := {| slices := text;
                     command := schedule_command import_path out_dir;
                     comment := CRON_COMMENT; enabled := true |}).
  exists (dedupe_jobs (dedupe_jobs (cron r) ++ [new_job])).
  assert (schedule add false false false false quiet every import_path
                   out_dir r
          = ({| cron := dedupe_jobs (dedupe_jobs (cron r) ++ [new_job]);
                cron_writes :=
                  cron_writes r
                  ++ [dedupe_jobs (dedupe_jobs (cron r) ++ [new_job])];
                jobs_run := jobs_run r |},
             match total_frequency
                     (dedupe_jobs (dedupe_jobs (cron r) ++ [new_job])) with
             | Returned _ => SystemExit 0
             | SystemExit code => SystemExit code
             | Raised e => Raised e
             end)) as ->.
  { unfold_schedule. cbn [orb]. rewrite Hevery.
    unfold new_job_slices in Hslices.
    unfold cron_new.
    destruct (decide (the_str every ∈ period_names)).
    - rewrite Hslices. cbn [cron cron_writes jobs_run fst snd].
      rewrite on_new_job_snoc.
      change (set_slices text _) with new_job.
      by destruct (total_frequency _).
    - destruct (is_valid (the_str every)); [|done].
      injection Hslices as Hslices. rewrite Hslices.
      cbn [cron cron_writes jobs_run fst snd]. rewrite on_new_job_snoc.
      change (set_slices text _) with new_job.
      by destruct (total_frequency _). }
  cbn [fst snd cron_writes].
  split; [done|]. split; [apply dedupe_jobs_marked|]. split; [|split].
  - apply (dedupe_jobs_keeps _ new_job).
    apply elem_of_app. right. by apply list_elem_of_singleton.
  - intros old Hold.
    destruct (dedupe_jobs_keeps (cron r) old Hold)
      as (mid & Hmid & Hcommand & Hmidslices).
    destruct (dedupe_jobs_keeps (dedupe_jobs (cron r) ++ [new_job]) mid)
      as (job & Hjob & Hcommand' & Hjobslices).
    { apply elem_of_app. by left. }
    exists job. split; [done|]. split; [congruence|].
    by rewrite Hjobslices, Hmidslices.
  - intros Hfrequency.
    assert (∀ jobs, ∃ total, total_frequency jobs = Returned total) as Htotal.
    { induction jobs as [|job jobs [total IH]]; [by exists 0%Z|].
      destruct (Hfrequency job) as [n Hn]. exists (n + total)%Z.
      cbn. by rewrite Hn, IH. }
    destruct (Htotal (dedupe_jobs (dedupe_jobs (cron r) ++ [new_job])))
      as [total ->]. done.
Qed.

Ltac no_tables :=
  exists []; rewrite app_nil_r;
  split;
  [|split; [cbn; lia|];
    split; [intros ? ? Htable; by apply elem_of_nil in Htable|];
    split; [done|]; try (cbn; intros; discriminate)].

(** X24: [schedule] writes the crontab of the user at most once; a crontab
    that it writes holds only enabled jobs with the comment
    [archivebox_schedule]; it writes nothing with [--foreground],
    [--run-all] or [--show], and with none of these and neither [--clear]
    nor [--every] it returns without a write. *)
Theorem schedule_writes_at_most_once
    (add show clear foreground run_all quiet : bool)
    (every import_path : option string) (out_dir : string) (r : CronRun) :
  let out :=
    schedule add show clear foreground run_all quiet every import_path
             out_dir r in
  ∃ tables,
    cron_writes out.1 = cron_writes r ++ tables
    ∧ (List.length tables ≤ 1)%nat
    ∧ (∀ table job, table ∈ tables → job ∈ table →
         comment job = CRON_COMMENT ∧ enabled job = true)
    ∧ (foreground || run_all || show = true → tables = [])
    ∧ (foreground || run_all || show || clear = false →
       truthy_str every = false →
       tables = [] ∧ out.2 = Returned tt).
Proof.
  intros out. subst out.
  destruct (foreground || run_all) eqn:Hmode.
  { no_tables. unfold_schedule. rewrite Hmode.
    destruct (truthy_str import_path || list_is_empty _); [done|].
    match goal with
    | |- context [match ?first ?run with _ => _ end] =>
        assert (cron_writes (first run).1 = cron_writes r) as Hfirst;
        [|destruct (first run) as [s' [[]|code|e]]]
    end; cbn [fst cron_writes] in *; try done.
    { destruct run_all; [|done].
      match goal with
      | |- context [run_each ?jobs ?run] =>
          pose proof (run_each_keeps jobs run) as [_ Hkeeps];
          destruct (run_each jobs run) as [s' [[]|code|[]]]
      end; done. }
    destruct foreground; [|done].
    by destruct (run_scheduler (cron s')) as [[]|code|[]]. }
  apply orb_false_iff in Hmode as [-> ->].
  destruct show.
  { no_tables. done. }
  destruct clear.
  { exists [[]]. unfold_schedule. cbn [orb]. rewrite remove_all_dedupe_jobs.
    split; [done|]. split; [cbn; lia|]. split; [|done].
    intros table job Htable Hjob.
    apply list_elem_of_singleton in Htable as ->. by apply elem_of_nil in Hjob. }
  unfold_schedule.
  destruct (truthy_str every) eqn:Hevery; [|no_tables; done].
  assert (∀ text,
            ∃ tables,
              cron_writes
                (let r' :=
                   {| cron :=
                        dedupe_jobs
                          (on_new_job (set_slices text)
                             (cron_new
                                (schedule_command import_path out_dir)
                                CRON_COMMENT (dedupe_jobs (cron r))));
                      cron_writes :=
                        cron_writes r
                        ++ [dedupe_jobs
                              (on_new_job (set_slices text)
                                 (cron_new
                                    (schedule_command import_path out_dir)
                                    CRON_COMMENT (dedupe_jobs (cron r))))];
                      jobs_run := jobs_run r |} in
                 match total_frequency (cron r') with
                 | Returned _ => (r', SystemExit 0)
                 | SystemExit code => (r', SystemExit code)
                 | Raised e => (r', Raised e)
                 end : CronRun * Result unit).1
              = cron_writes r ++ tables
              ∧ (List.length tables ≤ 1)%nat
              ∧ (∀ table job, table ∈ tables → job ∈ table →
                   comment job = CRON_COMMENT ∧ enabled job = true)
              ∧ (false = true → tables = [])
              ∧ (false = false → true = false →
                 tables = []
                 ∧ (let r' :=
                      {| cron :=
                           dedupe_jobs
                             (on_new_job (set_slices text)
                                (cron_new
                                   (schedule_command import_path out_dir)
                                   CRON_COMMENT (dedupe_jobs (cron r))));
                         cron_writes :=
                           cron_writes r
                           ++ [dedupe_jobs
                                 (on_new_job (set_slices text)
                                    (cron_new
                                       (schedule_command import_path out_dir)
                                       CRON_COMMENT (dedupe_jobs (cron r))))];
                         jobs_run := jobs_run r |} in
                    match total_frequency (cron r') with
                    | Returned _ => (r', SystemExit 0)
                    | SystemExit code => (r', SystemExit code)
                    | Raised e => (r', Raised e)
                    end : CronRun * Result unit).2 = Returned tt))
    as Hwritten.
  { intros text. eexists [_]. cbv zeta. cbn [cron].
    split; [by destruct (total_frequency _)|].
    split; [cbn; lia|]. split; [|done].
    intros table job Htable.
    apply list_elem_of_singleton in Htable as ->. apply dedupe_jobs_marked. }
  destruct (decide (the_str every ∈ period_names)) as [Hname|Hname].
  - destruct (every_named (the_str every)) as [text|code|err].
    + apply Hwritten.
    + no_tables; done.
    + no_tables; done.
  - destruct (is_valid (the_str every)).
    + apply Hwritten.
    + no_tables; done.
Qed.

End ScheduleRuns.

Lemma schedule_foreground_needs_jobs_witness :
  schedule (H := Crontab.library) false false false true false false None
           (Some "https://example.com/feed.xml") "/data"
           (schedule_start Crontab.crontab)
  = ({| cron := dedupe_jobs (H := Crontab.library) Crontab.crontab;
        cron_writes := []; jobs_run := [] |}, SystemExit 1).
Proof.
  apply (schedule_foreground_needs_jobs (H := Crontab.library));
    [reflexivity|left; reflexivity].
Defined.

Lemma schedule_run_all_runs_every_job_witness :
  (schedule (H := Crontab.library) false false false false true false None
            None "/data" (schedule_start Crontab.crontab)).2
  = Returned tt.
Proof.
  refine (proj1 (schedule_run_all_runs_every_job (H := Crontab.library)
                   false false false false None None "/data"
                   (schedule_start Crontab.crontab) _ _ _));
    [reflexivity|discriminate|reflexivity].
Defined.

Lemma schedule_every_refused_witness :
  (schedule (H := Crontab.library) false false false false false false
            (Some "fortnight") None "/data"
            (schedule_start Crontab.crontab)).2
  = SystemExit 1.
Proof.
  refine (proj1 (schedule_every_refused (H := Crontab.library)
                   false false (Some "fortnight") None "/data"
                   (schedule_start Crontab.crontab) (SystemExit 1) _ _));
    [reflexivity|vm_compute; reflexivity].
Defined.

Lemma schedule_every_writes_job_witness :
  ∃ table,
    cron_writes
      (schedule (H := Crontab.library) false false false false false false
                (Some "day") None "/data/my archive"
                (schedule_start Crontab.crontab)).1
    = [table]
    ∧ (Crontab.backup ∉ table)
    ∧ {| slices := "0 3 * * *"; command := "backup.sh";
         comment := CRON_COMMENT; enabled := true |} ∈ table
    ∧ {| slices := "@daily";
         command := "cd " +:+ in_quotes "/data/my archive"
                    +:+ " && archivebox update 2>&1 > /data/logs/archivebox.log";
         comment := CRON_COMMENT; enabled := true |} ∈ table.
Proof.
  destruct (schedule_every_writes_job (H := Crontab.library)
              false false (Some "day") None "/data/my archive"
              (schedule_start Crontab.crontab) "@daily")
    as (table & Hwrites & Hmarked & (new & Hnew & Hcommand & Hslices)
        & Hold & _); [reflexivity|vm_compute; reflexivity|].
  exists table. split; [exact Hwrites|]. split; [|split].
  - intros Hin. by destruct (Hmarked _ Hin) as [_ ?].
  - destruct (Hold Crontab.backup) as (job & Hjob & Hc & Hs); [by left|].
    destruct (Hmarked _ Hjob) as [Hcomment Henabled].
    destruct job as [s c m e]. cbn in *. by subst.
  - destruct (Hmarked _ Hnew) as [Hcomment Henabled].
    destruct new as [s c m e]. cbn in Hcommand, Hslices, Hcomment, Henabled.
    subst. exact Hnew.
Defined.

(** ** [print_folder_status] and [print_dependency_version] *)

Section PrintingFacts.
Context `{Files}.

(** X25: [print_folder_status] raises [UnboundLocalError] and prints
    nothing for a folder that is enabled and valid and has no path; for
    every other folder, when [os.listdir] and [os.path.getsize] return, it
    prints one line and returns. *)
Theorem print_folder_status_needs_path
    (name : string) (folder : Status.Folder) (printed : list (list string)) :
  (Status.enabled folder && Status.is_valid folder
   && negb (truthy_str (Status.path folder)) = true →
   Status.print_folder_status name folder printed
   = (printed, Raised (OtherError "UnboundLocalError")))
  ∧ (Status.enabled folder && Status.is_valid folder
     && negb (truthy_str (Status.path folder)) = false →
     (∀ p, ∃ n, os_listdir p = Returned n) →
     (∀ p, ∃ size, os_path_getsize p = Returned size) →
     ∃ line after,
       Status.print_folder_status name folder printed
       = (printed ++ [line], Returned after)).
Proof.
  unfold Status.print_folder_status, mbind, mret, ST_bind, ST_ret,
    st_result, Status.print_args.
  split.
  - intros Hcase. apply andb_true_iff in Hcase as [Hcase Hpath].
    apply andb_true_iff in Hcase as [-> ->].
    apply negb_true_iff in Hpath. by rewrite Hpath.
  - intros Hcase Hlistdir Hgetsize.
    destruct (truthy_str (Status.path folder)) eqn:Hpath.
    + destruct (os_path_exists _).
      * destruct (os_path_isdir _).
        -- destruct (Hlistdir (the_str (Status.path folder))) as [n ->].
           destruct (Status.enabled folder), (Status.is_valid folder);
             cbn; eauto.
        -- destruct (Hgetsize (the_str (Status.path folder))) as [size ->].
           destruct (Status.enabled folder), (Status.is_valid folder);
             cbn; eauto.
      * destruct (Status.enabled folder), (Status.is_valid folder);
          cbn; eauto.
    + destruct (Status.enabled folder), (Status.is_valid folder);
        try discriminate Hcase; cbn; eauto.
Qed.

(** X26: [print_dependency_version] prints one line and returns when the
    dependency has a path and, if it is enabled and valid, a version in
    which [re.search(r'[\d\.]+', ...)] finds a match; the line then states
    the version as [v] and the match, or [?] for an invalid and [-] for a
    disabled dependency.  For every other dependency it raises [TypeError]
    and prints nothing. *)
Theorem print_dependency_version_type_errors
    (name : string) (dependency : Status.Dependency)
    (printed : list (list string)) :
  let checked :=
    Status.dependency_enabled dependency
    && Status.dependency_is_valid dependency in
  let found :=
    match Status.version dependency with
    | Some text => re_search "[\d\.]+" text
    | None => None
    end in
  let complete :=
    match Status.dependency_path dependency with
    | Some _ => true
    | None => false
    end
    && (negb checked
        || match found with
           | Some _ => true
           | None => false
           end) in
  (complete = true →
   ∃ line after version,
     Status.print_dependency_version name dependency printed
     = (printed ++ [line], Returned after)
     ∧ nth_error line 5 = Some (ljust version 14)
     ∧ version
       = (if checked
          then "v" +:+ default "" found
          else if Status.dependency_enabled dependency then "?" else "-"))
  ∧ (complete = false →
     ∃ msg,
       Status.print_dependency_version name dependency printed
       = (printed, Raised (TypeError msg))).
Proof.
  unfold Status.print_dependency_version, mbind, mret, ST_bind, ST_ret,
    st_result, Status.print_args.
  destruct dependency as [on ok ver pth]. cbn [Status.dependency_path
    Status.dependency_enabled Status.dependency_is_valid Status.version].
  destruct on, ok; cbn [andb negb orb].
  - destruct ver as [text|].
    + destruct (re_search _ text) as [number|] eqn:Hsearch.
      * destruct pth; cbn; split; intros; try discriminate; eauto 10.
      * rewrite andb_false_r. split; intros; try discriminate; eauto.
    + rewrite andb_false_r. split; intros; try discriminate; eauto.
  - destruct pth; cbn; split; intros; try discriminate; eauto 10.
  - destruct pth; cbn; split; intros; try discriminate; eauto 10.
  - destruct pth; cbn; split; intros; try discriminate; eauto 10.
Qed.

End PrintingFacts.

Lemma print_folder_status_needs_path_witness :
  Status.print_folder_status (H := Status.files) "ARCHIVE_DIR"
    {| Status.enabled := true; Status.is_valid := true;
       Status.path := None |} []
  = ([], Raised (OtherError "UnboundLocalError")).
Proof.
  refine (proj1 (print_folder_status_needs_path (H := Status.files)
                   "ARCHIVE_DIR"
                   {| Status.enabled := true; Status.is_valid := true;
                      Status.path := None |} []) _).
  reflexivity.
Defined.

Lemma print_dependency_version_type_errors_witness :
  ∃ msg,
    Status.print_dependency_version (H := Status.files) "WGET_BINARY"
      {| Status.dependency_enabled := true;
         Status.dependency_is_valid := true;
         Status.version := Some "GNU Wget, a non-interactive retriever";
         Status.dependency_path := Some "/usr/bin/wget" |} []
    = ([], Raised (TypeError msg)).
Proof.
  refine (proj2 (print_dependency_version_type_errors (H := Status.files)
                   "WGET_BINARY"
                   {| Status.dependency_enabled := true;
                      Status.dependency_is_valid := true;
                      Status.version :=
                        Some "GNU Wget, a non-interactive retriever";
                      Status.dependency_path := Some "/usr/bin/wget" |} [])
                _).
  reflexivity.
Defined.
